(** * Mochi: live session orchestrator, audio codec, alarm scheduler, weather lookup

    A shallow embedding of the TypeScript sources

    - [services/geminiService.ts] (in the tree as [src/unnamed/part_001]):
      the audio codec, the weather lookup and the live session,
    - [services/alarmService.ts] (in the tree at the end of
      [src/components/UserInfoForm.tsx]): the alarm scheduler,
    - [types.ts]: [MochiState] and [ChatMessage],

    followed by the theorems that settle the properties stated about them.

    Conventions.
    - A JavaScript string is a [string] holding its UTF-8 bytes.  The source
      files are in normal form C; [includes] and [split] on well-formed text
      give the same answer on UTF-8 bytes as on UTF-16 code units.
    - [Date.now()] and [Date] values are integers (milliseconds), [Z].
    - Audio samples and audio-clock times are rationals, [Q]: every finite
      float is one, and the codec only multiplies and divides by [32768],
      which is exact on the sample values it handles.  Sums of clock times
      are taken exactly.
    - A function that can throw returns a [Result]; a handler that mutates
      module state and calls back into the UI is a computation in the monad
      [M], which threads the state, logs every outward call as an [Effect]
      and stops at the first throw, keeping the mutations made so far.
    - Handlers run one at a time and each runs to its end: what another
      handler could do while one is suspended at an [await] is not modelled.
    - A callback handed to [sessionPromise.then] is a microtask: it runs
      when the handler that queued it next awaits or ends, by returning or
      by throwing.  The answers to function calls are sent that way; until
      then they are pending.
    - A field that the SDK declares optional is an [option]; reading a
      property of an absent object throws a [TypeError].  The messages of
      the errors that the engine throws are those of V8.
      The two transcription accumulators, variables of the closure of
      [startLiveSession], are fields of the state, reset when a session
      starts. *)

From Stdlib Require Import ZArith QArith Qround Qminmax Qabs List Bool Lia Lqa.
From Stdlib Require Import Sorted.
From Stdlib Require Import Strings.String Strings.Ascii Strings.Byte.
Import ListNotations.

Close Scope Q_scope.
Open Scope string_scope.
Open Scope list_scope.
Open Scope Z_scope.

(** ** Errors and results *)

Inductive ErrorKind :=
  | GenericError          (* new Error(message) *)
  | RangeError
  | TypeError
  | NotSupportedError     (* DOMException *)
  | InvalidCharacterError (* DOMException *)
  | InvalidStateError.    (* DOMException *)

Record JSError := mkError { kind : ErrorKind; message : string }.

Inductive Result (A : Type) :=
  | Ok (a : A)
  | Throw (e : JSError).
Arguments Ok {A} a.
Arguments Throw {A} e.

Definition isOk {A} (r : Result A) : bool :=
  match r with Ok _ => true | Throw _ => false end.

(** ** JavaScript built-ins used by the sources *)

Module JS.

Definition chr (n : nat) : ascii := ascii_of_nat n.
Definition str1 (n : nat) : string := String (chr n) EmptyString.

(** The double quote, for template strings that contain one. *)
Definition dquote : string := str1 34.

(** [s.includes(sub)] *)
Fixpoint includes (s sub : string) : bool :=
  if prefix sub s then true
  else match s with
       | EmptyString => false
       | String _ s' => includes s' sub
       end.

(** [!s] on a string: the empty string is the only falsy one. *)
Definition truthy (s : string) : bool :=
  match s with EmptyString => false | _ => true end.

(** White space and line terminators of ECMAScript, as UTF-8 sequences:
    U+0009..U+000D, U+0020, U+00A0, U+1680, U+2000..U+200A, U+2028, U+2029,
    U+202F, U+205F, U+3000, U+FEFF. *)
Definition code (c : ascii) : Z := Z.of_nat (nat_of_ascii c).

Definition ws1 (c : ascii) : bool :=
  let n := code c in
  ((9 <=? n) && (n <=? 13)) || (n =? 32).

Definition ws2 (a b : ascii) : bool :=
  (code a =? 194) && (code b =? 160).

Definition ws3 (a b c : ascii) : bool :=
  let x := code a in
  let y := code b in
  let z := code c in
  ((x =? 225) && (y =? 154) && (z =? 128))
  || ((x =? 226) && (y =? 128)
      && (((128 <=? z) && (z <=? 138)) || (z =? 168) || (z =? 169) || (z =? 175)))
  || ((x =? 226) && (y =? 129) && (z =? 159))
  || ((x =? 227) && (y =? 128) && (z =? 128))
  || ((x =? 239) && (y =? 187) && (z =? 191)).

Fixpoint trimStartL (l : list ascii) : list ascii :=
  match l with
  | a :: l1 =>
      if ws1 a then trimStartL l1
      else match l1 with
           | b :: l2 =>
               if ws2 a b then trimStartL l2
               else match l2 with
                    | c :: l3 => if ws3 a b c then trimStartL l3 else l
                    | [] => l
                    end
           | [] => l
           end
  | [] => []
  end.

(** The same scan from the end, on the reversed list. *)
Fixpoint trimEndR (l : list ascii) : list ascii :=
  match l with
  | c :: l1 =>
      if ws1 c then trimEndR l1
      else match l1 with
           | b :: l2 =>
               if ws2 b c then trimEndR l2
               else match l2 with
                    | a :: l3 => if ws3 a b c then trimEndR l3 else l
                    | [] => l
                    end
           | [] => l
           end
  | [] => []
  end.

(** [s.trim()] *)
Definition trim (s : string) : string :=
  string_of_list_ascii
    (rev (trimEndR (rev (trimStartL (list_ascii_of_string s))))).

(** [s.split(sep)] for a one-character separator: never an empty list. *)
Fixpoint split (sep : ascii) (s : string) : list string :=
  match s with
  | EmptyString => [EmptyString]
  | String c s' =>
      if Ascii.eqb c sep then EmptyString :: split sep s'
      else match split sep s' with
           | p :: ps => String c p :: ps
           | [] => [String c EmptyString]
           end
  end.

(** Conversion of a number to the element type of an [Int16Array]:
    truncate towards zero, then wrap modulo 2^16 into [-32768, 32767]. *)
Definition truncate (x : Q) : Z :=
  if Qle_bool 0%Q x then Qfloor x else Qceiling x.

Definition wrap16 (n : Z) : Z := ((n + 32768) mod 65536 - 32768)%Z.

Definition ToInt16 (x : Q) : Z := wrap16 (truncate x).

(** [new Uint8Array(int16.buffer)]: two bytes per element, low byte first
    (typed arrays use the byte order of the platform, little-endian on
    every platform the application runs on). *)
Definition byteOfZ (n : Z) : byte :=
  match Byte.of_N (Z.to_N (n mod 256)) with
  | Some b => b
  | None => x00
  end.

Definition ZofByte (b : byte) : Z := Z.of_N (Byte.to_N b).

Definition bytesOfInt16 (n : Z) : list byte :=
  [byteOfZ (n mod 65536); byteOfZ ((n mod 65536) / 256)].

Definition int16OfBytes (lo hi : byte) : Z :=
  wrap16 (ZofByte lo + 256 * ZofByte hi).

(** [new Int16Array(buffer)]: a [RangeError] unless the byte length of
    the buffer is a multiple of the element size. *)
Fixpoint int16View (bytes : list byte) : option (list Z) :=
  match bytes with
  | [] => Some []
  | lo :: hi :: rest =>
      match int16View rest with
      | Some l => Some (int16OfBytes lo hi :: l)
      | None => None
      end
  | [_] => None
  end.

Definition Int16Array (buffer : list byte) : Result (list Z) :=
  match int16View buffer with
  | Some l => Ok l
  | None =>
      Throw (mkError RangeError
               "byte length of Int16Array should be a multiple of 2")
  end.

(** *** Base64: [btoa] on a binary string, [atob] (forgiving decode) *)

Definition b64char (n : Z) : ascii :=
  let k := n mod 64 in
  if k <? 26 then chr (Z.to_nat (65 + k))
  else if k <? 52 then chr (Z.to_nat (97 + (k - 26)))
  else if k <? 62 then chr (Z.to_nat (48 + (k - 52)))
  else if k =? 62 then chr 43
  else chr 47.

Definition b64val (c : ascii) : option Z :=
  let n := code c in
  if (65 <=? n) && (n <=? 90) then Some (n - 65)
  else if (97 <=? n) && (n <=? 122) then Some (n - 97 + 26)
  else if (48 <=? n) && (n <=? 57) then Some (n - 48 + 52)
  else if n =? 43 then Some 62
  else if n =? 47 then Some 63
  else None.

Definition pad : ascii := chr 61.

(** The 6-bit groups of the bytes, three bytes to four groups; [b64char]
    reads a group modulo 64. *)
Fixpoint groups (bs : list byte) : list Z :=
  match bs with
  | [] => []
  | [a] =>
      let n := ZofByte a * 65536 in
      [n / 262144; n / 4096]
  | [a; b] =>
      let n := ZofByte a * 65536 + ZofByte b * 256 in
      [n / 262144; n / 4096; n / 64]
  | a :: b :: c :: rest =>
      let n := ZofByte a * 65536 + ZofByte b * 256 + ZofByte c in
      n / 262144 :: n / 4096 :: n / 64 :: n :: groups rest
  end.

Definition padding (len : nat) : list ascii :=
  match Nat.modulo len 3 with
  | 1%nat => [pad; pad]
  | 2%nat => [pad]
  | _ => []
  end.

Definition btoa (bs : list byte) : string :=
  string_of_list_ascii (map b64char (groups bs) ++ padding (List.length bs)).

Definition asciiWhitespace (c : ascii) : bool :=
  let n := code c in
  (n =? 9) || (n =? 10) || (n =? 12) || (n =? 13) || (n =? 32).

(** One or two trailing [=] are dropped when the length is a multiple of 4. *)
Definition stripPadding (l : list ascii) : list ascii :=
  if (Z.of_nat (List.length l) mod 4 =? 0) && negb (Nat.eqb (List.length l) 0) then
    match rev l with
    | p :: q :: r =>
        if Ascii.eqb p pad
        then (if Ascii.eqb q pad then rev r else rev (q :: r))
        else l
    | _ => l
    end
  else l.

Fixpoint sextets (l : list ascii) : option (list Z) :=
  match l with
  | [] => Some []
  | c :: r =>
      match b64val c, sextets r with
      | Some v, Some vs => Some (v :: vs)
      | _, _ => None
      end
  end.

Fixpoint unpack (vs : list Z) : list byte :=
  match vs with
  | a :: b :: c :: d :: rest =>
      let n := a * 262144 + b * 4096 + c * 64 + d in
      byteOfZ (n / 65536) :: byteOfZ (n / 256) :: byteOfZ n :: unpack rest
  | [a; b; c] =>
      let n := a * 262144 + b * 4096 + c * 64 in
      [byteOfZ (n / 65536); byteOfZ (n / 256)]
  | [a; b] =>
      let n := a * 262144 + b * 4096 in
      [byteOfZ (n / 65536)]
  | _ => []
  end.

Definition invalidCharacter : JSError :=
  mkError InvalidCharacterError "The string to be decoded is not correctly encoded.".

Definition atob (s : string) : Result (list byte) :=
  let l := filter (fun c => negb (asciiWhitespace c)) (list_ascii_of_string s) in
  let l := stripPadding l in
  if Z.of_nat (List.length l) mod 4 =? 1 then Throw invalidCharacter
  else match sextets l with
       | Some vs => Ok (unpack vs)
       | None => Throw invalidCharacter
       end.

(** *** [parseFloat] *)

Inductive Number :=
  | NaN
  | Infinity (negative : bool)
  | Fin (q : Q).

Definition isNaN (n : Number) : bool :=
  match n with NaN => true | _ => false end.

Definition isDigit (c : ascii) : bool := (48 <=? code c) && (code c <=? 57).

(** Longest run of decimal digits: its value, its length, and the rest. *)
Fixpoint digits (acc : Z) (len : nat) (l : list ascii) : Z * nat * list ascii :=
  match l with
  | c :: r => if isDigit c then digits (10 * acc + (code c - 48)) (S len) r
              else (acc, len, l)
  | [] => (acc, len, l)
  end.

Definition scale (m : Z) (e : Z) : Q :=
  if 0 <=? e then inject_Z (m * 10 ^ e)
  else Qmake m (Z.to_pos (10 ^ (- e))).

Definition exponent (l : list ascii) : Z :=
  match l with
  | c :: r =>
      if (code c =? 101) || (code c =? 69) then
        let '(neg, r') :=
          match r with
          | s :: r1 => if code s =? 45 then (true, r1)
                       else if code s =? 43 then (false, r1)
                       else (false, r)
          | [] => (false, r)
          end in
        let '(v, n, _) := digits 0 0 r' in
        if Nat.eqb n 0 then 0 else if neg then - v else v
      else 0
  | [] => 0
  end.

Definition unsignedLiteral (l : list ascii) : option Q :=
  let '(ip, ni, r1) := digits 0 0 l in
  let '(fp, nf, r2) :=
    match r1 with
    | c :: r => if code c =? 46 then digits 0 0 r else (0, 0%nat, r1)
    | [] => (0, 0%nat, r1)
    end in
  if Nat.eqb (ni + nf) 0 then None
  else Some (scale (ip * 10 ^ Z.of_nat nf + fp) (exponent r2 - Z.of_nat nf)).

(** The value is the decimal literal itself: the rounding of a literal
    to the nearest double is not modelled, nor is the overflow of a literal
    beyond the largest double, which is [Infinity] in JavaScript and a
    finite rational here.  What is proved below of a parsed number is
    whether it is [NaN], and its value for a literal that is a small
    integer, which is exact. *)
Definition parseFloat (s : string) : Number :=
  let l := trimStartL (list_ascii_of_string s) in
  let '(neg, l) :=
    match l with
    | c :: r => if code c =? 45 then (true, r)
                else if code c =? 43 then (false, r)
                else (false, l)
    | [] => (false, l)
    end in
  if prefix "Infinity" (string_of_list_ascii l) then Infinity neg
  else match unsignedLiteral l with
       | Some q => Fin (if neg then Qopp q else q)
       | None => NaN
       end.

(** *** Case mapping

    [toLowerCase] and [toUpperCase] follow the Unicode case tables of the
    engine.  The session and weather code are parametric in them (all that
    is used of the tables is that the empty string has no letters); the
    instance [vietnamese] below, used to run the code on concrete text,
    maps Basic Latin, Latin-1 Supplement and the letters of the Vietnamese
    alphabet (Ă Đ Ĩ Ũ Ơ Ư and U+1EA0..U+1EF9), and leaves every other
    character alone. *)

Class CaseMapping := {
  toLowerCase : string -> string;
  toUpperCase : string -> string;
  toLowerCase_empty : toLowerCase EmptyString = EmptyString
}.

Definition shift (up : bool) (lowerForm : bool) (c : ascii) (d : Z) : ascii :=
  (* [lowerForm]: [c] is the lower-case member of its pair, [d] apart *)
  if up then (if lowerForm then chr (Z.to_nat (code c - d)) else c)
  else (if lowerForm then c else chr (Z.to_nat (code c + d))).

Fixpoint mapCase (up : bool) (l : list ascii) : list ascii :=
  match l with
  | a :: r =>
      let x := code a in
      if (65 <=? x) && (x <=? 90) then shift up false a 32 :: mapCase up r
      else if (97 <=? x) && (x <=? 122) then shift up true a 32 :: mapCase up r
      else match r with
           | b :: r2 =>
               let y := code b in
               if (x =? 195) && (128 <=? y) && (y <=? 158) && negb (y =? 151)
               then a :: shift up false b 32 :: mapCase up r2
               else if (x =? 195) && (160 <=? y) && (y <=? 190) && negb (y =? 183)
               then a :: shift up true b 32 :: mapCase up r2
               else if ((x =? 196) && ((y =? 130) || (y =? 144) || (y =? 168)))
                       || ((x =? 197) && (y =? 168))
                       || ((x =? 198) && (y =? 160))
               then a :: shift up false b 1 :: mapCase up r2
               else if ((x =? 196) && ((y =? 131) || (y =? 145) || (y =? 169)))
                       || ((x =? 197) && (y =? 169))
                       || ((x =? 198) && (y =? 161))
               then a :: shift up true b 1 :: mapCase up r2
               else if (x =? 198) && (y =? 175)
               then if up then a :: b :: mapCase up r2
                    else a :: chr 176 :: mapCase up r2
               else if (x =? 198) && (y =? 176)
               then if up then a :: chr 175 :: mapCase up r2
                    else a :: b :: mapCase up r2
               else match r2 with
                    | c :: r3 =>
                        let z := code c in
                        if (x =? 225)
                           && (((y =? 186) && (160 <=? z) && (z <=? 191))
                               || ((y =? 187) && (128 <=? z) && (z <=? 185)))
                        then a :: b :: shift up (Z.odd z) c 1 :: mapCase up r3
                        else a :: mapCase up r
                    | [] => a :: mapCase up r
                    end
           | [] => [a]
           end
  | [] => []
  end.

Definition vietnamese : CaseMapping := {|
  toLowerCase s := string_of_list_ascii (mapCase false (list_ascii_of_string s));
  toUpperCase s := string_of_list_ascii (mapCase true (list_ascii_of_string s));
  toLowerCase_empty := eq_refl
|}.

End JS.

(** ** Audio codec ([decode], [decodeAudioData], [encode], [createBlob]) *)

Module Codec.
Import JS.

Record Blob := { data : string; mimeType : string }.

Record AudioBuffer := {
  numberOfChannels : nat;
  length : nat;
  sampleRate : Z;
  channels : list (list Q)       (* getChannelData(0), getChannelData(1), ... *)
}.

(** [buffer.duration], in seconds. *)
Definition duration (b : AudioBuffer) : Q :=
  (inject_Z (Z.of_nat (length b)) / inject_Z (sampleRate b))%Q.

(** [ctx.createBuffer]: a [NotSupportedError] when an argument is zero or
    outside its nominal range (1..32 channels, 8000..96000 Hz, the range
    every implementation supports). *)
Definition createBuffer (numOfChannels : nat) (len : nat) (rate : Z)
  : Result AudioBuffer :=
  if Nat.eqb numOfChannels 0 || Nat.ltb 32 numOfChannels || Nat.eqb len 0
     || (rate <? 8000) || (96000 <? rate)
  then Throw (mkError NotSupportedError "createBuffer: argument outside its nominal range")
  else Ok {| numberOfChannels := numOfChannels;
             length := len;
             sampleRate := rate;
             channels := repeat (repeat 0%Q len) numOfChannels |}.

Definition decode (base64 : string) : Result (list byte) := atob base64.

Definition encode (bytes : list byte) : string := btoa bytes.

(** [frameCount] is the integer part of [dataInt16.length / numChannels]:
    [createBuffer] truncates its length argument, and in the copy loop a
    store at an index past the end of a channel is ignored, so only the
    frames below the integer part are written. *)
Definition decodeAudioData (data : list byte) (rate : Z) (numChannels : nat)
  : Result AudioBuffer :=
  match Int16Array data with
  | Throw e => Throw e
  | Ok dataInt16 =>
      let frameCount := Nat.div (List.length dataInt16) numChannels in
      match createBuffer numChannels frameCount rate with
      | Throw e => Throw e
      | Ok buffer =>
          Ok {| numberOfChannels := numberOfChannels buffer;
                length := length buffer;
                sampleRate := sampleRate buffer;
                channels :=
                  map (fun channel =>
                         map (fun i =>
                                (inject_Z (nth (i * numChannels + channel)%nat dataInt16 0%Z)
                                 / 32768)%Q)
                             (seq 0 frameCount))
                      (seq 0 numChannels) |}
      end
  end.

(** [int16[i] = data[i] * 32768]: the product is exact, the store converts
    it with [ToInt16]. *)
Definition toPCM (data : list Q) : list Z :=
  map (fun x => ToInt16 (x * 32768)%Q) data.

Definition createBlob (data : list Q) : Blob :=
  {| data := encode (flat_map bytesOfInt16 (toPCM data));
     mimeType := "audio/pcm;rate=16000" |}.

(** The path a frame takes from the capture side back to samples: the
    base64 text of the blob is decoded and the bytes are read as PCM at the
    given rate and channel count. *)
Definition roundTrip (samples : list Q) (rate : Z) (numChannels : nat)
  : Result (list (list Q)) :=
  match decode (data (createBlob samples)) with
  | Throw e => Throw e
  | Ok bytes =>
      match decodeAudioData bytes rate numChannels with
      | Throw e => Throw e
      | Ok buffer => Ok (channels buffer)
      end
  end.

End Codec.

(** ** Alarm scheduler ([setAlarm], [cancelAlarm], [getActiveAlarms]) *)

Module AlarmService.

Record Alarm := {
  id : Z;
  time : Z;            (* time.getTime() *)
  label : string;
  timerId : Z
}.

(** An entry of [getActiveAlarms()]: an alarm without its timer handle. *)
Record AlarmInfo := { info_id : Z; info_time : Z; info_label : string }.

(** A pending [window.setTimeout] of [setAlarm]; its callback closes over
    [id] and [label].  Handles come from a counter of the timer table. *)
Record Timer := {
  handle : Z;
  delay : Z;
  alarmId : Z;
  alarmLabel : string
}.

Record State := {
  activeAlarms : list Alarm;
  nextAlarmId : Z;
  timers : list Timer;
  nextHandle : Z
}.

Inductive Effect :=
  | Warn (msg : string)          (* console.warn *)
  | AlarmRing (label : string)   (* onAlarmRing(label) *)
  | SpeakAlarm (label : string). (* speakAlarm(label), runs on its own *)

Definition init : State :=
  {| activeAlarms := []; nextAlarmId := 1; timers := []; nextHandle := 1 |}.

(** [index = findIndex(a => a.id === id); if (index !== -1) splice(index, 1)] *)
Fixpoint removeAlarm (i : Z) (l : list Alarm) : list Alarm :=
  match l with
  | [] => []
  | a :: r => if id a =? i then r else a :: removeAlarm i r
  end.

Definition findAlarm (i : Z) (l : list Alarm) : option Alarm :=
  find (fun a => id a =? i) l.

Definition clearTimeout (h : Z) (l : list Timer) : list Timer :=
  filter (fun t => negb (handle t =? h)) l.

Definition setAlarm (now : Z) (time : Z) (label : string) (s : State)
  : option Z * State * list Effect :=
  let delay := time - now in
  if delay <? 0 then
    (None, s, [Warn "Không thể đặt báo thức trong quá khứ."])
  else
    let id := nextAlarmId s in
    let timerId := nextHandle s in
    let timer := {| handle := timerId; delay := delay;
                    alarmId := id; alarmLabel := label |} in
    let newAlarm := {| id := id; time := time; label := label;
                       timerId := timerId |} in
    (None,
     {| activeAlarms := activeAlarms s ++ [newAlarm];
        nextAlarmId := id + 1;
        timers := timers s ++ [timer];
        nextHandle := timerId + 1 |},
     []).

(** The body of the timer callback. *)
Definition onTimer (id : Z) (label : string) (s : State) : State * list Effect :=
  ({| activeAlarms := removeAlarm id (activeAlarms s);
      nextAlarmId := nextAlarmId s;
      timers := timers s;
      nextHandle := nextHandle s |},
   [AlarmRing label; SpeakAlarm label]).

(** Expiry of the timer with handle [h]: it leaves the timer table (it is
    one-shot) and its callback runs.  Nothing happens for a handle that is
    not pending. *)
Definition expire (h : Z) (s : State) : State * list Effect :=
  match find (fun t => handle t =? h) (timers s) with
  | None => (s, [])
  | Some t =>
      onTimer (alarmId t) (alarmLabel t)
        {| activeAlarms := activeAlarms s;
           nextAlarmId := nextAlarmId s;
           timers := clearTimeout h (timers s);
           nextHandle := nextHandle s |}
  end.

Definition cancelAlarm (i : Z) (s : State) : State :=
  match findAlarm i (activeAlarms s) with
  | None => s
  | Some a =>
      {| activeAlarms := removeAlarm i (activeAlarms s);
         nextAlarmId := nextAlarmId s;
         timers := clearTimeout (timerId a) (timers s);
         nextHandle := nextHandle s |}
  end.

Definition getActiveAlarms (s : State) : list AlarmInfo :=
  map (fun a => {| info_id := id a; info_time := time a; info_label := label a |})
      (activeAlarms s).

(** What can happen to the scheduler, and the states it can be in. *)
Inductive Op :=
  | OpSet (now time : Z) (label : string)
  | OpCancel (id : Z)
  | OpExpire (handle : Z).

Definition step (o : Op) (s : State) : State :=
  match o with
  | OpSet now time label => snd (fst (setAlarm now time label s))
  | OpCancel i => cancelAlarm i s
  | OpExpire h => fst (expire h s)
  end.

Definition run (ops : list Op) (s : State) : State :=
  fold_left (fun s o => step o s) ops s.

Definition reachable (s : State) : Prop := exists ops, run ops init = s.

(** Ids and timer handles are handed out once, in increasing order. *)
Definition wellFormed (s : State) : Prop :=
  NoDup (map id (activeAlarms s))
  /\ Forall (fun a => id a < nextAlarmId s) (activeAlarms s)
  /\ NoDup (map handle (timers s))
  /\ Forall (fun t => handle t < nextHandle s) (timers s).

End AlarmService.

(** ** Weather lookup ([getWeatherForLocation]) *)

Module Weather.
Import JS.

Record WeatherData := {
  temperature : Number;
  condition : string;
  emoji : string
}.

Record CacheEntry := { data : WeatherData; expiry : Z }.

Definition WEATHER_CACHE_DURATION : Z := 1000 * 60 * 30.

(** What the [try] block meets before the parsing: [getAi()] throws for
    want of an API key (no request is made), or the request is made and
    [response.text] is the text, or the request or the read of the text
    throws an [Error], or a value that is not an [Error]. *)
Inductive Remote :=
| NoApiKey
| Text (responseText : string)
| Fails (e : JSError)
| FailsOther.

Inductive Thrown :=
  | AnError (e : JSError)
  | NotAnError.

Inductive Effect :=
  | GenerateContent (latitude longitude : Q)   (* the request, with its prompt *)
  | ConsoleError (msg : string).

Definition unexpectedFormat : string := "Định dạng thời tiết không mong đợi".
Definition invalidData : string := "Dữ liệu thời tiết trả về không hợp lệ".
Definition notFound : string := "Không thể tìm thấy dữ liệu thời tiết cho vị trí này.".
Definition cannotRead : string := "Rất tiếc, Mochi không thể đọc được dự báo thời tiết lúc này.".
Definition cannotFetch : string := "Không thể lấy dữ liệu thời tiết ngay bây giờ.".
Definition noApiKey : string := "Biến môi trường API_KEY chưa được đặt.".

Definition error (msg : string) : JSError := mkError GenericError msg.

Section WithCaseMapping.
Context {cm : CaseMapping}.

(** The [try] body from [response.text.trim()] on. *)
Definition parse (responseText : string) : Result WeatherData :=
  match split ";" responseText with
  | [p0; p1; p2] =>
      if String.eqb (toUpperCase p0) "NULL" then Throw (error notFound)
      else
        let temperature := parseFloat p0 in
        let condition := trim p1 in
        let emoji := trim p2 in
        if isNaN temperature || negb (truthy condition) || negb (truthy emoji)
        then Throw (error (invalidData ++ ": " ++ responseText)%string)
        else Ok {| temperature := temperature;
                   condition := condition;
                   emoji := emoji |}
  | _ => Throw (error (unexpectedFormat ++ ": " ++ responseText)%string)
  end.

(** The [catch] clause: what it logs and what it throws on. *)
Definition handler (t : Thrown) : JSError * list Effect :=
  match t with
  | AnError e =>
      if includes (message e) unexpectedFormat || includes (message e) invalidData
      then (error cannotRead, [ConsoleError "Lỗi phân tích cú pháp thời tiết:"])
      else (e, [ConsoleError "Lỗi lấy dữ liệu thời tiết:"])
  | NotAnError =>
      (error cannotFetch, [ConsoleError "Lỗi thời tiết không xác định:"])
  end.

(** [now] is [Date.now()] at the cache check, [later] is [Date.now()]
    when the cache is updated, after the response has arrived. *)
Definition getWeatherForLocation
  (latitude longitude : Q) (now later : Z) (remote : Q -> Q -> Remote)
  (weatherCache : option CacheEntry)
  : Result WeatherData * option CacheEntry * list Effect :=
  let fetch :=
    let request := GenerateContent latitude longitude in
    match remote latitude longitude with
    | NoApiKey =>
        let '(e', log) := handler (AnError (error noApiKey)) in
        (Throw e', weatherCache, log)
    | Text responseText =>
        match parse (trim responseText) with
        | Ok result =>
            (Ok result,
             Some {| data := result; expiry := later + WEATHER_CACHE_DURATION |},
             [request])
        | Throw e =>
            let '(e', log) := handler (AnError e) in
            (Throw e', weatherCache, request :: log)
        end
    | Fails e =>
        let '(e', log) := handler (AnError e) in
        (Throw e', weatherCache, request :: log)
    | FailsOther =>
        let '(e', log) := handler NotAnError in
        (Throw e', weatherCache, request :: log)
    end in
  match weatherCache with
  | Some entry => if now <? expiry entry then (Ok (data entry), weatherCache, [])
                  else fetch
  | None => fetch
  end.

End WithCaseMapping.

End Weather.

(** ** Live session ([startLiveSession], [stopLiveSession], [wakeUp]) *)

Module Live.
Import JS.

Inductive MochiState :=
  | IDLE | LISTENING | THINKING | SPEAKING | LOADING | ERROR
  | SLEEPING | ENTERING_DEEP_SLEEP.

Inductive Speaker := user | mochi.

Record ChatMessage := { speaker : Speaker; text : string }.

(** Platform objects are known by a handle. *)
Definition Handle := nat.

(** An [AudioBufferSourceNode] that has been started: [node] tells the
    objects apart, [startTime] is the argument of [source.start]. *)
Record Source := {
  node : nat;
  startTime : Q;
  duration : Q                 (* source.buffer.duration *)
}.

(** The module-level variables, with the two transcription accumulators
    of the session closure and a counter for the identity of new nodes. *)
Record State := {
  session : option Handle;
  inputAudioContext : option Handle;
  outputAudioContext : option Handle;
  microphoneStream : option Handle;
  scriptProcessor : option Handle;
  isSpeaking : bool;
  nextStartTime : Q;
  audioSources : list Source;
  conversationHistory : list ChatMessage;
  isSuspended : bool;
  deepSleepRequested : bool;
  currentInputTranscription : string;
  currentOutputTranscription : string;
  nodeCounter : nat
}.

Definition set_session (v : option Handle) (s : State) : State :=
  {| session := v;
     inputAudioContext := inputAudioContext s;
     outputAudioContext := outputAudioContext s;
     microphoneStream := microphoneStream s;
     scriptProcessor := scriptProcessor s;
     isSpeaking := isSpeaking s;
     nextStartTime := nextStartTime s;
     audioSources := audioSources s;
     conversationHistory := conversationHistory s;
     isSuspended := isSuspended s;
     deepSleepRequested := deepSleepRequested s;
     currentInputTranscription := currentInputTranscription s;
     currentOutputTranscription := currentOutputTranscription s;
     nodeCounter := nodeCounter s |}.

Definition set_inputAudioContext (v : option Handle) (s : State) : State :=
  {| session := session s;
     inputAudioContext := v;
     outputAudioContext := outputAudioContext s;
     microphoneStream := microphoneStream s;
     scriptProcessor := scriptProcessor s;
     isSpeaking := isSpeaking s;
     nextStartTime := nextStartTime s;
     audioSources := audioSources s;
     conversationHistory := conversationHistory s;
     isSuspended := isSuspended s;
     deepSleepRequested := deepSleepRequested s;
     currentInputTranscription := currentInputTranscription s;
     currentOutputTranscription := currentOutputTranscription s;
     nodeCounter := nodeCounter s |}.

Definition set_outputAudioContext (v : option Handle) (s : State) : State :=
  {| session := session s;
     inputAudioContext := inputAudioContext s;
     outputAudioContext := v;
     microphoneStream := microphoneStream s;
     scriptProcessor := scriptProcessor s;
     isSpeaking := isSpeaking s;
     nextStartTime := nextStartTime s;
     audioSources := audioSources s;
     conversationHistory := conversationHistory s;
     isSuspended := isSuspended s;
     deepSleepRequested := deepSleepRequested s;
     currentInputTranscription := currentInputTranscription s;
     currentOutputTranscription := currentOutputTranscription s;
     nodeCounter := nodeCounter s |}.

Definition set_microphoneStream (v : option Handle) (s : State) : State :=
  {| session := session s;
     inputAudioContext := inputAudioContext s;
     outputAudioContext := outputAudioContext s;
     microphoneStream := v;
     scriptProcessor := scriptProcessor s;
     isSpeaking := isSpeaking s;
     nextStartTime := nextStartTime s;
     audioSources := audioSources s;
     conversationHistory := conversationHistory s;
     isSuspended := isSuspended s;
     deepSleepRequested := deepSleepRequested s;
     currentInputTranscription := currentInputTranscription s;
     currentOutputTranscription := currentOutputTranscription s;
     nodeCounter := nodeCounter s |}.

Definition set_scriptProcessor (v : option Handle) (s : State) : State :=
  {| session := session s;
     inputAudioContext := inputAudioContext s;
     outputAudioContext := outputAudioContext s;
     microphoneStream := microphoneStream s;
     scriptProcessor := v;
     isSpeaking := isSpeaking s;
     nextStartTime := nextStartTime s;
     audioSources := audioSources s;
     conversationHistory := conversationHistory s;
     isSuspended := isSuspended s;
     deepSleepRequested := deepSleepRequested s;
     currentInputTranscription := currentInputTranscription s;
     currentOutputTranscription := currentOutputTranscription s;
     nodeCounter := nodeCounter s |}.

Definition set_isSpeaking (v : bool) (s : State) : State :=
  {| session := session s;
     inputAudioContext := inputAudioContext s;
     outputAudioContext := outputAudioContext s;
     microphoneStream := microphoneStream s;
     scriptProcessor := scriptProcessor s;
     isSpeaking := v;
     nextStartTime := nextStartTime s;
     audioSources := audioSources s;
     conversationHistory := conversationHistory s;
     isSuspended := isSuspended s;
     deepSleepRequested := deepSleepRequested s;
     currentInputTranscription := currentInputTranscription s;
     currentOutputTranscription := currentOutputTranscription s;
     nodeCounter := nodeCounter s |}.

Definition set_nextStartTime (v : Q) (s : State) : State :=
  {| session := session s;
     inputAudioContext := inputAudioContext s;
     outputAudioContext := outputAudioContext s;
     microphoneStream := microphoneStream s;
     scriptProcessor := scriptProcessor s;
     isSpeaking := isSpeaking s;
     nextStartTime := v;
     audioSources := audioSources s;
     conversationHistory := conversationHistory s;
     isSuspended := isSuspended s;
     deepSleepRequested := deepSleepRequested s;
     currentInputTranscription := currentInputTranscription s;
     currentOutputTranscription := currentOutputTranscription s;
     nodeCounter := nodeCounter s |}.

Definition set_audioSources (v : list Source) (s : State) : State :=
  {| session := session s;
     inputAudioContext := inputAudioContext s;
     outputAudioContext := outputAudioContext s;
     microphoneStream := microphoneStream s;
     scriptProcessor := scriptProcessor s;
     isSpeaking := isSpeaking s;
     nextStartTime := nextStartTime s;
     audioSources := v;
     conversationHistory := conversationHistory s;
     isSuspended := isSuspended s;
     deepSleepRequested := deepSleepRequested s;
     currentInputTranscription := currentInputTranscription s;
     currentOutputTranscription := currentOutputTranscription s;
     nodeCounter := nodeCounter s |}.

Definition set_conversationHistory (v : list ChatMessage) (s : State) : State :=
  {| session := session s;
     inputAudioContext := inputAudioContext s;
     outputAudioContext := outputAudioContext s;
     microphoneStream := microphoneStream s;
     scriptProcessor := scriptProcessor s;
     isSpeaking := isSpeaking s;
     nextStartTime := nextStartTime s;
     audioSources := audioSources s;
     conversationHistory := v;
     isSuspended := isSuspended s;
     deepSleepRequested := deepSleepRequested s;
     currentInputTranscription := currentInputTranscription s;
     currentOutputTranscription := currentOutputTranscription s;
     nodeCounter := nodeCounter s |}.

Definition set_isSuspended (v : bool) (s : State) : State :=
  {| session := session s;
     inputAudioContext := inputAudioContext s;
     outputAudioContext := outputAudioContext s;
     microphoneStream := microphoneStream s;
     scriptProcessor := scriptProcessor s;
     isSpeaking := isSpeaking s;
     nextStartTime := nextStartTime s;
     audioSources := audioSources s;
     conversationHistory := conversationHistory s;
     isSuspended := v;
     deepSleepRequested := deepSleepRequested s;
     currentInputTranscription := currentInputTranscription s;
     currentOutputTranscription := currentOutputTranscription s;
     nodeCounter := nodeCounter s |}.

Definition set_deepSleepRequested (v : bool) (s : State) : State :=
  {| session := session s;
     inputAudioContext := inputAudioContext s;
     outputAudioContext := outputAudioContext s;
     microphoneStream := microphoneStream s;
     scriptProcessor := scriptProcessor s;
     isSpeaking := isSpeaking s;
     nextStartTime := nextStartTime s;
     audioSources := audioSources s;
     conversationHistory := conversationHistory s;
     isSuspended := isSuspended s;
     deepSleepRequested := v;
     currentInputTranscription := currentInputTranscription s;
     currentOutputTranscription := currentOutputTranscription s;
     nodeCounter := nodeCounter s |}.

Definition set_currentInputTranscription (v : string) (s : State) : State :=
  {| session := session s;
     inputAudioContext := inputAudioContext s;
     outputAudioContext := outputAudioContext s;
     microphoneStream := microphoneStream s;
     scriptProcessor := scriptProcessor s;
     isSpeaking := isSpeaking s;
     nextStartTime := nextStartTime s;
     audioSources := audioSources s;
     conversationHistory := conversationHistory s;
     isSuspended := isSuspended s;
     deepSleepRequested := deepSleepRequested s;
     currentInputTranscription := v;
     currentOutputTranscription := currentOutputTranscription s;
     nodeCounter := nodeCounter s |}.

Definition set_currentOutputTranscription (v : string) (s : State) : State :=
  {| session := session s;
     inputAudioContext := inputAudioContext s;
     outputAudioContext := outputAudioContext s;
     microphoneStream := microphoneStream s;
     scriptProcessor := scriptProcessor s;
     isSpeaking := isSpeaking s;
     nextStartTime := nextStartTime s;
     audioSources := audioSources s;
     conversationHistory := conversationHistory s;
     isSuspended := isSuspended s;
     deepSleepRequested := deepSleepRequested s;
     currentInputTranscription := currentInputTranscription s;
     currentOutputTranscription := v;
     nodeCounter := nodeCounter s |}.

Definition set_nodeCounter (v : nat) (s : State) : State :=
  {| session := session s;
     inputAudioContext := inputAudioContext s;
     outputAudioContext := outputAudioContext s;
     microphoneStream := microphoneStream s;
     scriptProcessor := scriptProcessor s;
     isSpeaking := isSpeaking s;
     nextStartTime := nextStartTime s;
     audioSources := audioSources s;
     conversationHistory := conversationHistory s;
     isSuspended := isSuspended s;
     deepSleepRequested := deepSleepRequested s;
     currentInputTranscription := currentInputTranscription s;
     currentOutputTranscription := currentOutputTranscription s;
     nodeCounter := v |}.


Definition init : State :=
  {| session := None; inputAudioContext := None; outputAudioContext := None;
     microphoneStream := None; scriptProcessor := None;
     isSpeaking := false; nextStartTime := 0%Q; audioSources := [];
     conversationHistory := []; isSuspended := false;
     deepSleepRequested := false;
     currentInputTranscription := EmptyString;
     currentOutputTranscription := EmptyString;
     nodeCounter := 0%nat |}.

(** A step of [stopLiveSession] that calls into the platform. *)
Inductive Release :=
  | SessionClose            (* session.close() *)
  | TracksStop              (* microphoneStream.getTracks().forEach(stop) *)
  | ProcessorDisconnect     (* scriptProcessor.disconnect() *)
  | InputContextClose       (* await inputAudioContext.close() *)
  | OutputContextClose.     (* await outputAudioContext.close() *)

(** Every call that leaves the module, in the order it is made. *)
Inductive Effect :=
  | StateChange (state : MochiState) (status : option string)
  | HistoryUpdate (history : list ChatMessage)
  | TranscriptionUpdate (message : option ChatMessage)
  | SetTimeout (ms : Z)                       (* the settle continuation *)
  | SourceStart (node : nat) (when : Q)
  | SourceStop (node : nat)
  | Released (r : Release)
  | SetAlarm (targetTime : option Z) (label : string)   (* [None]: an Invalid Date *)
  | SendToolResponse (id name result : string).

(** *** The monad of handlers *)

Definition M (A : Type) : Type := State -> Result A * State * list Effect.

Definition ret {A} (a : A) : M A := fun s => (Ok a, s, []).

Definition bind {A B} (m : M A) (k : A -> M B) : M B :=
  fun s =>
    match m s with
    | (Ok a, s1, t1) =>
        match k a s1 with
        | (r, s2, t2) => (r, s2, t1 ++ t2)
        end
    | (Throw e, s1, t1) => (Throw e, s1, t1)
    end.

Definition get : M State := fun s => (Ok s, s, []).
Definition modify (f : State -> State) : M unit := fun s => (Ok tt, f s, []).
Definition emit (e : Effect) : M unit := fun s => (Ok tt, s, [e]).
Definition throw {A} (e : JSError) : M A := fun s => (Throw e, s, []).
Definition lift {A} (r : Result A) : M A :=
  match r with Ok a => ret a | Throw e => throw e end.
Definition when (b : bool) (m : M unit) : M unit := if b then m else ret tt.

Declare Scope live_scope.
Delimit Scope live_scope with live.
Notation "x <- m ;; k" := (bind m (fun x => k))
  (at level 61, m at next level, right associativity) : live_scope.
Notation "m ;; k" := (bind m (fun _ => k))
  (at level 61, right associativity) : live_scope.
Local Open Scope live_scope.

Definition isSome {A} (o : option A) : bool :=
  match o with Some _ => true | None => false end.

Definition stateOf {A} (x : Result A * State * list Effect) : State := snd (fst x).
Definition traceOf {A} (x : Result A * State * list Effect) : list Effect := snd x.
Definition resultOf {A} (x : Result A * State * list Effect) : Result A := fst (fst x).

(** *** Inbound messages and their environment *)

(** The message types of the SDK, with the fields that the handler reads.
    A field that the SDK declares optional and that the handler reads
    without a guard is an [option] here: reading a property of an absent
    one throws a [TypeError].  The members of [serverContent] are read
    through [serverContent?.] only, so an absent [serverContent] is a
    message in which they are all absent. *)
Record FunctionArgs := {              (* fc.args *)
  arg_query : option string;          (* fc.args.query *)
  arg_label : option string;          (* fc.args.label *)
  arg_delay_minutes : option Number   (* present when typeof is 'number' *)
}.

Record FunctionCall := {
  fc_id : string;
  fc_name : string;
  fc_args : option FunctionArgs
}.

Record ToolCall := { functionCalls : option (list FunctionCall) }.

Record InlineData := { inline_data : option string }.

Record Part := { inlineData : option InlineData }.

Record Content := { parts : option (list Part) }.

Record Transcription := { transcript : option string }.      (* its text *)

Record LiveServerMessage := {
  toolCall : option ToolCall;
  modelTurn : option Content;
  inputTranscription : option Transcription;
  outputTranscription : option Transcription;
  interrupted : bool;
  turnComplete : bool
}.

(** The answer of the search request: a text, an answer without text, or
    a failure of the request. *)
Inductive SearchReply :=
  | Answer (text : option string)
  | SearchFailed.

Record Env := {
  now : Z;                              (* Date.now() *)
  currentTime : Q;                      (* outputAudioContext.currentTime *)
  searchReply : string -> SearchReply;  (* by query *)
  formatTime : Z -> string              (* Intl.DateTimeFormat('vi-VN', ...),
                                           on a valid date *)
}.

Definition optTruthy (o : option string) : bool :=
  match o with Some x => truthy x | None => false end.

Definition orEmpty (o : option string) : string :=
  match o with Some x => x | None => EmptyString end.

(** What [accumulator += transcription.text] appends: an absent text is
    [undefined], which the concatenation turns into a word. *)
Definition textOf (t : Transcription) : string :=
  match transcript t with Some x => x | None => "undefined" end.

(** The errors of the engine that the handler of a message can meet. *)
Definition notIterable : JSError :=
  mkError TypeError "message.toolCall.functionCalls is not iterable".

Definition cannotRead (property : string) : JSError :=
  mkError TypeError
    ("Cannot read properties of undefined (reading '" ++ property ++ "')").

Definition invalidTime : JSError := mkError RangeError "Invalid time value".

(** [new Date(Date.now() + delay_minutes * 60000)]: the time value of the
    date, or [None] for an Invalid Date (the sum is not finite, or is
    more than 8.64e15 ms away from the epoch). *)
Definition maxTime : Q := 8640000000000000.

Definition newDate (now : Z) (delay_minutes : Number) : option Z :=
  match delay_minutes with
  | Fin d =>
      let value := (inject_Z now + d * 60000)%Q in
      if Qle_bool (Qabs value) maxTime then Some (truncate value) else None
  | _ => None
  end.

(** [timeFormatter.format(targetTime)] *)
Definition format (env : Env) (targetTime : option Z) : Result string :=
  match targetTime with
  | Some t => Ok (formatTime env t)
  | None => Throw invalidTime
  end.

(** [message.serverContent?.modelTurn?.parts[0]?.inlineData?.data] *)
Definition audioData (m : LiveServerMessage) : Result (option string) :=
  match modelTurn m with
  | None => Ok None
  | Some content =>
      match parts content with
      | None => Throw (cannotRead "0")
      | Some [] => Ok None
      | Some (part :: _) =>
          match inlineData part with
          | Some blob => Ok (inline_data blob)
          | None => Ok None
          end
      end
  end.

(** *** Handlers *)

Definition wakeUp : M unit :=
  s <- get ;;
  when (isSome (session s) && isSuspended s)
    (modify (set_isSuspended false) ;;
     emit (TranscriptionUpdate None) ;;
     emit (StateChange LISTENING (Some "Mochi nghe đây!"))).

Definition wakeUpMochi : M unit := wakeUp.

Fixpoint forEach {A} (f : A -> M unit) (l : list A) : M unit :=
  match l with
  | [] => ret tt
  | a :: r => f a ;; forEach f r
  end.

(** The answer to a function call is not sent by the handler itself: it
    is handed to [sessionPromise.then], and is sent when the handler next
    gives way, at an [await] or at its end.  [pending] are the answers
    handed over and not yet sent, in order. *)
Definition flush (pending : list Effect) : M unit := forEach emit pending.

(** The handler ends here, by throwing [e]; the answers that are pending
    are sent all the same, once it has ended. *)
Definition throwAfter {A} (pending : list Effect) (e : JSError) : M A :=
  flush pending ;; throw e.

Definition performGoogleSearch (env : Env) (query : string) : M string :=
  emit (StateChange THINKING
          (Some ("Đang tìm kiếm " ++ dquote ++ query ++ dquote ++ "...")%string)) ;;
  ret (match searchReply env query with
       | Answer (Some t) => t
       | Answer None => "Rất tiếc, tôi không thể tìm thấy thông tin vào lúc này."
       | SearchFailed => "Tôi gặp sự cố khi tìm kiếm thông tin về điều đó ngay bây giờ."
       end).

(** One turn of the loop over the function calls (lines 424-440); the
    result is the new list of pending answers. *)
Definition handleFunctionCall (env : Env) (pending : list Effect)
  (fc : FunctionCall) : M (list Effect) :=
  let answer (pending : list Effect) (result : string) : M (list Effect) :=
    ret (pending ++ [SendToolResponse (fc_id fc) (fc_name fc) result]) in
  if String.eqb (fc_name fc) "search_internet" then
    match fc_args fc with
    | None => throwAfter pending (cannotRead "query")
    | Some args =>
        if optTruthy (arg_query args) then
          result <- performGoogleSearch env (orEmpty (arg_query args)) ;;
          flush pending ;;                 (* the [await] of line 426 *)
          answer [] result
        else answer pending "Đã xảy ra lỗi."
    end
  else if String.eqb (fc_name fc) "set_reminder" then
    match fc_args fc with
    | None => throwAfter pending (cannotRead "label")
    | Some args =>
        if optTruthy (arg_label args) then
          match arg_delay_minutes args with
          | Some delay_minutes =>
              let label := orEmpty (arg_label args) in
              let targetTime := newDate (now env) delay_minutes in
              emit (SetAlarm targetTime label) ;;
              match format env targetTime with
              | Throw e => throwAfter pending e
              | Ok time =>
                  answer pending
                    ("Đã đặt lời nhắc " ++ dquote ++ label ++ dquote
                       ++ " vào lúc " ++ time ++ ".")%string
              end
          | None => answer pending "Đã xảy ra lỗi."
          end
        else answer pending "Đã xảy ra lỗi."
    end
  else if String.eqb (fc_name fc) "enter_deep_sleep" then
    modify (set_deepSleepRequested true) ;;
    answer pending "Đã hiểu, đang vào chế độ ngủ sâu."
  else answer pending "Đã xảy ra lỗi.".

Fixpoint handleFunctionCalls (env : Env) (functionCalls : list FunctionCall)
  (pending : list Effect) : M (list Effect) :=
  match functionCalls with
  | [] => ret pending
  | fc :: rest =>
      pending <- handleFunctionCall env pending fc ;;
      handleFunctionCalls env rest pending
  end.

(** Lines 422-442: the tool-call block. *)
Definition handleToolCall (env : Env) (m : LiveServerMessage) : M (list Effect) :=
  match toolCall m with
  | Some call =>
      match functionCalls call with
      | Some calls => handleFunctionCalls env calls []
      | None => throw notIterable
      end
  | None => ret []
  end.

(** Lines 444-462: decode the audio of the message and schedule it.  The
    answers that are pending are sent at the [await] of line 452, and the
    block hands on the ones it has not sent. *)
Definition handleAudio (env : Env) (m : LiveServerMessage)
  (pending : list Effect) : M (list Effect) :=
  match audioData m with
  | Throw e => throwAfter pending e
  | Ok data =>
      s <- get ;;
      if optTruthy data && isSome (outputAudioContext s)
         && negb (isSuspended s)
      then
        when (negb (isSpeaking s))
          (emit (TranscriptionUpdate None) ;;
           modify (set_isSpeaking true) ;;
           emit (StateChange SPEAKING None)) ;;
        match Codec.decode (orEmpty data) with
        | Throw e => throwAfter pending e
        | Ok bytes =>
            flush pending ;;
            audioBuffer <- lift (Codec.decodeAudioData bytes 24000 1) ;;
            s <- get ;;
            let source := nodeCounter s in
            modify (set_nodeCounter (S source)) ;;
            let start := Qmax (nextStartTime s) (currentTime env) in
            modify (set_nextStartTime start) ;;
            emit (SourceStart source start) ;;
            modify (set_nextStartTime (start + Codec.duration audioBuffer)%Q) ;;
            modify (fun s => set_audioSources
                      (audioSources s
                         ++ [{| node := source; startTime := start;
                                duration := Codec.duration audioBuffer |}]) s) ;;
            ret []
        end
      else ret pending
  end.

(** [source.onended]: the node leaves the tracked set. *)
Definition onended (n : nat) : M unit :=
  modify (fun s => set_audioSources
            (filter (fun x => negb (Nat.eqb (node x) n)) (audioSources s)) s).

Definition wakePhrase : string := "mochi ơi".

Definition handleOutputTranscription (m : LiveServerMessage) : M unit :=
  match outputTranscription m with
  | Some transcription =>
      s <- get ;;
      when (negb (isSuspended s))
        (modify (set_currentOutputTranscription
                   (currentOutputTranscription s ++ textOf transcription)%string) ;;
         emit (TranscriptionUpdate
                 (Some {| speaker := mochi;
                          text := (currentOutputTranscription s
                                     ++ textOf transcription)%string |})))
  | None => ret tt
  end.

Definition handleInterrupted : M unit :=
  s <- get ;;
  forEach (fun source => emit (SourceStop (node source))) (audioSources s) ;;
  modify (set_audioSources []) ;;
  modify (set_nextStartTime 0%Q) ;;
  modify (set_isSpeaking false) ;;
  modify (set_currentInputTranscription EmptyString) ;;
  modify (set_currentOutputTranscription EmptyString) ;;
  emit (TranscriptionUpdate None) ;;
  when (isSome (session s)) (emit (StateChange LISTENING None)).

Definition sleepStatus : string :=
  "Mochi đang nghỉ ngơi. Nói 'Mochi ơi' hoặc nhấn đúp để đánh thức.".

Definition settleDelay : Z := 2500.

(** The continuation armed by [setTimeout] at the end of a turn. *)
Definition settle : M unit :=
  s <- get ;;
  when (isSome (session s) && negb (isSuspended s))
    (emit (TranscriptionUpdate None) ;;
     emit (StateChange LISTENING None)).

Section WithCaseMapping.
Context {cm : CaseMapping}.

Definition handleInputTranscription (m : LiveServerMessage) : M unit :=
  match inputTranscription m with
  | Some transcription =>
      s <- get ;;
      let current := (currentInputTranscription s ++ textOf transcription)%string in
      modify (set_currentInputTranscription current) ;;
      if isSuspended s then
        when (includes (toLowerCase current) wakePhrase)
          (wakeUp ;;
           modify (set_currentInputTranscription EmptyString))
      else
        emit (TranscriptionUpdate (Some {| speaker := user; text := current |}))
  | None => ret tt
  end.

Definition isGoodbye (finalInput : string) : bool :=
  includes finalInput "tạm biệt" || includes finalInput "goodbye".

Definition handleTurnComplete : M unit :=
  s <- get ;;
  let finalInput := toLowerCase (trim (currentInputTranscription s)) in
  let finalOutput := trim (currentOutputTranscription s) in
  when (truthy finalInput)
    (modify (fun s => set_conversationHistory
               (conversationHistory s
                  ++ [{| speaker := user; text := finalInput |}]) s)) ;;
  when (truthy finalOutput)
    (modify (fun s => set_conversationHistory
               (conversationHistory s
                  ++ [{| speaker := mochi; text := finalOutput |}]) s)) ;;
  when (truthy finalInput || truthy finalOutput)
    (s <- get ;; emit (HistoryUpdate (conversationHistory s))) ;;
  modify (set_currentInputTranscription EmptyString) ;;
  modify (set_currentOutputTranscription EmptyString) ;;
  modify (set_isSpeaking false) ;;
  s <- get ;;
  if deepSleepRequested s then
    modify (set_deepSleepRequested false) ;;
    emit (StateChange ENTERING_DEEP_SLEEP None)
  else if isGoodbye finalInput then
    modify (set_isSuspended true) ;;
    emit (StateChange SLEEPING (Some sleepStatus)) ;;
    emit (TranscriptionUpdate None)
  else
    when (truthy finalOutput) (emit (StateChange IDLE None)) ;;
    emit (SetTimeout settleDelay).

(** The handler of a message.  When it returns, the answers that are
    still pending are sent. *)
Definition onmessage (env : Env) (m : LiveServerMessage) : M unit :=
  pending <- handleToolCall env m ;;
  pending <- handleAudio env m pending ;;
  handleInputTranscription m ;;
  handleOutputTranscription m ;;
  s <- get ;;
  (if isSuspended s then ret tt   (* skip the other events while resting *)
   else
     when (interrupted m) handleInterrupted ;;
     when (turnComplete m) handleTurnComplete) ;;
  flush pending.

(** Everything [onmessage] does before it reaches the turn-complete
    block: tool calls, audio, the two transcription deltas, the check
    of the suspend flag and the interruption.  The boolean tells
    whether the handler goes on ([false]: it returned at the check), and
    with it come the answers that are pending at that point. *)
Definition beforeTurnComplete (env : Env) (m : LiveServerMessage)
  : M (bool * list Effect) :=
  pending <- handleToolCall env m ;;
  pending <- handleAudio env m pending ;;
  handleInputTranscription m ;;
  handleOutputTranscription m ;;
  s <- get ;;
  if isSuspended s then ret (false, pending)
  else
    when (interrupted m) handleInterrupted ;;
    ret (true, pending).

(** *** Session start and stop *)

(** How the acquisitions of [startLiveSession] turn out. *)
Inductive StartOutcome :=
  | Started (mic inCtx outCtx processor sess : Handle)
  | NoApiKey                               (* getAi() throws *)
  | AcquireFailed (msg : string)           (* getUserMedia rejects *)
  | ConnectFailed (mic inCtx outCtx : Handle) (msg : string)
  | OpenFailed (mic inCtx outCtx : Handle) (processor : option Handle)
               (sess : Handle) (msg : string).
      (* [onopen] throws, with the processor made or not; the connection
         is made all the same *)

(** A release either succeeds or throws the given error. *)
Definition release (fails : Release -> option JSError) (r : Release) : M unit :=
  match fails r with
  | Some e => throw e
  | None => emit (Released r)
  end.

Definition stopLiveSession (fails : Release -> option JSError)
  (userName : option string) : M unit :=
  s <- get ;;
  when (isSome (session s))
    (release fails SessionClose ;; modify (set_session None)) ;;
  when (isSome (microphoneStream s))
    (release fails TracksStop ;; modify (set_microphoneStream None)) ;;
  when (isSome (scriptProcessor s))
    (release fails ProcessorDisconnect ;; modify (set_scriptProcessor None)) ;;
  when (isSome (inputAudioContext s))
    (release fails InputContextClose ;; modify (set_inputAudioContext None)) ;;
  when (isSome (outputAudioContext s))
    (release fails OutputContextClose ;; modify (set_outputAudioContext None)) ;;
  forEach (fun source => emit (SourceStop (node source))) (audioSources s) ;;
  modify (set_audioSources []) ;;
  modify (set_isSpeaking false) ;;
  modify (set_isSuspended false) ;;
  modify (set_deepSleepRequested false) ;;
  modify (set_nextStartTime 0%Q) ;;
  emit (TranscriptionUpdate None) ;;
  emit (HistoryUpdate []) ;;
  emit (StateChange IDLE
          (Some (if optTruthy userName
                 then ("Hẹn gặp lại, " ++ orEmpty userName ++ "!")%string
                 else "Phiên đã kết thúc."))).

(** A call that is not awaited: what it throws is lost to the caller. *)
Definition detached (m : M unit) : M unit :=
  fun s => match m s with (_, s', t) => (Ok tt, s', t) end.

Definition startLiveSession (fails : Release -> option JSError)
  (o : StartOutcome) : M unit :=
  s <- get ;;
  if isSome (session s) then ret tt
  else
    match o with
    | NoApiKey =>
        throw (mkError GenericError "Biến môi trường API_KEY chưa được đặt.")
    | _ =>
        modify (set_conversationHistory []) ;;
        modify (set_isSuspended false) ;;
        modify (set_deepSleepRequested false) ;;
        modify (set_currentInputTranscription EmptyString) ;;
        modify (set_currentOutputTranscription EmptyString) ;;
        emit (StateChange LOADING (Some "Đang khởi động...")) ;;
        match o with
        | Started mic inCtx outCtx processor sess =>
            modify (set_microphoneStream (Some mic)) ;;
            modify (set_inputAudioContext (Some inCtx)) ;;
            modify (set_outputAudioContext (Some outCtx)) ;;
            modify (set_nextStartTime 0%Q) ;;
            modify (set_audioSources []) ;;
            emit (StateChange LISTENING None) ;;          (* onopen *)
            modify (set_scriptProcessor (Some processor)) ;;
            modify (set_session (Some sess))
        | ConnectFailed mic inCtx outCtx msg =>
            modify (set_microphoneStream (Some mic)) ;;
            modify (set_inputAudioContext (Some inCtx)) ;;
            modify (set_outputAudioContext (Some outCtx)) ;;
            modify (set_nextStartTime 0%Q) ;;
            modify (set_audioSources []) ;;
            emit (StateChange ERROR
                    (Some ("Không thể bắt đầu phiên: " ++ msg)%string)) ;;
            detached (stopLiveSession fails None)
        | AcquireFailed msg =>
            emit (StateChange ERROR
                    (Some ("Không thể bắt đầu phiên: " ++ msg)%string)) ;;
            detached (stopLiveSession fails None)
        | OpenFailed mic inCtx outCtx processor sess msg =>
            modify (set_microphoneStream (Some mic)) ;;
            modify (set_inputAudioContext (Some inCtx)) ;;
            modify (set_outputAudioContext (Some outCtx)) ;;
            modify (set_nextStartTime 0%Q) ;;
            modify (set_audioSources []) ;;
            emit (StateChange LISTENING None) ;;          (* onopen *)
            when (isSome processor) (modify (set_scriptProcessor processor)) ;;
            emit (StateChange ERROR                       (* its catch clause *)
                    (Some ("Không thể khởi tạo micrô: " ++ msg)%string)) ;;
            detached (stopLiveSession fails None) ;;
            modify (set_session (Some sess))              (* line 548 *)
        | NoApiKey => ret tt
        end
    end.

(** [onerror] and [onclose] of the transport. *)
Definition onerror (fails : Release -> option JSError) : M unit :=
  emit (StateChange ERROR (Some "Đã xảy ra lỗi kết nối.")) ;;
  detached (stopLiveSession fails None).

Definition onclose : M unit :=
  emit (StateChange IDLE (Some "Phiên đã kết thúc.")).

(** *** Runs: one handler at a time, each run to its end *)

Inductive Event :=
  | Start (fails : Release -> option JSError) (o : StartOutcome)
  | Message (env : Env) (m : LiveServerMessage)
  | Ended (node : nat)
  | Settle
  | WakeUp
  | TransportError (fails : Release -> option JSError)
  | TransportClose
  | Stop (fails : Release -> option JSError) (userName : option string).

Definition handle (e : Event) : M unit :=
  match e with
  | Start fails o => startLiveSession fails o
  | Message env m => onmessage env m
  | Ended n => onended n
  | Settle => settle
  | WakeUp => wakeUpMochi
  | TransportError fails => onerror fails
  | TransportClose => onclose
  | Stop fails userName => stopLiveSession fails userName
  end.

(** The state and the calls made after a sequence of events; a handler
    that throws ends there, and the next event finds the state it left. *)
Fixpoint runEvents (es : list Event) (s : State) : State * list Effect :=
  match es with
  | [] => (s, [])
  | e :: r =>
      match handle e s with
      | (_, s1, t1) =>
          match runEvents r s1 with
          | (s2, t2) => (s2, t1 ++ t2)
          end
      end
  end.

Definition reachable (s : State) : Prop :=
  exists es, fst (runEvents es init) = s.


(** *** Vocabulary of the statements *)

(** A transcription update with content, as opposed to a clearing one. *)
Definition isPublish (e : Effect) : bool :=
  match e with TranscriptionUpdate (Some _) => true | _ => false end.

Definition isListening (e : Effect) : bool :=
  match e with StateChange LISTENING None => true | _ => false end.

Definition quiet (t : list Effect) : Prop :=
  forall c, ~ In (TranscriptionUpdate (Some c)) t.

(** The input delta of [m] completes the wake phrase in the accumulator. *)
Definition wakes (s : State) (m : LiveServerMessage) : bool :=
  match inputTranscription m with
  | Some transcription =>
      includes (toLowerCase (currentInputTranscription s
                               ++ textOf transcription)%string) wakePhrase
  | None => false
  end.

(** Nothing is held and every per-session flag is at its default. *)
Definition stopped (s : State) : Prop :=
  session s = None /\ microphoneStream s = None /\ scriptProcessor s = None
  /\ inputAudioContext s = None /\ outputAudioContext s = None
  /\ audioSources s = [] /\ isSpeaking s = false /\ isSuspended s = false
  /\ deepSleepRequested s = false /\ nextStartTime s = 0%Q.

Definition sameRelease (a b : Release) : bool :=
  match a, b with
  | SessionClose, SessionClose | TracksStop, TracksStop
  | ProcessorDisconnect, ProcessorDisconnect
  | InputContextClose, InputContextClose
  | OutputContextClose, OutputContextClose => true
  | _, _ => false
  end.

(** How many times [r] was released in a trace. *)
Definition released (r : Release) (t : list Effect) : nat :=
  List.length (filter (fun e => match e with
                                | Released r' => sameRelease r r'
                                | _ => false
                                end) t).




(** A run of messages in which no input delta completes the wake phrase. *)
Fixpoint noneWakes (s : State) (ms : list (Env * LiveServerMessage)) : Prop :=
  match ms with
  | [] => True
  | (env, m) :: rest =>
      wakes s m = false /\ noneWakes (stateOf (onmessage env m s)) rest
  end.

Definition messages (ms : list (Env * LiveServerMessage)) : list Event :=
  map (fun em => Message (fst em) (snd em)) ms.

Definition isToolEffect (e : Effect) : bool :=
  match e with
  | StateChange THINKING _ | SetAlarm _ _ | SendToolResponse _ _ _ => true
  | _ => false
  end.

(** What a run has handed over and not sent. *)
Definition pendingOf (x : Result (list Effect) * State * list Effect)
  : list Effect :=
  match resultOf x with Ok pending => pending | Throw _ => [] end.

(** Calls out of the tool-call block only: the search announcement, the
    alarm, the answers. *)
Definition tools (t : list Effect) : Prop :=
  Forall (fun e => isToolEffect e = true) t.


(** The two halves of [onmessage], on either side of the check of the
    suspend flag; the first hands on the answers that are pending. *)
Definition deltas (env : Env) (m : LiveServerMessage) : M (list Effect) :=
  pending <- handleToolCall env m ;;
  pending <- handleAudio env m pending ;;
  handleInputTranscription m ;;
  handleOutputTranscription m ;;
  ret pending.

Definition boundaries (m : LiveServerMessage) : M unit :=
  when (interrupted m) handleInterrupted ;;
  when (turnComplete m) handleTurnComplete.

(** Judgments on a handler: it keeps a property of the state, all the
    calls it makes are of a kind, it never throws. *)
Definition preserves {A} (P : State -> Prop) (m : M A) : Prop :=
  forall s, P s -> P (stateOf (m s)).

Definition emits {A} (Q : Effect -> Prop) (m : M A) : Prop :=
  forall s, Forall Q (traceOf (m s)).

Definition total {A} (m : M A) : Prop :=
  forall s, exists a, resultOf (m s) = Ok a.

End WithCaseMapping.

End Live.

(** ** Inputs on which the code is run in the examples *)

Module Examples.
Import Live.

Definition noFail : Release -> option JSError := fun _ => None.

Definition env0 : Env :=
  {| now := 1000; currentTime := 0%Q;
     searchReply := fun _ => Answer None;
     formatTime := fun _ => "08:10" |}.

Definition at_ (t : Q) : Env :=
  {| now := 1000; currentTime := t;
     searchReply := fun _ => Answer None;
     formatTime := fun _ => "08:10" |}.

Definition nothing : LiveServerMessage :=
  {| toolCall := None; modelTurn := None; inputTranscription := None;
     outputTranscription := None; interrupted := false; turnComplete := false |}.

(** An input transcription delta. *)
Definition heard (text : string) : LiveServerMessage :=
  {| toolCall := None; modelTurn := None;
     inputTranscription := Some {| transcript := Some text |};
     outputTranscription := None; interrupted := false; turnComplete := false |}.

(** An audio chunk, base64. *)
Definition chunk (data : string) : Content :=
  {| parts := Some [{| inlineData := Some {| inline_data := Some data |} |}] |}.

Definition audio (data : string) : LiveServerMessage :=
  {| toolCall := None; modelTurn := Some (chunk data);
     inputTranscription := None;
     outputTranscription := None; interrupted := false; turnComplete := false |}.

Definition turnCompleted : LiveServerMessage :=
  {| toolCall := None; modelTurn := None; inputTranscription := None;
     outputTranscription := None; interrupted := false; turnComplete := true |}.

Definition interruption : LiveServerMessage :=
  {| toolCall := None; modelTurn := None; inputTranscription := None;
     outputTranscription := None; interrupted := true; turnComplete := false |}.

(** Function calls, and a message that carries some. *)
Definition deepSleep (id : string) : FunctionCall :=
  {| fc_id := id; fc_name := "enter_deep_sleep"; fc_args := None |}.

Definition reminder (id label : string) (delay_minutes : JS.Number) : FunctionCall :=
  {| fc_id := id; fc_name := "set_reminder";
     fc_args := Some {| arg_query := None; arg_label := Some label;
                        arg_delay_minutes := Some delay_minutes |} |}.

Definition searchWithoutArgs (id : string) : FunctionCall :=
  {| fc_id := id; fc_name := "search_internet"; fc_args := None |}.

Definition calling (calls : list FunctionCall) : LiveServerMessage :=
  {| toolCall := Some {| functionCalls := Some calls |};
     modelTurn := None; inputTranscription := None;
     outputTranscription := None; interrupted := false; turnComplete := false |}.

Definition deepSleepThenTurnComplete : LiveServerMessage :=
  {| toolCall := Some {| functionCalls := Some [deepSleep "call-1"] |};
     modelTurn := None; inputTranscription := None;
     outputTranscription := None; interrupted := false; turnComplete := true |}.

(** The transport throws when it is closed; nothing else fails. *)
Definition closeFails : Release -> option JSError :=
  fun r => match r with
           | SessionClose => Some (mkError InvalidStateError "close failed")
           | _ => None
           end.

(** A session that is open, with every resource held. *)
Definition started : State :=
  stateOf (startLiveSession noFail (Started 1%nat 2%nat 3%nat 4%nat 5%nat) init).

End Examples.

(** ** Microphone capture ([onaudioprocess], in [startLiveSession]) *)

Module Capture.

(** The callback of the script processor, for one frame of the
    microphone: the blob handed to [sendRealtimeInput], or nothing while
    Mochi speaks. *)
Definition onaudioprocess (s : Live.State) (inputData : list Q)
  : option Codec.Blob :=
  if Live.isSpeaking s then None
  else Some (Codec.createBlob inputData).

End Capture.

(** ** Inspirational quotes ([getInspirationalQuotes]) *)

Module Quotes.
Import JS.

(** A value of [JSON.parse]; the members of an object are in the order
    of the text, and of two members with the same key the later one is
    the property. *)
#[local] Unset Elimination Schemes.
Inductive Json :=
  | JNull
  | JBool (b : bool)
  | JNumber (n : Number)
  | JString (s : string)
  | JArray (items : list Json)
  | JObject (members : list (string * Json)).
#[local] Set Elimination Schemes.

(** What the engine decides: the value or the [SyntaxError] of
    [JSON.parse], and the [TypeError] of a property read on [null]. *)
Record Engine := {
  parseJSON : string -> Result Json;
  nullProperty : JSError
}.

Record CacheEntry := { data : list Json; expiry : Z }.

Definition QUOTES_CACHE_DURATION : Z := 1000 * 60 * 120.

(** As for the weather lookup: no API key, a response with its text, a
    request (or the read of the text) that throws an [Error], or one that
    throws something else. *)
Inductive Remote :=
  | NoApiKey
  | Text (responseText : string)
  | Fails (e : JSError)
  | FailsOther.

Inductive Thrown :=
  | AnError (e : JSError)
  | NotAnError.

Inductive Effect :=
  | GenerateContent                    (* the request, with its prompt and schema *)
  | ConsoleError (msg : string).

Definition invalidQuotes : string := "Mô hình trả về dữ liệu trích dẫn không hợp lệ.".
Definition rateLimited : string := "Đã đạt giới hạn yêu cầu. Vui lòng thử lại sau.".
Definition cannotLoad : string := "Không thể tải câu nói hay vào lúc này.".
Definition noApiKey : string := "Biến môi trường API_KEY chưa được đặt.".

Definition error (msg : string) : JSError := mkError GenericError msg.

(** [s] without the prefix [p], if it starts with it. *)
Fixpoint dropPrefix (p s : string) : option string :=
  match p with
  | EmptyString => Some s
  | String a p' =>
      match s with
      | String b s' => if Ascii.eqb a b then dropPrefix p' s' else None
      | EmptyString => None
      end
  end.

(** [s.replace(/^```json\n?/, '')] *)
Definition stripOpening (s : string) : string :=
  match dropPrefix "```json" s with
  | Some rest =>
      match rest with
      | String c rest' => if code c =? 10 then rest' else rest
      | EmptyString => rest
      end
  | None => s
  end.

(** [s.replace(/```$/, '')]: without the [m] flag, [$] is the end of the
    text. *)
Definition stripClosing (s : string) : string :=
  match rev (list_ascii_of_string s) with
  | a :: b :: c :: r =>
      if (code a =? 96) && (code b =? 96) && (code c =? 96)
      then string_of_list_ascii (rev r)
      else s
  | _ => s
  end.

Fixpoint member (key : string) (members : list (string * Json)) : option Json :=
  match members with
  | [] => None
  | (k, v) :: rest =>
      match member key rest with
      | Some later => Some later
      | None => if String.eqb k key then Some v else None
      end
  end.

(** [value.quotes]; [None] is [undefined].  Only [null] throws: a
    number, a string, a boolean or an array has no such property. *)
Definition quotesOf (engine : Engine) (value : Json) : Result (option Json) :=
  match value with
  | JNull => Throw (nullProperty engine)
  | JObject members => Ok (member "quotes" members)
  | _ => Ok None
  end.

(** [!!v] *)
Definition truthyValue (v : option Json) : bool :=
  match v with
  | None => false
  | Some JNull => false
  | Some (JBool b) => b
  | Some (JNumber NaN) => false
  | Some (JNumber (Infinity _)) => true
  | Some (JNumber (Fin q)) => negb (Qeq_bool q 0)
  | Some (JString s) => truthy s
  | Some (JArray _) => true
  | Some (JObject _) => true
  end.

Definition isArray (v : option Json) : bool :=
  match v with Some (JArray _) => true | _ => false end.

(** The elements of [v], read once [v] is known to be an array. *)
Definition itemsOf (v : option Json) : list Json :=
  match v with Some (JArray items) => items | _ => [] end.

Definition validate (engine : Engine) (jsonResponse : Json) : Result (list Json) :=
  match quotesOf engine jsonResponse with
  | Throw e => Throw e
  | Ok quotes =>
      if negb (truthyValue quotes) || negb (isArray quotes)
         || Nat.eqb (List.length (itemsOf quotes)) 0
      then Throw (error invalidQuotes)
      else Ok (itemsOf quotes)
  end.

(** The [catch] clause: what it throws on (it logs in every case). *)
Definition handler (t : Thrown) : JSError :=
  match t with
  | AnError e =>
      if includes (message e) "RESOURCE_EXHAUSTED" || includes (message e) "429"
      then error rateLimited
      else error cannotLoad
  | NotAnError => error cannotLoad
  end.

(** [now] is [Date.now()] at the cache check, [later] when the cache is
    updated. *)
Definition getInspirationalQuotes (engine : Engine) (now later : Z)
  (remote : Remote) (quotesCache : option CacheEntry)
  : Result (list Json) * option CacheEntry * list Effect :=
  let failed (t : Thrown) (requests : list Effect) :=
    (@Throw (list Json) (handler t), quotesCache,
     requests ++ [ConsoleError "Không thể lấy danh sách câu nói hay:"]) in
  let fetch :=
    match remote with
    | NoApiKey => failed (AnError (error noApiKey)) []
    | Text text =>
        let responseText := stripClosing (stripOpening (trim text)) in
        match parseJSON engine responseText with
        | Throw e => failed (AnError e) [GenerateContent]
        | Ok jsonResponse =>
            match validate engine jsonResponse with
            | Throw e => failed (AnError e) [GenerateContent]
            | Ok quotes =>
                (Ok quotes,
                 Some {| data := quotes; expiry := later + QUOTES_CACHE_DURATION |},
                 [GenerateContent])
            end
        end
    | Fails e => failed (AnError e) [GenerateContent]
    | FailsOther => failed NotAnError [GenerateContent]
    end in
  match quotesCache with
  | Some entry => if now <? expiry entry then (Ok (data entry), quotesCache, [])
                  else fetch
  | None => fetch
  end.

(** A cache that holds a list holds one that is not empty. *)
Definition validCache (quotesCache : option CacheEntry) : Prop :=
  match quotesCache with
  | Some entry => data entry <> []
  | None => True
  end.

Definition miss (now : Z) (quotesCache : option CacheEntry) : Prop :=
  match quotesCache with
  | Some entry => expiry entry <= now
  | None => True
  end.

End Quotes.

(** ** The spoken alarm ([speakAlarm], in the alarm service) *)

Module AlarmSpeech.
Import JS.

(** How the text-to-speech request turns out: [getAi()] throws, the
    response comes with or without inline audio, or the request rejects. *)
Inductive Reply :=
  | NoApiKey
  | Audio (base64Audio : option string)
  | Failed.

Inductive Effect :=
  | StateChange (state : Live.MochiState) (status : string)
  | GenerateContent (text : string)               (* the request *)
  | ContextCreated                                (* new AudioContext *)
  | SourceStart (buffer : Codec.AudioBuffer)      (* source.start() *)
  | ContextClosed                                 (* outputAudioContext.close() *)
  | SetTimeout (ms : Z)
  | ConsoleError (msg : string).

Definition resting : string := "Mochi đang nghỉ ngơi...".

(** The function up to its end; when it ends with [SourceStart] the
    [onended] handler has been set on the source. *)
Definition speakAlarm (text : string) (reply : Reply) : list Effect :=
  let failed :=
    [ConsoleError "Không thể phát âm thanh báo thức:";
     StateChange Live.IDLE resting] in
  StateChange Live.SPEAKING ("Nhắc nhở: " ++ text)
  :: match reply with
     | NoApiKey => failed
     | Failed => GenerateContent ("Đã đến giờ " ++ text) :: failed
     | Audio base64Audio =>
         GenerateContent ("Đã đến giờ " ++ text)
         :: (if Live.optTruthy base64Audio then
               ContextCreated
               :: match Codec.decode (Live.orEmpty base64Audio) with
                  | Throw _ => failed
                  | Ok bytes =>
                      match Codec.decodeAudioData bytes 24000 1 with
                      | Throw _ => failed
                      | Ok audioBuffer => [SourceStart audioBuffer]
                      end
                  end
             else [StateChange Live.IDLE resting])
     end.

(** [source.onended], and the timer it sets. *)
Definition onended : list Effect := [ContextClosed; SetTimeout 1000].

Definition afterPlayback : list Effect := [StateChange Live.IDLE resting].

Definition isStart (e : Effect) : bool :=
  match e with SourceStart _ => true | _ => false end.

Definition isIdle (e : Effect) : bool :=
  match e with StateChange Live.IDLE _ => true | _ => false end.

End AlarmSpeech.

(** ** The profile form ([UserInfoForm]) and the quote of the clock ([Clock]) *)

Module Form.
Import JS.

Record UserProfile := {
  name : string;
  gender : string;
  location : option (Q * Q)          (* latitude, longitude *)
}.

(** The profile handed to [onSubmit], if there is one. *)
Definition handleSubmit (name gender : string) (location : option (Q * Q))
  : option UserProfile :=
  if truthy (trim name) && truthy gender
  then Some {| name := trim name; gender := gender; location := location |}
  else None.

Definition isFormValid (name gender : string) : bool :=
  negb (String.eqb (trim name) EmptyString)
  && negb (String.eqb gender EmptyString).

End Form.

Module Clock.

(** [quotes.length > 0 ? quotes[quoteIndex % quotes.length] : null] *)
Definition currentQuote {A} (quotes : list A) (quoteIndex : nat) : option A :=
  if Nat.ltb 0 (List.length quotes)
  then nth_error quotes (Nat.modulo quoteIndex (List.length quotes))
  else None.

(** The update of the index every minute, and after a new list has
    come: [prev % (newQuotes.length || 1)]. *)
Definition rotate (prevIndex : nat) : nat := (prevIndex + 1)%nat.

Definition refetched {A} (newQuotes : list A) (prev : nat) : nat :=
  Nat.modulo prev
    (if Nat.eqb (List.length newQuotes) 0 then 1%nat else List.length newQuotes).

End Clock.

(** ** The application shell ([App]): state changes and the double tap *)

Module App.

(** The part of the component state that the double tap goes by: the
    profile, what is shown of Mochi, and the two flags.  The transcription
    that is shown, which [startSession] clears, is left out. *)
Record State := {
  userProfile : option Form.UserProfile;
  mochiState : Live.MochiState;
  statusText : string;
  isSessionActive : bool;
  isPowerSaving : bool
}.

(** A call into the live session service. *)
Inductive Call :=
  | StartLiveSession (profile : Form.UserProfile)
  | StopLiveSession (userName : string)
  | WakeUpMochi.

(** [setMochiState(newState); setStatusText(newStatus || '')] *)
Definition handleStateChange (newState : Live.MochiState)
  (newStatus : option string) (a : State) : State :=
  {| userProfile := userProfile a;
     mochiState := newState;
     statusText := Live.orEmpty newStatus;
     isSessionActive := isSessionActive a;
     isPowerSaving := isPowerSaving a |}.

(** The effect that runs when [mochiState] has changed: entering deep
    sleep turns power saving on and shows Mochi asleep. *)
Definition deepSleepEffect (a : State) : State :=
  match mochiState a with
  | Live.ENTERING_DEEP_SLEEP =>
      {| userProfile := userProfile a;
         mochiState := Live.SLEEPING;
         statusText := "Mochi đang ngủ sâu. Chạm hoặc gọi để đánh thức.";
         isSessionActive := isSessionActive a;
         isPowerSaving := true |}
  | _ => a
  end.

(** [resetInactivityTimer]: the screen wakes at once (the timer it arms
    is not modelled). *)
Definition resetInactivityTimer (a : State) : State :=
  {| userProfile := userProfile a;
     mochiState := mochiState a;
     statusText := statusText a;
     isSessionActive := isSessionActive a;
     isPowerSaving := false |}.

Definition startSession (a : State) : State * list Call :=
  match userProfile a with
  | Some profile =>
      if isSessionActive a then (a, [])
      else ({| userProfile := userProfile a;
               mochiState := mochiState a;
               statusText := statusText a;
               isSessionActive := true;
               isPowerSaving := isPowerSaving a |},
            [StartLiveSession profile])
  | None => (a, [])
  end.

Definition stopSession (a : State) : State * list Call :=
  match userProfile a with
  | Some profile =>
      if negb (isSessionActive a) then (a, [])
      else ({| userProfile := userProfile a;
               mochiState := mochiState a;
               statusText := statusText a;
               isSessionActive := false;
               isPowerSaving := isPowerSaving a |},
            [StopLiveSession (Form.name profile)])
  | None => (a, [])
  end.

Definition isSleeping (state : Live.MochiState) : bool :=
  match state with Live.SLEEPING => true | _ => false end.

Definition handleMochiDoubleClick (a : State) : State * list Call :=
  let a := resetInactivityTimer a in
  if negb (isSessionActive a) then startSession a
  else if isSleeping (mochiState a) then (a, [WakeUpMochi])
  else stopSession a.

End App.

(** ** Vocabulary of the scheduler's invariants *)

Module AlarmView.
Import AlarmService.

(** What an alarm and the timer set for it have in common: the timer
    handle, the id and the label the callback closes over. *)
Definition ofAlarm (a : Alarm) : Z * Z * string := (timerId a, id a, label a).

Definition ofTimer (t : Timer) : Z * Z * string :=
  (handle t, alarmId t, alarmLabel t).

(** The active list and the pending timers go together, entry by entry. *)
Definition aligned (s : State) : Prop :=
  map ofAlarm (activeAlarms s) = map ofTimer (timers s).

(** A handle and an id that have been handed out and are no longer in
    use. *)
Definition retired (h i : Z) (s : State) : Prop :=
  h < nextHandle s /\ ~ In h (map handle (timers s))
  /\ i < nextAlarmId s /\ ~ In i (map id (activeAlarms s)).

(** The ids are positive and below the counter, in increasing order. *)
Definition ordered (s : State) : Prop :=
  StronglySorted Z.lt (map id (activeAlarms s))
  /\ Forall (fun a => 1 <= id a < nextAlarmId s) (activeAlarms s).

End AlarmView.

(** ** Vocabulary of the weather lookup *)

Module WeatherView.
Import JS Weather.

(** A reading the display can show: a temperature that is a number, a
    condition and an emoji that are not empty. *)
Definition valid (w : WeatherData) : Prop :=
  isNaN (temperature w) = false
  /\ truthy (condition w) = true
  /\ truthy (emoji w) = true.

Definition validCache (weatherCache : option CacheEntry) : Prop :=
  match weatherCache with
  | Some entry => valid (data entry)
  | None => True
  end.

(** The cache has nothing to offer at time [now]. *)
Definition miss (now : Z) (weatherCache : option CacheEntry) : Prop :=
  match weatherCache with
  | Some entry => expiry entry <= now
  | None => True
  end.

End WeatherView.

(** ** Vocabulary of the session's invariants *)

Module LiveView.
Import JS Live.

(** While a session is open, the microphone, the processor and the two
    audio contexts are held. *)
Definition held (s : State) : Prop :=
  session s <> None ->
  microphoneStream s <> None /\ scriptProcessor s <> None
  /\ inputAudioContext s <> None /\ outputAudioContext s <> None.

(** A resting session is not marked as speaking. *)
Definition restingQuietly (s : State) : Prop :=
  isSuspended s = true -> isSpeaking s = false.

(** No entry of the history is empty. *)
Definition wellSpoken (s : State) : Prop :=
  Forall (fun c => truthy (text c) = true) (conversationHistory s).

(** The tracked nodes are distinct, and older than the next one. *)
Definition distinctNodes (s : State) : Prop :=
  NoDup (map node (audioSources s))
  /\ Forall (fun x => (node x < nodeCounter s)%nat) (audioSources s).

(** The tool responses of a trace, by id and name. *)
Definition responses (t : list Effect) : list (string * string) :=
  flat_map (fun e => match e with
                     | SendToolResponse id name _ => [(id, name)]
                     | _ => []
                     end) t.

Definition isResponse (e : Effect) : bool :=
  match e with SendToolResponse _ _ _ => true | _ => false end.

(** The function calls of a message. *)
Definition calls (m : LiveServerMessage) : list FunctionCall :=
  match toolCall m with
  | Some call =>
      match functionCalls call with Some l => l | None => [] end
  | None => []
  end.

(** A function call at which the loop is left by a throw: a search or a
    reminder that comes without arguments, a reminder with a label and a
    delay whose target time is not a date. *)
Definition throwing (env : Env) (fc : FunctionCall) : bool :=
  if String.eqb (fc_name fc) "search_internet" then negb (isSome (fc_args fc))
  else if String.eqb (fc_name fc) "set_reminder" then
    match fc_args fc with
    | None => true
    | Some args =>
        optTruthy (arg_label args)
        && match arg_delay_minutes args with
           | Some delay_minutes =>
               negb (isSome (newDate (now env) delay_minutes))
           | None => false
           end
    end
  else false.

(** The tool-call block of [m] is left by a throw: the function calls are
    missing, or there is a call at which the loop is left. *)
Definition toolsThrow (env : Env) (m : LiveServerMessage) : bool :=
  match toolCall m with
  | Some call =>
      match functionCalls call with
      | Some l => existsb (throwing env) l
      | None => true
      end
  | None => false
  end.

(** The calls before the first one at which the loop is left. *)
Fixpoint handled (env : Env) (l : list FunctionCall) : list FunctionCall :=
  match l with
  | fc :: r => if throwing env fc then [] else fc :: handled env r
  | [] => []
  end.

Definition called (l : list FunctionCall) : list (string * string) :=
  map (fun fc => (fc_id fc, fc_name fc)) l.

(** The histories handed to the UI in a trace. *)
Definition histories (t : list Effect) : list (list ChatMessage) :=
  flat_map (fun e => match e with HistoryUpdate h => [h] | _ => [] end) t.

Definition isHistory (e : Effect) : bool :=
  match e with HistoryUpdate _ => true | _ => false end.

(** What a turn adds to the history: the finalized input, lower-cased,
    and the finalized output, each if it is not empty. *)
Definition turnEntries {cm : CaseMapping} (s : State) : list ChatMessage :=
  let finalInput := toLowerCase (trim (currentInputTranscription s)) in
  let finalOutput := trim (currentOutputTranscription s) in
  (if truthy finalInput then [{| speaker := user; text := finalInput |}] else [])
  ++ (if truthy finalOutput then [{| speaker := mochi; text := finalOutput |}]
      else []).

Definition isDeepSleepCall (fc : FunctionCall) : bool :=
  String.eqb (fc_name fc) "enter_deep_sleep".

(** The deep-sleep tool is called in [m], in a call that the loop gets to. *)
Definition deepSleepCalled (env : Env) (m : LiveServerMessage) : bool :=
  existsb isDeepSleepCall (handled env (calls m)).

Definition isDeepSleep (e : Effect) : bool :=
  match e with StateChange ENTERING_DEEP_SLEEP _ => true | _ => false end.

Definition isDeepSleepAnswer (e : Effect) : bool :=
  match e with
  | SendToolResponse _ name _ => String.eqb name "enter_deep_sleep"
  | _ => false
  end.

(** An answer of the deep-sleep tool is among the answers that [t] begins
    with. *)
Fixpoint answersFirst (t : list Effect) : bool :=
  match t with
  | e :: r => isResponse e && (isDeepSleepAnswer e || answersFirst r)
  | [] => false
  end.

(** A scan of a trace: every announcement of deep sleep comes after an
    answer of the deep-sleep tool ([seen]: one has been met already), or
    is directly followed by answers with one of that tool among them. *)
Fixpoint guarded (seen : bool) (t : list Effect) : bool :=
  match t with
  | [] => true
  | e :: r =>
      if isDeepSleep e then (seen || answersFirst r) && guarded seen r
      else guarded (seen || isDeepSleepAnswer e) r
  end.

(** An answer, by id and name, of the deep-sleep tool. *)
Definition isSleepy (answer : string * string) : bool :=
  String.eqb (snd answer) "enter_deep_sleep".

(** The errors that the tool-call block can throw. *)
Definition toolErrors : list JSError :=
  [notIterable; cannotRead "query"; cannotRead "label"; invalidTime].

(** A start whose [onopen] callback does not throw. *)
Definition opensCleanly (e : Event) : bool :=
  match e with
  | Start _ (OpenFailed _ _ _ _ _ _) => false
  | _ => true
  end.

End LiveView.

(** * Theorems *)

(** ** Audio codec *)

Section CodecFacts.
Import JS Codec.

Lemma wrap16_range (n : Z) : -32768 <= wrap16 n <= 32767.
Proof.
  unfold wrap16.
  pose proof (Z.mod_pos_bound (n + 32768) 65536 eq_refl). lia.
Qed.

Lemma wrap16_id (n : Z) : -32768 <= n <= 32767 -> wrap16 n = n.
Proof.
  intros H. unfold wrap16.
  rewrite Z.mod_small by lia. lia.
Qed.

Lemma pair_induction {A} (P : list A -> Prop) :
  P [] -> (forall a, P [a]) -> (forall a b l, P l -> P (a :: b :: l)) ->
  forall l, P l.
Proof.
  intros H0 H1 H2 l.
  assert (H : P l /\ forall a, P (a :: l)).
  { induction l as [|x l [IHl IHxl]]; split; auto. }
  exact (proj1 H).
Qed.

(** The view has one element per pair of bytes, each a 16-bit value. *)
Lemma int16View_even (bytes : list byte) :
  Nat.even (List.length bytes) = true ->
  exists l, int16View bytes = Some l
            /\ List.length l = Nat.div2 (List.length bytes)
            /\ Forall (fun z => -32768 <= z <= 32767) l.
Proof.
  induction bytes as [|b|lo hi rest IH] using pair_induction; intros E.
  - exists []. repeat split. constructor.
  - discriminate E.
  - destruct (IH E) as (l & Hl & Hlen & Hall).
    exists (int16OfBytes lo hi :: l). cbn [int16View]. rewrite Hl.
    repeat split.
    + cbn [List.length Nat.div2]. now rewrite Hlen.
    + constructor; [apply wrap16_range | exact Hall].
Qed.

Lemma int16View_odd (bytes : list byte) :
  Nat.even (List.length bytes) = false -> int16View bytes = None.
Proof.
  induction bytes as [|b|lo hi rest IH] using pair_induction; intros E.
  - discriminate E.
  - reflexivity.
  - cbn [int16View]. now rewrite (IH E).
Qed.

Lemma map_nth_seq (l : list Z) (f : Z -> Q) :
  map (fun i => f (nth (i * 1 + 0)%nat l 0)) (seq 0 (List.length l)) = map f l.
Proof.
  induction l as [|a l IH]; [reflexivity|].
  cbn [List.length seq map nth]. f_equal.
  rewrite <- seq_shift, map_map. rewrite <- IH.
  apply map_ext. intros i. reflexivity.
Qed.

Lemma sample_range (z : Z) :
  -32768 <= z <= 32767 ->
  (-1 <= inject_Z z / 32768 /\ inject_Z z / 32768 < 1)%Q.
Proof.
  intros H. unfold Qdiv, Qmult, Qle, Qlt, inject_Z, Qinv. simpl. lia.
Qed.

(** Off full scale the stored PCM value is the truncated product, and the
    decoded sample is less than one step of [1/32768] away. *)
Lemma truncate_near (v : Q) :
  (-1 < inject_Z (truncate v) - v)%Q /\ (inject_Z (truncate v) - v < 1)%Q.
Proof.
  unfold truncate. destruct (Qle_bool 0 v) eqn:E.
  - pose proof (Qfloor_le v) as F1. pose proof (Qlt_floor v) as F2.
    rewrite inject_Z_plus in F2. change (inject_Z 1) with 1%Q in F2.
    revert F1 F2. generalize (inject_Z (Qfloor v)). intros f F1 F2.
    split; lra.
  - pose proof (Qle_ceiling v) as F1. pose proof (Qceiling_lt v) as F2.
    unfold Z.sub in F2. rewrite inject_Z_plus in F2.
    change (inject_Z (- (1))) with (-1)%Q in F2.
    revert F1 F2. generalize (inject_Z (Qceiling v)). intros c F1 F2.
    split; lra.
Qed.

Lemma truncate_range (v : Q) :
  (-32768 <= v)%Q -> (v < 32768)%Q -> -32768 <= truncate v <= 32767.
Proof.
  intros Hv1 Hv2. unfold truncate. destruct (Qle_bool 0 v) eqn:E.
  - apply Qle_bool_iff in E.
    assert (0 <= Qfloor v).
    { change 0 with (Qfloor 0). now apply Qfloor_resp_le. }
    assert (Qfloor v < 32768).
    { rewrite Zlt_Qlt. eapply Qle_lt_trans; [apply Qfloor_le | exact Hv2]. }
    lia.
  - assert (E' : (v < 0)%Q).
    { apply Qnot_le_lt. intros C. apply Qle_bool_iff in C. congruence. }
    assert (Qceiling v <= 0).
    { change 0 with (Qceiling 0). apply Qceiling_resp_le.
      now apply Qlt_le_weak. }
    assert (-32768 <= Qceiling v).
    { change (-32768) with (Qceiling (-32768)). now apply Qceiling_resp_le. }
    lia.
Qed.

(** Off full scale the stored PCM value is the truncated product, and the
    decoded sample is less than one step of [1/32768] away. *)
Lemma pcm_error_bound (x : Q) :
  (-1 <= x)%Q -> (x < 1)%Q ->
  (Qabs (inject_Z (ToInt16 (x * 32768)) / 32768 - x) < 1 / 32768)%Q.
Proof.
  intros Hlo Hhi.
  assert (Hrange : -32768 <= truncate (x * 32768) <= 32767).
  { apply truncate_range; lra. }
  destruct (truncate_near (x * 32768)) as [N1 N2].
  unfold ToInt16. rewrite (wrap16_id _ Hrange).
  revert N1 N2. generalize (inject_Z (truncate (x * 32768))). intros t N1 N2.
  apply Qabs_Qlt_condition. unfold Qdiv.
  change (/ 32768)%Q with (1 # 32768)%Q. split; lra.
Qed.

End CodecFacts.

Section Base64Facts.
Import JS.

Lemma code_chr (n : Z) : 0 <= n < 256 -> code (chr (Z.to_nat n)) = n.
Proof.
  intros H. unfold code, chr.
  rewrite nat_ascii_embedding by lia. lia.
Qed.

Lemma code_b64char (n : Z) :
  let k := n mod 64 in
  code (b64char n)
  = if k <? 26 then 65 + k
    else if k <? 52 then 97 + (k - 26)
    else if k <? 62 then 48 + (k - 52)
    else if k =? 62 then 43 else 47.
Proof.
  cbv zeta. unfold b64char.
  pose proof (Z.mod_pos_bound n 64 eq_refl) as B.
  repeat match goal with
         | |- context [if ?b then _ else _] => destruct b eqn:?
         end;
    try reflexivity; apply code_chr; lia.
Qed.

Lemma b64val_b64char (n : Z) : b64val (b64char n) = Some (n mod 64).
Proof.
  unfold b64val. rewrite code_b64char. cbv zeta.
  pose proof (Z.mod_pos_bound n 64 eq_refl) as B.
  destruct (n mod 64 <? 26) eqn:E1.
  { apply Z.ltb_lt in E1.
    replace ((65 <=? 65 + n mod 64) && (65 + n mod 64 <=? 90)) with true
      by (symmetry; apply andb_true_iff; split; apply Z.leb_le; lia).
    f_equal. lia. }
  apply Z.ltb_ge in E1.
  destruct (n mod 64 <? 52) eqn:E2.
  { apply Z.ltb_lt in E2.
    replace ((65 <=? 97 + (n mod 64 - 26)) && (97 + (n mod 64 - 26) <=? 90))
      with false by (symmetry; apply andb_false_iff; right; apply Z.leb_gt; lia).
    replace ((97 <=? 97 + (n mod 64 - 26)) && (97 + (n mod 64 - 26) <=? 122))
      with true by (symmetry; apply andb_true_iff; split; apply Z.leb_le; lia).
    f_equal. lia. }
  apply Z.ltb_ge in E2.
  destruct (n mod 64 <? 62) eqn:E3.
  { apply Z.ltb_lt in E3.
    replace ((65 <=? 48 + (n mod 64 - 52)) && (48 + (n mod 64 - 52) <=? 90))
      with false by (symmetry; apply andb_false_iff; left; apply Z.leb_gt; lia).
    replace ((97 <=? 48 + (n mod 64 - 52)) && (48 + (n mod 64 - 52) <=? 122))
      with false by (symmetry; apply andb_false_iff; left; apply Z.leb_gt; lia).
    replace ((48 <=? 48 + (n mod 64 - 52)) && (48 + (n mod 64 - 52) <=? 57))
      with true by (symmetry; apply andb_true_iff; split; apply Z.leb_le; lia).
    f_equal. lia. }
  apply Z.ltb_ge in E3.
  destruct (n mod 64 =? 62) eqn:E4.
  { apply Z.eqb_eq in E4. cbn. now rewrite E4. }
  apply Z.eqb_neq in E4. cbn. f_equal. lia.
Qed.

Lemma b64char_plain (n : Z) :
  asciiWhitespace (b64char n) = false /\ Ascii.eqb (b64char n) pad = false.
Proof.
  assert (C : code (b64char n) <> 9 /\ code (b64char n) <> 10
              /\ code (b64char n) <> 12 /\ code (b64char n) <> 13
              /\ code (b64char n) <> 32 /\ code (b64char n) <> 61).
  { rewrite code_b64char. cbv zeta.
    pose proof (Z.mod_pos_bound n 64 eq_refl) as B.
    repeat match goal with
           | |- context [if ?b then _ else _] => destruct b eqn:?
           end; repeat split; lia. }
  destruct C as (C1 & C2 & C3 & C4 & C5 & C6). split.
  - unfold asciiWhitespace.
    repeat (apply orb_false_iff; split); apply Z.eqb_neq; assumption.
  - apply Ascii.eqb_neq. intros E. apply C6. now rewrite E.
Qed.

Lemma ZofByte_range (b : byte) : 0 <= ZofByte b < 256.
Proof.
  unfold ZofByte. pose proof (Byte.to_N_bounded b). lia.
Qed.

Lemma byteOfZ_eq (n : Z) (b : byte) : n mod 256 = ZofByte b -> byteOfZ n = b.
Proof.
  intros H. unfold byteOfZ. rewrite H. unfold ZofByte.
  now rewrite N2Z.id, Byte.of_to_N.
Qed.

Lemma ZofByte_byteOfZ (n : Z) : ZofByte (byteOfZ n) = n mod 256.
Proof.
  pose proof (Z.mod_pos_bound n 256 eq_refl) as B.
  unfold byteOfZ, ZofByte.
  destruct (Byte.of_N (Z.to_N (n mod 256))) as [b|] eqn:E.
  - apply Byte.to_of_N in E. rewrite E. lia.
  - apply Byte.of_N_None_iff in E. lia.
Qed.

Lemma triple_induction {A} (P : list A -> Prop) :
  P [] -> (forall a, P [a]) -> (forall a b, P [a; b]) ->
  (forall a b c l, P l -> P (a :: b :: c :: l)) ->
  forall l, P l.
Proof.
  intros H0 H1 H2 H3 l.
  assert (H : P l /\ (forall a, P (a :: l)) /\ (forall a b, P (a :: b :: l))).
  { induction l as [|x l (IH0 & IH1 & IH2)]; repeat split; auto. }
  exact (proj1 H).
Qed.

(** The groups, read modulo 64, unpack to the bytes they came from. *)
Lemma unpack_groups (bs : list byte) :
  unpack (map (fun v => v mod 64) (groups bs)) = bs.
Proof.
  induction bs as [|a|a b|a b c rest IH] using triple_induction.
  - reflexivity.
  - pose proof (ZofByte_range a). cbn [groups map unpack]. f_equal.
    apply byteOfZ_eq. Z.div_mod_to_equations. lia.
  - pose proof (ZofByte_range a). pose proof (ZofByte_range b).
    cbn [groups map unpack]. f_equal; [|f_equal];
      apply byteOfZ_eq; Z.div_mod_to_equations; lia.
  - pose proof (ZofByte_range a). pose proof (ZofByte_range b).
    pose proof (ZofByte_range c).
    cbn [groups map unpack]. rewrite IH. f_equal; [|f_equal; [|f_equal]];
      apply byteOfZ_eq; Z.div_mod_to_equations; lia.
Qed.

Lemma sextets_groups (vs : list Z) :
  sextets (map b64char vs) = Some (map (fun v => v mod 64) vs).
Proof.
  induction vs as [|v vs IH]; [reflexivity|].
  cbn [map sextets]. now rewrite b64val_b64char, IH.
Qed.

Lemma padding_three (n : nat) : padding (3 + n) = padding n.
Proof.
  unfold padding. replace (3 + n)%nat with (n + 1 * 3)%nat by lia.
  now rewrite Nat.Div0.mod_add.
Qed.

(** How many groups there are, and the padding that goes with them. *)
Lemma groups_shape (bs : list byte) :
  exists k : nat,
    (List.length (groups bs) = (4 * k)%nat /\ padding (List.length bs) = [])
    \/ (List.length (groups bs) = (4 * k + 2)%nat
        /\ padding (List.length bs) = [pad; pad])
    \/ (List.length (groups bs) = (4 * k + 3)%nat
        /\ padding (List.length bs) = [pad]).
Proof.
  induction bs as [|a|a b|a b c rest [k IH]] using triple_induction.
  - exists 0%nat. left. split; reflexivity.
  - exists 0%nat. right. left. split; reflexivity.
  - exists 0%nat. right. right. split; reflexivity.
  - exists (S k). cbn [groups List.length].
    change (S (S (S (List.length rest)))) with (3 + List.length rest)%nat.
    rewrite padding_three.
    destruct IH as [[L P]|[[L P]|[L P]]]; rewrite L, P;
      [left | right; left | right; right]; split; (lia || reflexivity).
Qed.

Lemma filter_plain (vs : list Z) (p : list ascii) :
  Forall (fun c => c = pad) p ->
  filter (fun c => negb (asciiWhitespace c)) (map b64char vs ++ p)
  = map b64char vs ++ p.
Proof.
  intros Hp. rewrite filter_app. f_equal.
  - induction vs as [|v vs IH]; [reflexivity|].
    cbn [map filter]. rewrite (proj1 (b64char_plain v)). cbn. now rewrite IH.
  - induction Hp as [|c p -> _ IH]; [reflexivity|].
    cbn [filter]. change (negb (asciiWhitespace pad)) with true. cbn.
    now rewrite IH.
Qed.

Lemma stripPadding_groups (vs : list Z) (p : list ascii) (k : nat) :
  (List.length vs = (4 * k)%nat /\ p = [])
  \/ (List.length vs = (4 * k + 2)%nat /\ p = [pad; pad])
  \/ (List.length vs = (4 * k + 3)%nat /\ p = [pad]) ->
  stripPadding (map b64char vs ++ p) = map b64char vs.
Proof.
  assert (Hlast : forall l, (2 <= List.length l)%nat ->
            exists v w r, rev (map b64char l) = b64char v :: b64char w :: r
                          /\ rev (b64char w :: r) ++ [b64char v] = map b64char l).
  { intros l Hl. rewrite <- map_rev.
    assert (Hr : (2 <= List.length (rev l))%nat) by now rewrite length_rev.
    destruct (rev l) as [|v [|w r]] eqn:E; cbn in Hr; try lia.
    exists v, w, (map b64char r). split; [reflexivity|].
    change (b64char w :: map b64char r) with (map b64char (w :: r)).
    rewrite <- map_rev.
    change [b64char v] with (map b64char [v]). rewrite <- map_app.
    f_equal. rewrite <- (rev_involutive l), E. reflexivity. }
  unfold stripPadding. rewrite length_app, length_map.
  intros [[L ->]|[[L ->]|[L ->]]]; rewrite L, ?app_nil_r; cbn [List.length].
  - replace (Z.of_nat (4 * k + 0) mod 4 =? 0) with true
      by (symmetry; apply Z.eqb_eq; Z.div_mod_to_equations; lia).
    destruct k as [|k].
    + cbn. destruct vs; [reflexivity | discriminate L].
    + replace (Nat.eqb (4 * S k + 0) 0) with false
        by (symmetry; apply Nat.eqb_neq; lia).
      cbn [andb negb].
      destruct (Hlast vs ltac:(lia)) as (v & w & r & -> & _).
      now rewrite (proj2 (b64char_plain v)).
  - replace (Z.of_nat (4 * k + 2 + 2) mod 4 =? 0) with true
      by (symmetry; apply Z.eqb_eq; Z.div_mod_to_equations; lia).
    replace (Nat.eqb (4 * k + 2 + 2) 0) with false
      by (symmetry; apply Nat.eqb_neq; lia).
    cbn [andb negb]. rewrite rev_app_distr. cbn [rev app].
    change (Ascii.eqb pad pad) with true. cbv iota.
    apply rev_involutive.
  - replace (Z.of_nat (4 * k + 3 + 1) mod 4 =? 0) with true
      by (symmetry; apply Z.eqb_eq; Z.div_mod_to_equations; lia).
    replace (Nat.eqb (4 * k + 3 + 1) 0) with false
      by (symmetry; apply Nat.eqb_neq; lia).
    cbn [andb negb]. rewrite rev_app_distr. cbn [rev app].
    destruct (Hlast vs ltac:(lia)) as (v & w & r & E & Hback).
    rewrite E. change (Ascii.eqb pad pad) with true. cbv iota.
    rewrite (proj2 (b64char_plain v)). exact Hback.
Qed.

(** Decoding what [btoa] wrote gives the bytes back. *)
Lemma atob_btoa (bs : list byte) : atob (btoa bs) = Ok bs.
Proof.
  unfold atob, btoa. rewrite list_ascii_of_string_of_list_ascii.
  destruct (groups_shape bs) as [k Hk].
  assert (Hp : Forall (fun c => c = pad) (padding (List.length bs))).
  { destruct Hk as [[_ ->]|[[_ ->]|[_ ->]]]; repeat constructor. }
  rewrite (filter_plain _ _ Hp).
  rewrite (stripPadding_groups _ _ k Hk).
  rewrite length_map.
  replace (Z.of_nat (List.length (groups bs)) mod 4 =? 1) with false.
  - now rewrite sextets_groups, unpack_groups.
  - symmetry. apply Z.eqb_neq.
    destruct Hk as [[L _]|[[L _]|[L _]]]; rewrite L;
      Z.div_mod_to_equations; lia.
Qed.

End Base64Facts.

Section RoundTripFacts.
Import JS Codec.

Lemma int16OfBytes_bytesOfInt16 (n : Z) :
  -32768 <= n <= 32767 ->
  int16OfBytes (byteOfZ (n mod 65536)) (byteOfZ (n mod 65536 / 256)) = n.
Proof.
  intros H. unfold int16OfBytes, wrap16. rewrite !ZofByte_byteOfZ.
  Z.div_mod_to_equations. lia.
Qed.

Lemma int16View_bytes (l : list Z) :
  Forall (fun z => -32768 <= z <= 32767) l ->
  int16View (flat_map bytesOfInt16 l) = Some l.
Proof.
  induction 1 as [|z l Hz _ IH]; [reflexivity|].
  cbn [flat_map bytesOfInt16 app int16View].
  now rewrite IH, int16OfBytes_bytesOfInt16.
Qed.

(** Below full scale the whole path, from samples to base64 text and back to
    samples, returns, sample by sample, the truncated PCM value over
    [32768], less than [1/32768] away from the original. *)
Lemma roundTrip_below_full_scale (samples : list Q) :
  samples <> [] ->
  Forall (fun x => (-1 <= x)%Q /\ (x < 1)%Q) samples ->
  roundTrip samples 24000 1
  = Ok [map (fun x => (inject_Z (ToInt16 (x * 32768)) / 32768)%Q) samples]
  /\ Forall (fun x =>
               (Qabs (inject_Z (ToInt16 (x * 32768)) / 32768 - x) < 1 / 32768)%Q)
       samples.
Proof.
  intros Hne Hin. split.
  - unfold roundTrip, createBlob, decode, encode. cbn [data].
    rewrite atob_btoa. unfold decodeAudioData, Int16Array.
    rewrite int16View_bytes
      by (unfold toPCM; apply Forall_map, Forall_forall; intros x _;
          apply wrap16_range).
    rewrite Nat.div_1_r. unfold createBuffer.
    set (pcm := toPCM samples).
    assert (Hlen : Nat.eqb (List.length pcm) 0 = false).
    { apply Nat.eqb_neq. subst pcm. unfold toPCM. rewrite length_map.
      destruct samples; [congruence | discriminate]. }
    rewrite Hlen. cbn -[Qdiv nth Nat.mul Nat.add].
    rewrite (map_nth_seq pcm (fun z => (inject_Z z / 32768)%Q)).
    subst pcm. unfold toPCM. now rewrite map_map.
  - eapply Forall_impl; [|exact Hin]. intros x [H1 H2].
    now apply pcm_error_bound.
Qed.

End RoundTripFacts.

(** C4. The round trip of the codec is not within [1/32768] on all of
    [[-1,1]]: the full-scale sample [1.0] is multiplied to [32768], which the
    16-bit store wraps to [-32768], and it comes back as [-1.0], two whole
    units away.  (Below full scale the bound holds,
    [roundTrip_below_full_scale].) *)
Theorem createBlob_full_scale_wraps :
  Codec.roundTrip [1%Q] 24000 1 = Ok [[(-32768 # 32768)%Q]]
  /\ ((-32768 # 32768) - 1 == -2)%Q
  /\ ~ (Qabs ((-32768 # 32768) - 1) <= 1 / 32768)%Q.
Proof.
  split; [vm_compute; reflexivity|].
  split; [reflexivity|].
  intros H. vm_compute in H. apply H. reflexivity.
Qed.

(** C5 (as stated, refuted).  A byte sequence of odd length is not decoded
    to truncated or garbage samples: building the 16-bit view raises. *)
Lemma decodeAudioData_odd_length_raises :
  Codec.decodeAudioData [x00; x01; x02] 24000 1
  = Throw (mkError RangeError "byte length of Int16Array should be a multiple of 2").
Proof. reflexivity. Qed.

(** C5 (amended).  Decoding a byte sequence (mono, 24 kHz, as the session
    calls it) returns a buffer exactly when the length is even and not zero:
    one sample per pair of bytes, each in [[-1,1)].  Otherwise it raises, a
    [RangeError] from the 16-bit view for an odd length and a
    [NotSupportedError] from the buffer creation for no bytes at all. *)
Theorem decodeAudioData_even_or_raises (data : list byte) :
  if Nat.even (List.length data) && negb (Nat.eqb (List.length data) 0)
  then exists samples,
      Codec.decodeAudioData data 24000 1
      = Ok {| Codec.numberOfChannels := 1;
              Codec.length := Nat.div2 (List.length data);
              Codec.sampleRate := 24000;
              Codec.channels := [samples] |}
      /\ List.length samples = Nat.div2 (List.length data)
      /\ Forall (fun x => (-1 <= x)%Q /\ (x < 1)%Q) samples
  else exists e,
      Codec.decodeAudioData data 24000 1 = Throw e
      /\ kind e = if Nat.even (List.length data)
                  then NotSupportedError else RangeError.
Proof.
  unfold Codec.decodeAudioData, JS.Int16Array.
  destruct (Nat.even (List.length data)) eqn:E; cbn [andb].
  - destruct (int16View_even data E) as (l & Hl & Hlen & Hall).
    rewrite Hl, Nat.div_1_r.
    destruct (Nat.eqb (List.length data) 0) eqn:Z; cbn [negb].
    + apply Nat.eqb_eq in Z. rewrite Z in Hlen. cbn in Hlen.
      rewrite Hlen. cbn. eexists. split; reflexivity.
    + apply Nat.eqb_neq in Z.
      assert (Hpos : List.length l <> 0%nat).
      { rewrite Hlen. destruct data as [|a [|b r]]; cbn in *; congruence. }
      unfold Codec.createBuffer.
      replace (Nat.eqb (List.length l) 0) with false
        by (symmetry; now apply Nat.eqb_neq).
      cbn -[Qdiv nth Nat.mul Nat.add].
      exists (map (fun z => (inject_Z z / 32768)%Q) l).
      rewrite (map_nth_seq l (fun z => (inject_Z z / 32768)%Q)), Hlen.
      split; [reflexivity|]. split; [now rewrite length_map|].
      apply Forall_map. eapply Forall_impl; [|exact Hall].
      intros z Hz. now apply sample_range.
  - rewrite (int16View_odd data E). eexists. split; reflexivity.
Qed.

(** ** Alarm scheduler *)

Section AlarmFacts.
Import AlarmService.

Lemma removeAlarm_incl i l a : In a (removeAlarm i l) -> In a l.
Proof.
  induction l as [|b l IH]; cbn; [tauto|].
  destruct (id b =? i); cbn; intuition.
Qed.

Lemma removeAlarm_NoDup i l :
  NoDup (map id l) -> NoDup (map id (removeAlarm i l)).
Proof.
  induction l as [|b l IH]; cbn; intros H; [constructor|].
  inversion H as [|? ? Hn Hd]; subst.
  destruct (id b =? i); [exact Hd|].
  cbn. constructor; [|now apply IH].
  intros C. apply Hn. apply in_map_iff in C as (a & Ha & Hin).
  apply in_map_iff. exists a. split; [exact Ha|].
  eapply removeAlarm_incl; eassumption.
Qed.

Lemma removeAlarm_gone i l :
  NoDup (map id l) -> ~ In i (map id (removeAlarm i l)).
Proof.
  induction l as [|b l IH]; cbn; intros H; [tauto|].
  inversion H as [|? ? Hn Hd]; subst.
  destruct (id b =? i) eqn:E.
  - apply Z.eqb_eq in E. now rewrite <- E.
  - apply Z.eqb_neq in E. cbn. intros [C|C]; [contradiction|].
    now apply IH in C.
Qed.

Lemma removeAlarm_Forall (P : Alarm -> Prop) i l :
  Forall P l -> Forall P (removeAlarm i l).
Proof.
  intros H. apply Forall_forall. intros a Ha.
  apply removeAlarm_incl in Ha. revert a Ha. now apply Forall_forall.
Qed.

Lemma clearTimeout_NoDup h l :
  NoDup (map handle l) -> NoDup (map handle (clearTimeout h l)).
Proof.
  induction l as [|t l IH]; cbn; intros H; [constructor|].
  inversion H as [|? ? Hn Hd]; subst.
  destruct (negb (handle t =? h)); [|now apply IH].
  cbn. constructor; [|now apply IH].
  intros C. apply Hn. apply in_map_iff in C as (a & Ha & Hin).
  apply in_map_iff. exists a. split; [exact Ha|].
  unfold clearTimeout in Hin. now apply filter_In in Hin.
Qed.

Lemma clearTimeout_Forall (P : Timer -> Prop) h l :
  Forall P l -> Forall P (clearTimeout h l).
Proof.
  intros H. apply Forall_forall. intros a Ha.
  unfold clearTimeout in Ha. apply filter_In in Ha as [Ha _].
  revert a Ha. now apply Forall_forall.
Qed.

Lemma clearTimeout_gone h l t :
  In t (clearTimeout h l) -> handle t <> h.
Proof.
  unfold clearTimeout. intros H. apply filter_In in H as [_ H].
  apply negb_true_iff, Z.eqb_neq in H. exact H.
Qed.

Lemma fresh_NoDup {A} (f : A -> Z) (l : list A) (x : A) (bound : Z) :
  NoDup (map f l) -> Forall (fun a => f a < bound) l -> f x = bound ->
  NoDup (map f (l ++ [x])).
Proof.
  intros Hd Hb Hx. rewrite map_app. cbn.
  apply NoDup_app; [exact Hd | repeat constructor; cbn; tauto |].
  intros a Ha [Hin|[]]. subst a.
  apply in_map_iff in Ha as (y & Hy & Hin).
  rewrite Forall_forall in Hb. specialize (Hb y Hin). lia.
Qed.

Lemma step_wellFormed o s : wellFormed s -> wellFormed (step o s).
Proof.
  intros (Hid & Hlt & Hh & Hhlt).
  destruct o as [now time label | i | h]; cbn [step].
  - unfold setAlarm. destruct (time - now <? 0); cbn; [repeat split; assumption|].
    repeat split; cbn.
    + eapply fresh_NoDup; eauto.
    + apply Forall_app. split.
      * eapply Forall_impl; [|exact Hlt]. cbn. intros. lia.
      * repeat constructor. cbn. lia.
    + eapply fresh_NoDup; eauto.
    + apply Forall_app. split.
      * eapply Forall_impl; [|exact Hhlt]. cbn. intros. lia.
      * repeat constructor. cbn. lia.
  - unfold cancelAlarm. destruct (findAlarm i (activeAlarms s));
      [|repeat split; assumption].
    repeat split; cbn.
    + now apply removeAlarm_NoDup.
    + now apply removeAlarm_Forall.
    + now apply clearTimeout_NoDup.
    + now apply clearTimeout_Forall.
  - unfold expire. destruct (find _ (timers s)); [|repeat split; assumption].
    repeat split; cbn.
    + now apply removeAlarm_NoDup.
    + now apply removeAlarm_Forall.
    + now apply clearTimeout_NoDup.
    + now apply clearTimeout_Forall.
Qed.

Lemma run_wellFormed ops s : wellFormed s -> wellFormed (run ops s).
Proof.
  revert s. induction ops as [|o ops IH]; intros s H; [exact H|].
  cbn. apply IH. now apply step_wellFormed.
Qed.

Lemma reachable_wellFormed s : reachable s -> wellFormed s.
Proof.
  intros [ops <-]. apply run_wellFormed.
  repeat split; cbn; constructor.
Qed.

Lemma reachable_run ops s : reachable s -> reachable (run ops s).
Proof.
  intros [ops0 <-]. exists (ops0 ++ ops). unfold run. now rewrite fold_left_app.
Qed.

(** In a well-formed table a pending timer is the one found under its handle. *)
Lemma find_pending l t :
  NoDup (map handle l) -> In t l ->
  find (fun x => handle x =? handle t) l = Some t.
Proof.
  induction l as [|x l IH]; cbn; intros Hd Hin; [tauto|].
  inversion Hd as [|? ? Hn Hd']; subst.
  destruct Hin as [->|Hin].
  - now rewrite Z.eqb_refl.
  - destruct (handle x =? handle t) eqn:E; [|now apply IH].
    apply Z.eqb_eq in E. exfalso. apply Hn. rewrite E.
    now apply in_map.
Qed.

(** Expiry of a pending timer: the ring callback gets the label, the
    alarm leaves the live set, the timer is gone. *)
Lemma expire_pending s t :
  wellFormed s -> In t (timers s) ->
  snd (expire (handle t) s) = [AlarmRing (alarmLabel t); SpeakAlarm (alarmLabel t)]
  /\ ~ In (alarmId t) (map info_id (getActiveAlarms (fst (expire (handle t) s))))
  /\ ~ In t (timers (fst (expire (handle t) s))).
Proof.
  intros (Hid & _ & Hh & _) Hin. unfold expire.
  rewrite (find_pending _ _ Hh Hin). cbn.
  split; [reflexivity|]. split.
  - unfold getActiveAlarms. rewrite map_map. cbn.
    now apply removeAlarm_gone.
  - intros C. now apply clearTimeout_gone in C.
Qed.

End AlarmFacts.

(** C8.  A fire time strictly in the past registers nothing: [setAlarm]
    returns normally, without an id, the state (so the list of active
    alarms and its length) is unchanged and only a warning is logged.
    Otherwise an alarm with the next id is appended and a one-shot timer
    is pending for it; whenever that timer, still pending after any further
    operations, expires, the ring callback is called with the label, the
    alarm is no longer in the live set, and the timer is gone. *)
Theorem setAlarm_past_or_future
  (s : AlarmService.State) (now time : Z) (label : string) :
  AlarmService.reachable s ->
  (time < now ->
   AlarmService.setAlarm now time label s
   = (None, s, [AlarmService.Warn "Không thể đặt báo thức trong quá khứ."])
   /\ List.length (AlarmService.getActiveAlarms
                     (snd (fst (AlarmService.setAlarm now time label s))))
      = List.length (AlarmService.getActiveAlarms s))
  /\ (now <= time ->
      let s' := snd (fst (AlarmService.setAlarm now time label s)) in
      let t := {| AlarmService.handle := AlarmService.nextHandle s;
                  AlarmService.delay := time - now;
                  AlarmService.alarmId := AlarmService.nextAlarmId s;
                  AlarmService.alarmLabel := label |} in
      AlarmService.getActiveAlarms s'
      = AlarmService.getActiveAlarms s
          ++ [{| AlarmService.info_id := AlarmService.nextAlarmId s;
                 AlarmService.info_time := time;
                 AlarmService.info_label := label |}]
      /\ In t (AlarmService.timers s')
      /\ forall ops,
          let s2 := AlarmService.run ops s' in
          In t (AlarmService.timers s2) ->
          snd (AlarmService.expire (AlarmService.handle t) s2)
          = [AlarmService.AlarmRing label; AlarmService.SpeakAlarm label]
          /\ ~ In (AlarmService.nextAlarmId s)
                 (map AlarmService.info_id
                    (AlarmService.getActiveAlarms
                       (fst (AlarmService.expire (AlarmService.handle t) s2))))
          /\ ~ In t (AlarmService.timers
                       (fst (AlarmService.expire (AlarmService.handle t) s2)))).
Proof.
  intros Hr. split.
  - intros Hpast. unfold AlarmService.setAlarm.
    replace (time - now <? 0) with true by (symmetry; apply Z.ltb_lt; lia).
    split; reflexivity.
  - intros Hfuture.
    assert (Hstep : snd (fst (AlarmService.setAlarm now time label s))
                    = AlarmService.step (AlarmService.OpSet now time label) s)
      by reflexivity.
    assert (Hset : AlarmService.setAlarm now time label s
                   = (None,
                      {| AlarmService.activeAlarms :=
                           AlarmService.activeAlarms s
                             ++ [{| AlarmService.id := AlarmService.nextAlarmId s;
                                    AlarmService.time := time;
                                    AlarmService.label := label;
                                    AlarmService.timerId := AlarmService.nextHandle s |}];
                         AlarmService.nextAlarmId := AlarmService.nextAlarmId s + 1;
                         AlarmService.timers :=
                           AlarmService.timers s
                             ++ [{| AlarmService.handle := AlarmService.nextHandle s;
                                    AlarmService.delay := time - now;
                                    AlarmService.alarmId := AlarmService.nextAlarmId s;
                                    AlarmService.alarmLabel := label |}];
                         AlarmService.nextHandle := AlarmService.nextHandle s + 1 |},
                      [])).
    { unfold AlarmService.setAlarm.
      replace (time - now <? 0) with false by (symmetry; apply Z.ltb_ge; lia).
      reflexivity. }
    cbv zeta. split; [|split].
    + rewrite Hset. unfold AlarmService.getActiveAlarms. cbn [snd fst AlarmService.activeAlarms].
      now rewrite map_app.
    + rewrite Hset. cbn [snd fst AlarmService.timers]. apply in_or_app. right. now left.
    + intros ops Hin.
      assert (Hwf : AlarmService.wellFormed
                      (AlarmService.run ops
                         (snd (fst (AlarmService.setAlarm now time label s))))).
      { apply reachable_wellFormed. apply reachable_run. rewrite Hstep.
        destruct Hr as [ops0 <-].
        exists (ops0 ++ [AlarmService.OpSet now time label]).
        unfold AlarmService.run. now rewrite fold_left_app. }
      exact (expire_pending _ _ Hwf Hin).
Qed.

(** The scenario of the reminder: set for ten minutes ahead, then expired. *)
Lemma setAlarm_past_or_future_witness :
  AlarmService.reachable AlarmService.init
  /\ AlarmService.getActiveAlarms
       (snd (fst (AlarmService.setAlarm 1000 601000 "Gọi mẹ" AlarmService.init)))
     = [{| AlarmService.info_id := 1; AlarmService.info_time := 601000;
           AlarmService.info_label := "Gọi mẹ" |}]
  /\ AlarmService.setAlarm 601000 1000 "Gọi mẹ" AlarmService.init
     = (None, AlarmService.init,
        [AlarmService.Warn "Không thể đặt báo thức trong quá khứ."]).
Proof.
  assert (R : AlarmService.reachable AlarmService.init) by (exists []; reflexivity).
  split; [exact R|]. split.
  - destruct (setAlarm_past_or_future AlarmService.init 1000 601000 "Gọi mẹ" R)
      as [_ F].
    destruct (F ltac:(lia)) as [F1 _]. exact F1.
  - destruct (setAlarm_past_or_future AlarmService.init 601000 1000 "Gọi mẹ" R)
      as [P _].
    destruct (P ltac:(lia)) as [P1 _]. exact P1.
Defined.

(** ** Weather lookup *)

(** C9.  On a cache miss, the three-field answer is parsed into its
    temperature, condition and emoji and the cache is updated with it; the
    sentinel answer makes the lookup throw the location-not-found error to
    its caller and leaves the cache as it was.  (All that is asked of the
    case tables is that they leave [28] and [NULL] alone.) *)
Theorem getWeatherForLocation_scenarios
  (cm : JS.CaseMapping) (latitude longitude : Q) (now later : Z)
  (cache : option Weather.CacheEntry) :
  JS.toUpperCase "28" = "28" ->
  JS.toUpperCase "NULL" = "NULL" ->
  match cache with Some entry => Weather.expiry entry <= now | None => True end ->
  let sunny := {| Weather.temperature := JS.Fin 28;
                  Weather.condition := "Nắng";
                  Weather.emoji := "☀️" |} in
  Weather.getWeatherForLocation latitude longitude now later
    (fun _ _ => Weather.Text "28;Nắng;☀️") cache
  = (Ok sunny,
     Some {| Weather.data := sunny;
             Weather.expiry := later + Weather.WEATHER_CACHE_DURATION |},
     [Weather.GenerateContent latitude longitude])
  /\ Weather.getWeatherForLocation latitude longitude now later
       (fun _ _ => Weather.Text "NULL;Không thể xác định;❓") cache
     = (Throw (Weather.error Weather.notFound),
        cache,
        [Weather.GenerateContent latitude longitude;
         Weather.ConsoleError "Lỗi lấy dữ liệu thời tiết:"]).
Proof.
  intros H28 HNULL Hmiss sunny.
  assert (P1 : Weather.parse (JS.trim "28;Nắng;☀️") = Ok sunny).
  { unfold Weather.parse.
    change (JS.split ";" (JS.trim "28;Nắng;☀️")) with ["28"; "Nắng"; "☀️"].
    cbv beta iota. rewrite H28. reflexivity. }
  assert (P2 : Weather.parse (JS.trim "NULL;Không thể xác định;❓")
               = Throw (Weather.error Weather.notFound)).
  { unfold Weather.parse.
    change (JS.split ";" (JS.trim "NULL;Không thể xác định;❓"))
      with ["NULL"; "Không thể xác định"; "❓"].
    cbv beta iota. rewrite HNULL. reflexivity. }
  unfold Weather.getWeatherForLocation. rewrite P1, P2.
  change (Weather.handler (Weather.AnError (Weather.error Weather.notFound)))
    with (Weather.error Weather.notFound,
          [Weather.ConsoleError "Lỗi lấy dữ liệu thời tiết:"]).
  destruct cache as [entry|]; [|split; reflexivity].
  replace (now <? Weather.expiry entry) with false
    by (symmetry; apply Z.ltb_ge; exact Hmiss).
  split; reflexivity.
Qed.

Lemma getWeatherForLocation_scenarios_witness :
  @JS.toUpperCase JS.vietnamese "28" = "28"
  /\ @JS.toUpperCase JS.vietnamese "NULL" = "NULL"
  /\ fst (fst (@Weather.getWeatherForLocation JS.vietnamese
                 (10762 # 1000) (106660 # 1000) 1000 1200
                 (fun _ _ => Weather.Text "NULL;Không thể xác định;❓") None))
     = Throw (Weather.error Weather.notFound).
Proof.
  split; [reflexivity|]. split; [reflexivity|].
  destruct (getWeatherForLocation_scenarios JS.vietnamese
              (10762 # 1000) (106660 # 1000) 1000 1200 None
              eq_refl eq_refl I) as [_ E].
  rewrite E. reflexivity.
Defined.

(** C10.  A lookup that answers leaves a cache entry holding its answer,
    and as long as that entry has not expired every later lookup, whatever
    its coordinates and whatever the service would say, returns that answer
    without a request. *)
Theorem getWeatherForLocation_cache_ignores_coordinates
  (cm : JS.CaseMapping) (lat1 lon1 : Q) (now1 later1 : Z)
  (remote1 : Q -> Q -> Weather.Remote) (cache0 cache1 : option Weather.CacheEntry)
  (w : Weather.WeatherData) (requests : list Weather.Effect) :
  Weather.getWeatherForLocation lat1 lon1 now1 later1 remote1 cache0
  = (Ok w, cache1, requests) ->
  exists entry,
    cache1 = Some entry
    /\ Weather.data entry = w
    /\ (requests <> [] ->
        Weather.expiry entry = later1 + Weather.WEATHER_CACHE_DURATION)
    /\ forall (lat2 lon2 : Q) (now2 later2 : Z) (remote2 : Q -> Q -> Weather.Remote),
        now2 < Weather.expiry entry ->
        Weather.getWeatherForLocation lat2 lon2 now2 later2 remote2 cache1
        = (Ok w, cache1, []).
Proof.
  intros H.
  assert (Hit : forall entry lat2 lon2 now2 later2 remote2,
             now2 < Weather.expiry entry ->
             Weather.getWeatherForLocation lat2 lon2 now2 later2 remote2 (Some entry)
             = (Ok (Weather.data entry), Some entry, [])).
  { intros entry lat2 lon2 now2 later2 remote2 Hlt.
    unfold Weather.getWeatherForLocation.
    now replace (now2 <? Weather.expiry entry) with true
      by (symmetry; apply Z.ltb_lt; exact Hlt). }
  assert (Hfetch :
    match remote1 lat1 lon1 with
    | Weather.NoApiKey =>
        let '(e', log) :=
          Weather.handler (Weather.AnError (Weather.error Weather.noApiKey)) in
        (Throw e', cache0, log)
    | Weather.Text responseText =>
        match Weather.parse (JS.trim responseText) with
        | Ok result =>
            (Ok result,
             Some {| Weather.data := result;
                     Weather.expiry := later1 + Weather.WEATHER_CACHE_DURATION |},
             [Weather.GenerateContent lat1 lon1])
        | Throw e =>
            let '(e', log) := Weather.handler (Weather.AnError e) in
            (Throw e', cache0, Weather.GenerateContent lat1 lon1 :: log)
        end
    | Weather.Fails e =>
        let '(e', log) := Weather.handler (Weather.AnError e) in
        (Throw e', cache0, Weather.GenerateContent lat1 lon1 :: log)
    | Weather.FailsOther =>
        let '(e', log) := Weather.handler Weather.NotAnError in
        (Throw e', cache0, Weather.GenerateContent lat1 lon1 :: log)
    end = (Ok w, cache1, requests) ->
    exists entry,
      cache1 = Some entry /\ Weather.data entry = w
      /\ Weather.expiry entry = later1 + Weather.WEATHER_CACHE_DURATION).
  { destruct (remote1 lat1 lon1) as [|text|e|].
    - destruct (Weather.handler _). discriminate.
    - destruct (Weather.parse (JS.trim text)) as [result|e].
      + intros E. inversion E; subst. eexists. repeat split.
      + destruct (Weather.handler (Weather.AnError e)). discriminate.
    - destruct (Weather.handler (Weather.AnError e)). discriminate.
    - destruct (Weather.handler Weather.NotAnError). discriminate. }
  unfold Weather.getWeatherForLocation in H.
  destruct cache0 as [entry0|].
  - destruct (now1 <? Weather.expiry entry0) eqn:Hexp.
    + inversion H; subst. exists entry0. repeat split.
      * intros C. now contradiction C.
      * intros. now apply Hit.
    + destruct (Hfetch H) as (entry & -> & <- & Hexpiry).
      exists entry. repeat split; [now intros _|]. intros. now apply Hit.
  - destruct (Hfetch H) as (entry & -> & <- & Hexpiry).
    exists entry. repeat split; [now intros _|]. intros. now apply Hit.
Qed.

Lemma getWeatherForLocation_cache_ignores_coordinates_witness :
  let first := @Weather.getWeatherForLocation JS.vietnamese
                 (10762 # 1000) (106660 # 1000) 1000 1200
                 (fun _ _ => Weather.Text "28;Nắng;☀️") None in
  exists entry,
    snd (fst first) = Some entry
    /\ @Weather.getWeatherForLocation JS.vietnamese
         (21028 # 1000) (105854 # 1000) 900000 900500
         (fun _ _ => Weather.Text "19;Mưa rào;🌧️") (snd (fst first))
       = (Ok (Weather.data entry), snd (fst first), []).
Proof.
  cbv zeta.
  destruct (getWeatherForLocation_cache_ignores_coordinates JS.vietnamese
              (10762 # 1000) (106660 # 1000) 1000 1200
              (fun _ _ => Weather.Text "28;Nắng;☀️") None _ _ _ eq_refl)
    as (entry & E & D & X & Hit).
  exists entry. split; [exact E|].
  rewrite D.
  refine (Hit (21028 # 1000)%Q (105854 # 1000)%Q 900000 900500 _ _).
  rewrite X by discriminate. reflexivity.
Defined.

(** ** Live session *)

Arguments JS.trim : simpl never.
Arguments JS.includes : simpl never.
Arguments JS.truthy : simpl never.
Arguments Live.isGoodbye : simpl never.
Arguments Live.optTruthy : simpl never.
Arguments Codec.decode : simpl never.
Arguments Codec.decodeAudioData : simpl never.
Arguments Codec.duration : simpl never.
Arguments Qmax : simpl never.
Arguments Qplus : simpl never.
Arguments String.append : simpl never.
Arguments String.eqb : simpl never.
Arguments Live.audioData : simpl never.
Arguments Live.textOf : simpl never.
Arguments Live.newDate : simpl never.

Ltac unfold_monad :=
  unfold Live.bind, Live.ret, Live.get, Live.modify, Live.emit, Live.throw,
    Live.when, Live.lift, Live.detached, Live.stateOf, Live.traceOf,
    Live.resultOf in *.

Ltac break_if :=
  match goal with
  | |- context [if ?b then _ else _] =>
      lazymatch b with
      | context [if _ then _ else _] => fail
      | _ => destruct b eqn:?
      end
  end.

Ltac run_handler := unfold_monad; cbn; repeat (break_if; cbn).

(** The components of a run that is given as a triple. *)
Ltac project :=
  repeat match goal with
    | |- context C [Live.stateOf (?a, ?b, ?c)] =>
        let g := context C [b] in change g
    | |- context C [Live.traceOf (?a, ?b, ?c)] =>
        let g := context C [c] in change g
    | |- context C [Live.resultOf (?a, ?b, ?c)] =>
        let g := context C [a] in change g
    end.

Section Judgments.
Import Live.
Context {A B : Type}.

(** How a run of [bind] splits. *)
Lemma bind_run (m : M A) (k : A -> M B) (s : State) :
  bind m k s =
  match m s with
  | (Ok a, s1, t1) => (resultOf (k a s1), stateOf (k a s1), t1 ++ traceOf (k a s1))
  | (Throw e, s1, t1) => (Throw e, s1, t1)
  end.
Proof.
  unfold bind, resultOf, stateOf, traceOf.
  destruct (m s) as [[[a|e] s1] t1]; [|reflexivity].
  now destruct (k a s1) as [[r s2] t2].
Qed.

Lemma preserves_bind P (m : M A) (k : A -> M B) :
  preserves P m -> (forall a, preserves P (k a)) -> preserves P (bind m k).
Proof.
  intros Hm Hk s Hs. rewrite bind_run. specialize (Hm s Hs).
  unfold stateOf in *. destruct (m s) as [[[a|e] s1] t1]; cbn in *; [|exact Hm].
  now apply Hk.
Qed.

Lemma emits_bind Q (m : M A) (k : A -> M B) :
  emits Q m -> (forall a, emits Q (k a)) -> emits Q (bind m k).
Proof.
  intros Hm Hk s. rewrite bind_run. specialize (Hm s).
  unfold traceOf in *. destruct (m s) as [[[a|e] s1] t1]; cbn in *; [|exact Hm].
  apply Forall_app. split; [exact Hm | apply Hk].
Qed.

Lemma total_bind (m : M A) (k : A -> M B) :
  total m -> (forall a, total (k a)) -> total (bind m k).
Proof.
  intros Hm Hk s. rewrite bind_run. destruct (Hm s) as [a Ha].
  unfold resultOf in *. destruct (m s) as [[r s1] t1]; cbn in *. subst r.
  apply Hk.
Qed.

End Judgments.

Section JudgmentRules.
Import Live.

Lemma preserves_ret {A} P (a : A) : preserves P (ret a).
Proof. intros s H. exact H. Qed.
Lemma preserves_get P : preserves P get.
Proof. intros s H. exact H. Qed.
Lemma preserves_emit P e : preserves P (emit e).
Proof. intros s H. exact H. Qed.
Lemma preserves_throw {A} P e : preserves P (@throw A e).
Proof. intros s H. exact H. Qed.
Lemma preserves_lift {A} P (r : Result A) : preserves P (lift r).
Proof. destruct r; intros s H; exact H. Qed.
Lemma preserves_modify (P : State -> Prop) f :
  (forall s, P s -> P (f s)) -> preserves P (modify f).
Proof. intros Hf s H. now apply Hf. Qed.
Lemma preserves_when P b m : preserves P m -> preserves P (when b m).
Proof. destruct b; [auto | intros _ s H; exact H]. Qed.
Lemma preserves_forEach {A} P (f : A -> M unit) l :
  (forall a, preserves P (f a)) -> preserves P (forEach f l).
Proof.
  intros Hf. induction l as [|a l IH]; cbn [forEach].
  - apply preserves_ret.
  - apply preserves_bind; auto.
Qed.
Lemma preserves_detached P m : preserves P m -> preserves P (detached m).
Proof.
  intros Hm s H. specialize (Hm s H). unfold detached, stateOf in *.
  now destruct (m s) as [[r s1] t1].
Qed.

Lemma emits_ret {A} Q (a : A) : emits Q (ret a).
Proof. intros s. constructor. Qed.
Lemma emits_get Q : emits Q get.
Proof. intros s. constructor. Qed.
Lemma emits_modify Q f : emits Q (modify f).
Proof. intros s. constructor. Qed.
Lemma emits_throw {A} Q e : emits Q (@throw A e).
Proof. intros s. constructor. Qed.
Lemma emits_lift {A} Q (r : Result A) : emits Q (lift r).
Proof. destruct r; intros s; constructor. Qed.
Lemma emits_emit (Q : Effect -> Prop) e : Q e -> emits Q (emit e).
Proof. intros H s. repeat constructor. exact H. Qed.
Lemma emits_when Q b m : emits Q m -> emits Q (when b m).
Proof. destruct b; [auto | intros _ s; constructor]. Qed.
Lemma emits_forEach {A} Q (f : A -> M unit) l :
  (forall a, emits Q (f a)) -> emits Q (forEach f l).
Proof.
  intros Hf. induction l as [|a l IH]; cbn [forEach].
  - apply emits_ret.
  - apply emits_bind; auto.
Qed.
Lemma emits_detached Q m : emits Q m -> emits Q (detached m).
Proof.
  intros Hm s. specialize (Hm s). unfold detached, traceOf in *.
  now destruct (m s) as [[r s1] t1].
Qed.

Lemma total_ret {A} (a : A) : total (ret a).
Proof. intros s. now exists a. Qed.
Lemma total_get : total get.
Proof. intros s. now exists s. Qed.
Lemma total_modify f : total (modify f).
Proof. intros s. now exists tt. Qed.
Lemma total_emit e : total (emit e).
Proof. intros s. now exists tt. Qed.
Lemma total_when b m : total m -> total (when b m).
Proof. destruct b; [auto | intros _; apply total_ret]. Qed.
Lemma total_forEach {A} (f : A -> M unit) l :
  (forall a, total (f a)) -> total (forEach f l).
Proof.
  intros Hf. induction l as [|a l IH]; cbn [forEach].
  - apply total_ret.
  - apply total_bind; auto.
Qed.
Lemma total_detached m : total (detached m).
Proof.
  intros s. exists tt. unfold detached, resultOf.
  now destruct (m s) as [[r s1] t1].
Qed.

Lemma preserves_flush P pending : preserves P (flush pending).
Proof. apply preserves_forEach. intros e. apply preserves_emit. Qed.

Lemma preserves_throwAfter {A} P pending e :
  preserves P (@throwAfter A pending e).
Proof.
  apply preserves_bind; [apply preserves_flush | intros _; apply preserves_throw].
Qed.

Lemma emits_flush (Q : Effect -> Prop) pending :
  Forall Q pending -> emits Q (flush pending).
Proof.
  intros H. induction H as [|e l He _ IH]; cbn [flush forEach].
  - apply emits_ret.
  - apply emits_bind; [now apply emits_emit | intros _; exact IH].
Qed.

Lemma emits_throwAfter {A} (Q : Effect -> Prop) pending e :
  Forall Q pending -> emits Q (@throwAfter A pending e).
Proof.
  intros H. apply emits_bind; [now apply emits_flush | intros _; apply emits_throw].
Qed.

Lemma total_flush pending : total (flush pending).
Proof. apply total_forEach. intros e. apply total_emit. Qed.

Lemma preserves_calls P env calls :
  (forall pending fc, preserves P (handleFunctionCall env pending fc)) ->
  forall pending, preserves P (handleFunctionCalls env calls pending).
Proof.
  intros H. induction calls as [|fc l IH]; intros pending; cbn [handleFunctionCalls].
  - apply preserves_ret.
  - apply preserves_bind; [apply H | exact IH].
Qed.

(** A total handler returns [tt]. *)
Lemma total_unit (m : M unit) s : total m -> resultOf (m s) = Ok tt.
Proof. intros H. destruct (H s) as [[] E]. exact E. Qed.

End JudgmentRules.

Create HintDb live.
#[local] Hint Resolve preserves_ret preserves_get preserves_emit preserves_throw
  preserves_lift preserves_when preserves_forEach preserves_detached
  emits_ret emits_get emits_modify emits_throw emits_lift emits_when
  emits_forEach emits_detached
  total_ret total_get total_modify total_emit total_when total_forEach
  total_detached : live.

(** Walks through a handler, one bind at a time; what is left are the
    side conditions on [modify] and [emit]. *)
Ltac judge_step :=
  lazymatch goal with
  | |- forall _ _, Live.preserves _ _ => intros ? ?
  | |- forall _, Live.preserves _ _ => intro
  | |- forall _, Live.emits _ _ => intro
  | |- forall _, Live.total _ => intro
  | |- Live.preserves _ (Live.flush _) => apply preserves_flush
  | |- Live.preserves _ (Live.throwAfter _ _) => apply preserves_throwAfter
  | |- Live.preserves _ (Live.handleFunctionCalls _ _ _) => apply preserves_calls
  | |- Live.emits _ (Live.flush _) => apply emits_flush
  | |- Live.emits _ (Live.throwAfter _ _) => apply emits_throwAfter
  | |- Live.total (Live.flush _) => apply total_flush
  | |- Live.preserves _ (Live.bind _ _) => apply preserves_bind
  | |- Live.emits _ (Live.bind _ _) => apply emits_bind
  | |- Live.total (Live.bind _ _) => apply total_bind
  | |- Live.preserves _ (Live.when _ _) => apply preserves_when
  | |- Live.emits _ (Live.when _ _) => apply emits_when
  | |- Live.total (Live.when _ _) => apply total_when
  | |- Live.preserves _ (Live.forEach _ _) => apply preserves_forEach
  | |- Live.emits _ (Live.forEach _ _) => apply emits_forEach
  | |- Live.total (Live.forEach _ _) => apply total_forEach
  | |- Live.preserves _ (Live.detached _) => apply preserves_detached
  | |- Live.emits _ (Live.detached _) => apply emits_detached
  | |- Live.total (Live.detached _) => apply total_detached
  | |- Live.preserves _ (Live.modify _) => apply preserves_modify
  | |- Live.emits _ (Live.modify _) => apply emits_modify
  | |- Live.total (Live.modify _) => apply total_modify
  | |- Live.preserves _ (Live.emit _) => apply preserves_emit
  | |- Live.emits _ (Live.emit _) => apply emits_emit
  | |- Live.total (Live.emit _) => apply total_emit
  | |- Live.preserves _ (Live.ret _) => apply preserves_ret
  | |- Live.emits _ (Live.ret _) => apply emits_ret
  | |- Live.total (Live.ret _) => apply total_ret
  | |- Live.preserves _ Live.get => apply preserves_get
  | |- Live.emits _ Live.get => apply emits_get
  | |- Live.total Live.get => apply total_get
  | |- Live.preserves _ (Live.throw _) => apply preserves_throw
  | |- Live.emits _ (Live.throw _) => apply emits_throw
  | |- Live.preserves _ (Live.lift _) => apply preserves_lift
  | |- Live.emits _ (Live.lift _) => apply emits_lift
  | |- Live.preserves _ (if ?b then _ else _) => destruct b
  | |- Live.emits _ (if ?b then _ else _) => destruct b
  | |- Live.total (if ?b then _ else _) => destruct b
  | |- Live.preserves _ (match ?x with _ => _ end) => destruct x
  | |- Live.emits _ (match ?x with _ => _ end) => destruct x
  | |- Live.total (match ?x with _ => _ end) => destruct x
  | |- _ =>
      first
        [ progress unfold Live.deltas, Live.boundaries, Live.handleToolCall,
            Live.handleFunctionCall, Live.performGoogleSearch, Live.handleAudio,
            Live.handleInputTranscription, Live.handleOutputTranscription,
            Live.handleInterrupted, Live.handleTurnComplete, Live.wakeUp,
            Live.wakeUpMochi, Live.settle, Live.onended, Live.onclose,
            Live.onerror, Live.stopLiveSession, Live.release,
            Live.startLiveSession
        | progress cbv beta zeta ]
  end.

Ltac judge := repeat judge_step.

Section LiveFacts.
Import JS Live.
Context {cm : CaseMapping}.

(** *** Monad laws, pointwise *)

Lemma bind_assoc {A B C} (m : M A) (f : A -> M B) (g : B -> M C) s :
  bind (bind m f) g s = bind m (fun a => bind (f a) g) s.
Proof.
  unfold bind. destruct (m s) as [[[a|e] s1] t1]; [|reflexivity].
  destruct (f a s1) as [[[b|e] s2] t2]; [|reflexivity].
  destruct (g b s2) as [[r s3] t3]. now rewrite app_assoc.
Qed.

Lemma bind_ext {A B} (m : M A) (f g : A -> M B) s :
  (forall a s', f a s' = g a s') -> bind m f s = bind m g s.
Proof.
  intros H. unfold bind. destruct (m s) as [[[a|e] s1] t1]; [|reflexivity].
  now rewrite H.
Qed.

Lemma bind_ret_l {A B} (a : A) (k : A -> M B) s : bind (ret a) k s = k a s.
Proof. unfold bind, ret. now destruct (k a s) as [[r s1] t1]. Qed.

Lemma forEach_emit {A} (f : A -> Effect) (l : list A) s :
  forEach (fun a => emit (f a)) l s = (Ok tt, s, map f l).
Proof.
  induction l as [|a l IH]; [reflexivity|].
  cbn [forEach map]. unfold bind, emit at 1. now rewrite IH.
Qed.

(** The answers that are pending are sent, in order. *)
Lemma flush_run pending s : flush pending s = (Ok tt, s, pending).
Proof.
  unfold flush. induction pending as [|e l IH]; [reflexivity|].
  cbn [forEach]. unfold bind, emit at 1. now rewrite IH.
Qed.

Lemma throwAfter_run {A} pending e s :
  @throwAfter A pending e s = (Throw e, s, pending).
Proof.
  unfold throwAfter. rewrite bind_run, flush_run. cbn. now rewrite app_nil_r.
Qed.

(** *** The two halves of [onmessage] *)

Lemma handleInterrupted_total : total handleInterrupted.
Proof. unfold handleInterrupted. judge. Qed.

Lemma handleTurnComplete_total : total handleTurnComplete.
Proof. unfold handleTurnComplete. judge. Qed.

Lemma boundaries_total m : total (boundaries m).
Proof.
  judge.
Qed.

Lemma onmessage_phases env m s :
  onmessage env m s
  = bind (deltas env m)
      (fun pending =>
         bind get
           (fun s' => bind (if isSuspended s' then ret tt else boundaries m)
                        (fun _ => flush pending))) s.
Proof.
  unfold onmessage, deltas.
  rewrite bind_assoc. apply bind_ext. intros p1 s1.
  rewrite bind_assoc. apply bind_ext. intros p2 s2.
  rewrite bind_assoc. apply bind_ext. intros _ s3.
  rewrite bind_assoc. apply bind_ext. intros _ s4.
  now rewrite bind_ret_l.
Qed.

(** A message, run: its deltas, then, unless the session rests, the
    interruption and the end of the turn; the answers that are pending
    are sent last. *)
Lemma onmessage_run env m s :
  onmessage env m s
  = match deltas env m s with
    | (Ok pending, s4, t4) =>
        if isSuspended s4 then (Ok tt, s4, t4 ++ pending)
        else (Ok tt, stateOf (boundaries m s4),
              t4 ++ traceOf (boundaries m s4) ++ pending)
    | (Throw e, s4, t4) => (Throw e, s4, t4)
    end.
Proof.
  rewrite onmessage_phases, bind_run.
  destruct (deltas env m s) as [[[pending|e] s4] t4]; [|reflexivity].
  assert (E : bind get
                (fun s' => bind (if isSuspended s' then ret tt else boundaries m)
                             (fun _ => flush pending)) s4
              = if isSuspended s4 then (Ok tt, s4, pending)
                else (Ok tt, stateOf (boundaries m s4),
                      traceOf (boundaries m s4) ++ pending)).
  { rewrite bind_run. unfold get at 1. cbv beta iota. cbn [app].
    destruct (isSuspended s4).
    - rewrite bind_ret_l, flush_run. reflexivity.
    - rewrite bind_run.
      pose proof (total_unit _ s4 (boundaries_total m)) as T.
      unfold resultOf, stateOf, traceOf in *.
      destruct (boundaries m s4) as [[r s5] t5]. cbn [fst snd] in *. subst r.
      cbv beta iota. rewrite flush_run. reflexivity. }
  rewrite E. now destruct (isSuspended s4).
Qed.

Lemma beforeTurnComplete_run env m s :
  beforeTurnComplete env m s
  = match deltas env m s with
    | (Ok pending, s4, t4) =>
        if isSuspended s4 then (Ok (false, pending), s4, t4)
        else (Ok (true, pending),
              stateOf (when (interrupted m) handleInterrupted s4),
              t4 ++ traceOf (when (interrupted m) handleInterrupted s4))
    | (Throw e, s4, t4) => (Throw e, s4, t4)
    end.
Proof.
  assert (E : beforeTurnComplete env m s
              = bind (deltas env m)
                  (fun pending => bind get
                     (fun s' => if isSuspended s' then ret (false, pending)
                                else bind (when (interrupted m) handleInterrupted)
                                       (fun _ => ret (true, pending)))) s).
  { unfold beforeTurnComplete, deltas.
    rewrite bind_assoc. apply bind_ext. intros p1 s1.
    rewrite bind_assoc. apply bind_ext. intros p2 s2.
    rewrite bind_assoc. apply bind_ext. intros _ s3.
    rewrite bind_assoc. apply bind_ext. intros _ s4.
    now rewrite bind_ret_l. }
  rewrite E, bind_run.
  destruct (deltas env m s) as [[[pending|e] s4] t4]; [|reflexivity].
  rewrite bind_run. cbn.
  destruct (isSuspended s4); cbn; [now rewrite app_nil_r|].
  rewrite bind_run.
  pose proof (total_unit (when (interrupted m) handleInterrupted) s4
                (total_when _ _ handleInterrupted_total)) as T.
  unfold resultOf, stateOf, traceOf in *.
  destruct (when (interrupted m) handleInterrupted s4) as [[r s5] t5].
  cbn in *. subst r. cbn. now rewrite app_nil_r.
Qed.

Lemma onmessage_split env m s :
  onmessage env m s
  = bind (beforeTurnComplete env m)
      (fun before =>
         bind (when (fst before && turnComplete m) handleTurnComplete)
           (fun _ => flush (snd before))) s.
Proof.
  rewrite onmessage_run, bind_run, beforeTurnComplete_run.
  destruct (deltas env m s) as [[[pending|e] s4] t4]; [|reflexivity].
  destruct (isSuspended s4).
  - cbn [fst snd andb when]. rewrite bind_ret_l, flush_run. reflexivity.
  - unfold boundaries. rewrite bind_run.
    pose proof (total_unit (when (interrupted m) handleInterrupted) s4
                  (total_when _ _ handleInterrupted_total)) as T.
    unfold resultOf, stateOf, traceOf in *.
    destruct (when (interrupted m) handleInterrupted s4) as [[r s5] t5].
    cbn [fst snd andb] in *. subst r. cbv beta iota. cbn [fst snd].
    rewrite bind_run.
    pose proof (total_unit (when (turnComplete m) handleTurnComplete) s5
                  (total_when _ _ handleTurnComplete_total)) as T.
    unfold resultOf, stateOf, traceOf in *.
    destruct (when (turnComplete m) handleTurnComplete s5) as [[r s6] t6].
    cbn [fst snd] in *. subst r. cbv beta iota. rewrite flush_run.
    cbn [fst snd]. now rewrite <- !app_assoc.
Qed.

Lemma beforeTurnComplete_awake env m s pending s1 t1 :
  beforeTurnComplete env m s = (Ok (true, pending), s1, t1) ->
  isSuspended s1 = false.
Proof.
  rewrite beforeTurnComplete_run.
  destruct (deltas env m s) as [[[p|e] s4] t4]; [|discriminate].
  destruct (isSuspended s4) eqn:E; [discriminate|].
  intros H. inversion H; subst. clear H.
  destruct (interrupted m); cbn; [|exact E].
  revert E. generalize s4.
  change (preserves (fun s => isSuspended s = false) handleInterrupted).
  unfold handleInterrupted. judge. all: intros [] H; exact H.
Qed.

Lemma beforeTurnComplete_asleep env m s pending s1 t1 :
  beforeTurnComplete env m s = (Ok (false, pending), s1, t1) ->
  isSuspended s1 = true.
Proof.
  rewrite beforeTurnComplete_run.
  destruct (deltas env m s) as [[[p|e] s4] t4]; [|discriminate].
  destruct (isSuspended s4) eqn:E; [|discriminate].
  intros H. now inversion H; subst.
Qed.

Lemma settle_run s :
  settle s
  = (Ok tt, s,
     if isSome (session s) && negb (isSuspended s)
     then [TranscriptionUpdate None; StateChange LISTENING None] else []).
Proof. unfold settle. run_handler; reflexivity. Qed.

(** *** The answers that are pending *)

Lemma tools_app t1 t2 : tools t1 -> tools t2 -> tools (t1 ++ t2).
Proof. intros H1 H2. apply Forall_app. now split. Qed.

Lemma handleFunctionCall_tools env pending fc s :
  tools pending ->
  tools (traceOf (handleFunctionCall env pending fc s))
  /\ tools (pendingOf (handleFunctionCall env pending fc s)).
Proof.
  intros Hp. unfold handleFunctionCall, performGoogleSearch, pendingOf.
  cbv zeta.
  repeat match goal with
    | |- context [if ?b then _ else _] => destruct b
    | |- context [match fc_args fc with _ => _ end] => destruct (fc_args fc)
    | |- context [match arg_delay_minutes ?a with _ => _ end] =>
        destruct (arg_delay_minutes a)
    | |- context [match format ?e ?t with _ => _ end] => destruct (format e t)
    end;
    rewrite ?throwAfter_run, ?bind_run; unfold_monad; cbn [fst snd app];
    rewrite ?flush_run, ?throwAfter_run; cbn [fst snd app];
    split; repeat first [ apply tools_app | exact Hp | constructor ];
    try reflexivity.
Qed.

Lemma handleFunctionCalls_tools env calls :
  forall pending s,
    tools pending ->
    tools (traceOf (handleFunctionCalls env calls pending s))
    /\ tools (pendingOf (handleFunctionCalls env calls pending s)).
Proof.
  induction calls as [|fc l IH]; intros pending s Hp; cbn [handleFunctionCalls].
  - split; [constructor | exact Hp].
  - rewrite bind_run.
    destruct (handleFunctionCall_tools env pending fc s Hp) as [T P].
    unfold pendingOf, resultOf, traceOf in T, P.
    destruct (handleFunctionCall env pending fc s) as [[[p|e] s1] t1];
      cbn [fst snd] in T, P.
    + destruct (IH p s1 P) as [T2 P2]. split.
      * unfold traceOf at 1. cbn [snd]. now apply tools_app.
      * exact P2.
    + split; [exact T | constructor].
Qed.

Lemma handleToolCall_tools env m s :
  tools (traceOf (handleToolCall env m s))
  /\ tools (pendingOf (handleToolCall env m s)).
Proof.
  unfold handleToolCall.
  destruct (toolCall m) as [call|]; [|split; constructor].
  destruct (functionCalls call) as [calls|]; [|split; constructor].
  apply handleFunctionCalls_tools. constructor.
Qed.

(** The audio block, run: thrown out of at the read of the parts, skipped,
    thrown out of while decoding, or one more segment scheduled.  Where it
    gives way or is left by a throw, the answers that are pending are
    sent. *)
Lemma handleAudio_run env m pending s :
  let speaking := if isSpeaking s then s else set_isSpeaking true s in
  let announced :=
    if isSpeaking s then []
    else [TranscriptionUpdate None; StateChange SPEAKING None] in
  let start := Qmax (nextStartTime s) (currentTime env) in
  handleAudio env m pending s
  = match audioData m with
    | Throw e => (Throw e, s, pending)
    | Ok data =>
        if optTruthy data && isSome (outputAudioContext s)
           && negb (isSuspended s)
        then
          match Codec.decode (orEmpty data) with
          | Throw e => (Throw e, speaking, announced ++ pending)
          | Ok bytes =>
              match Codec.decodeAudioData bytes 24000 1 with
              | Throw e => (Throw e, speaking, announced ++ pending)
              | Ok audioBuffer =>
                  (Ok [],
                   set_audioSources
                     (audioSources s
                        ++ [{| node := nodeCounter s; startTime := start;
                               duration := Codec.duration audioBuffer |}])
                     (set_nextStartTime (start + Codec.duration audioBuffer)%Q
                        (set_nodeCounter (S (nodeCounter s)) speaking)),
                   announced ++ pending ++ [SourceStart (nodeCounter s) start])
              end
          end
        else (Ok pending, s, [])
    end.
Proof.
  cbv zeta. unfold handleAudio.
  destruct (audioData m) as [data|e]; [|apply throwAfter_run].
  rewrite bind_run. unfold get at 1. cbv beta iota.
  destruct (optTruthy data && isSome (outputAudioContext s)
            && negb (isSuspended s)); [|reflexivity].
  destruct s as [? ? ? ? ? sp ? ? ? ? ? ? ? ?].
  destruct sp;
    (destruct (Codec.decode (orEmpty data)) as [bytes|e];
     [ destruct (Codec.decodeAudioData bytes 24000 1) as [buffer|e'];
       unfold_monad; cbn; rewrite flush_run; cbn;
       rewrite ?app_nil_r; reflexivity
     | unfold_monad; cbn; rewrite throwAfter_run; cbn; reflexivity ]).
Qed.

Lemma handleInputTranscription_total m : total (handleInputTranscription m).
Proof. judge. Qed.

Lemma handleOutputTranscription_total m : total (handleOutputTranscription m).
Proof. judge. Qed.

(** The two transcription deltas, which hand on the answers that are
    pending. *)
Lemma transcriptions_run m (pending : list Effect) s :
  bind (handleInputTranscription m)
    (fun _ => bind (handleOutputTranscription m) (fun _ => ret pending)) s
  = (Ok pending,
     stateOf (handleOutputTranscription m
                (stateOf (handleInputTranscription m s))),
     traceOf (handleInputTranscription m s)
       ++ traceOf (handleOutputTranscription m
                     (stateOf (handleInputTranscription m s)))).
Proof.
  rewrite bind_run.
  pose proof (total_unit _ s (handleInputTranscription_total m)) as T1.
  unfold resultOf, stateOf, traceOf in *.
  destruct (handleInputTranscription m s) as [[r1 s1] t1].
  cbn [fst snd] in *. subst r1. rewrite bind_run.
  pose proof (total_unit _ s1 (handleOutputTranscription_total m)) as T2.
  unfold resultOf, stateOf, traceOf in *.
  destruct (handleOutputTranscription m s1) as [[r2 s2] t2].
  cbn [fst snd] in *. subst r2. unfold ret. cbn [fst snd].
  now rewrite app_nil_r.
Qed.

(** The deltas of a message, block by block. *)
Lemma deltas_run env m s :
  deltas env m s
  = match handleToolCall env m s with
    | (Ok pending, s1, t1) =>
        match handleAudio env m pending s1 with
        | (Ok pending2, s2, t2) =>
            (Ok pending2,
             stateOf (handleOutputTranscription m
                        (stateOf (handleInputTranscription m s2))),
             t1 ++ t2 ++ traceOf (handleInputTranscription m s2)
                ++ traceOf (handleOutputTranscription m
                              (stateOf (handleInputTranscription m s2))))
        | (Throw e, s2, t2) => (Throw e, s2, t1 ++ t2)
        end
    | (Throw e, s1, t1) => (Throw e, s1, t1)
    end.
Proof.
  unfold deltas. rewrite bind_run.
  destruct (handleToolCall env m s) as [[[pending|e] s1] t1]; [|reflexivity].
  rewrite bind_run.
  destruct (handleAudio env m pending s1) as [[[pending2|e] s2] t2];
    [|reflexivity].
  rewrite transcriptions_run. project. reflexivity.
Qed.

(** The calls that the deltas of a message can make, and the answers
    they leave pending. *)
Lemma deltas_emits (Q : Effect -> Prop) env m :
  (forall e, isToolEffect e = true -> Q e) ->
  Q (TranscriptionUpdate None) ->
  Q (StateChange SPEAKING None) ->
  (forall n t, Q (SourceStart n t)) ->
  (forall c, Q (TranscriptionUpdate (Some c))) ->
  Q (StateChange LISTENING (Some "Mochi nghe đây!")) ->
  forall s,
    Forall Q (traceOf (deltas env m s)) /\ tools (pendingOf (deltas env m s)).
Proof.
  intros Qtool Qclear Qspeak Qstart Qpub Qwake s.
  assert (Qtools : forall t, tools t -> Forall Q t)
    by (intros t; apply Forall_impl; exact Qtool).
  assert (Hrest : forall p : list Effect,
             emits Q (bind (handleInputTranscription m)
                        (fun _ => bind (handleOutputTranscription m)
                                    (fun _ => ret p))))
    by (intros p; judge; auto).
  assert (Rrest : forall (p : list Effect) s0,
             resultOf (bind (handleInputTranscription m)
                         (fun _ => bind (handleOutputTranscription m)
                                     (fun _ => ret p)) s0) = Ok p).
  { intros p s0.
    assert (T : total (bind (handleInputTranscription m)
                         (fun _ => handleOutputTranscription m)))
      by judge.
    pose proof (total_unit _ s0 T) as E. revert E.
    rewrite !bind_run. unfold resultOf.
    destruct (handleInputTranscription m s0) as [[[[]|e] s1] t1]; cbn [fst snd];
      [|discriminate].
    rewrite bind_run.
    destruct (handleOutputTranscription m s1) as [[[[]|e] s2] t2]; cbn [fst snd];
      [reflexivity | discriminate]. }
  unfold deltas. rewrite bind_run.
  destruct (handleToolCall_tools env m s) as [T1 P1].
  unfold pendingOf, resultOf, traceOf in T1, P1.
  destruct (handleToolCall env m s) as [[[p1|e] s1] t1]; cbn [fst snd] in T1, P1.
  2:{ split; [now apply Qtools | constructor]. }
  project. rewrite bind_run, handleAudio_run. cbv zeta.
  assert (Hann : Forall Q (if isSpeaking s1 then []
                           else [TranscriptionUpdate None;
                                 StateChange SPEAKING None]))
    by (destruct (isSpeaking s1); repeat constructor; assumption).
  destruct (audioData m) as [data|e].
  2:{ split; [apply Forall_app; split; now apply Qtools | constructor]. }
  destruct (_ && _ && _)%bool.
  - destruct (Codec.decode _) as [bytes|e].
    2:{ split; [|constructor].
        apply Forall_app; split; [now apply Qtools|].
        apply Forall_app; split; [exact Hann | now apply Qtools]. }
    destruct (Codec.decodeAudioData bytes 24000 1) as [buffer|e].
    2:{ split; [|constructor].
        apply Forall_app; split; [now apply Qtools|].
        apply Forall_app; split; [exact Hann | now apply Qtools]. }
    project. unfold pendingOf. rewrite Rrest. split; [|constructor].
    apply Forall_app; split; [now apply Qtools|].
    apply Forall_app; split; [|apply Hrest].
    apply Forall_app; split; [exact Hann|].
    apply Forall_app; split; [now apply Qtools | repeat constructor; apply Qstart].
  - project. unfold pendingOf. rewrite Rrest. split; [|exact P1].
    apply Forall_app; split; [now apply Qtools | apply Hrest].
Qed.

Lemma deltas_pending env m s : tools (pendingOf (deltas env m s)).
Proof.
  exact (proj2 (deltas_emits (fun _ => True) env m (fun _ _ => I) I I
                  (fun _ _ => I) (fun _ => I) I s)).
Qed.

(** *** What the deltas of a message leave alone *)

Lemma deltas_awake env m :
  preserves (fun s => isSuspended s = false) (deltas env m).
Proof. judge. all: intros [] H; cbn in *; auto. Qed.

Lemma deltas_session env m h :
  preserves (fun s => session s = h) (deltas env m).
Proof. judge. all: intros [] H; exact H. Qed.

Lemma deltas_tracked env m x :
  preserves (fun s => In x (audioSources s)) (deltas env m).
Proof.
  judge. all: intros [] H; cbn in *; try exact H.
  apply in_or_app. now left.
Qed.

Lemma tools_not_listening e : isToolEffect e = true -> isListening e = false.
Proof. destruct e as [[] []| | | | | | | |]; (discriminate || reflexivity). Qed.

Lemma tools_not_published e : isToolEffect e = true -> isPublish e = false.
Proof. destruct e as [| |[]| | | | | |]; (discriminate || reflexivity). Qed.

Lemma deltas_not_listening env m :
  emits (fun e => isListening e = false) (deltas env m).
Proof.
  intros s. apply deltas_emits; try reflexivity. apply tools_not_listening.
Qed.

Lemma handleInterrupted_run s :
  handleInterrupted s
  = (Ok tt,
     set_currentOutputTranscription EmptyString
       (set_currentInputTranscription EmptyString
          (set_isSpeaking false
             (set_nextStartTime 0%Q (set_audioSources [] s)))),
     map (fun source => SourceStop (node source)) (audioSources s)
       ++ TranscriptionUpdate None
       :: (if isSome (session s) then [StateChange LISTENING None] else [])).
Proof.
  unfold handleInterrupted. rewrite bind_run. unfold get at 1.
  cbv beta iota. rewrite bind_run, forEach_emit.
  destruct s as [session]. cbn. destruct session; reflexivity.
Qed.

Lemma turn_cleared b :
  preserves (fun s => audioSources s = []
                      /\ currentInputTranscription s = EmptyString
                      /\ currentOutputTranscription s = EmptyString
                      /\ nextStartTime s = 0%Q)
    (when b handleTurnComplete).
Proof. judge. all: intros [] H; cbn in *; intuition. Qed.

Lemma turn_calm b :
  emits (fun e => isPublish e = false /\ isListening e = false)
    (when b handleTurnComplete).
Proof. judge. all: split; reflexivity. Qed.

(** *** Invariants, handler by handler *)

Lemma runEvents_preserves (P : State -> Prop) :
  (forall e, preserves P (handle e)) ->
  forall es s, P s -> P (fst (runEvents es s)).
Proof.
  intros Hstep es. induction es as [|e es IH]; intros s Hs; [exact Hs|].
  cbn [runEvents]. pose proof (Hstep e s Hs) as H1.
  unfold stateOf in H1. destruct (handle e s) as [[r1 s1] t1]. cbn in H1.
  specialize (IH s1 H1). destruct (runEvents es s1) as [s2 t2]. exact IH.
Qed.

Lemma reachable_preserves (P : State -> Prop) :
  P init -> (forall e, preserves P (handle e)) ->
  forall s, reachable s -> P s.
Proof. intros H0 Hstep s [es <-]. now apply runEvents_preserves. Qed.

Lemma onmessage_preserves (P : State -> Prop) env m :
  preserves P (handleToolCall env m) ->
  (forall pending, preserves P (handleAudio env m pending)) ->
  preserves P (handleInputTranscription m) ->
  preserves P (handleOutputTranscription m) ->
  preserves P handleInterrupted ->
  preserves P handleTurnComplete ->
  preserves P (onmessage env m).
Proof.
  intros H1 H2 H3 H4 H5 H6. unfold onmessage.
  apply preserves_bind; [exact H1 | intros p1].
  apply preserves_bind; [apply H2 | intros p2].
  apply preserves_bind; [exact H3 | intros _].
  apply preserves_bind; [exact H4 | intros _].
  apply preserves_bind; [apply preserves_get | intros s'].
  apply preserves_bind; [|intros _; apply preserves_flush].
  destruct (isSuspended s'); [apply preserves_ret|].
  apply preserves_bind; intros; apply preserves_when; assumption.
Qed.

(** The turn-complete block, run on a session that is awake. *)
Lemma handleTurnComplete_outcomes s1 :
  isSuspended s1 = false ->
  let finalInput := toLowerCase (trim (currentInputTranscription s1)) in
  let finalOutput := trim (currentOutputTranscription s1) in
  let history :=
    conversationHistory s1
      ++ (if truthy finalInput
          then [{| speaker := user; text := finalInput |}] else [])
      ++ (if truthy finalOutput
          then [{| speaker := mochi; text := finalOutput |}] else []) in
  let published :=
    if truthy finalInput || truthy finalOutput
    then [HistoryUpdate history] else [] in
  exists s2 t2,
    handleTurnComplete s1 = (Ok tt, s2, published ++ t2)
    /\ conversationHistory s2 = history
    /\ currentInputTranscription s2 = EmptyString
    /\ currentOutputTranscription s2 = EmptyString
    /\ isSpeaking s2 = false
    /\ deepSleepRequested s2 = false
    /\ ((deepSleepRequested s1 = true
         /\ t2 = [StateChange ENTERING_DEEP_SLEEP None]
         /\ isSuspended s2 = false)
        \/ (deepSleepRequested s1 = false
            /\ isGoodbye finalInput = true
            /\ t2 = [StateChange SLEEPING (Some sleepStatus);
                     TranscriptionUpdate None]
            /\ isSuspended s2 = true)
        \/ (deepSleepRequested s1 = false
            /\ isGoodbye finalInput = false
            /\ t2 = (if truthy finalOutput
                     then [StateChange IDLE None] else [])
                    ++ [SetTimeout settleDelay]
            /\ isSuspended s2 = false)).
Proof.
  intros Hawake. cbv zeta. unfold handleTurnComplete.
  destruct s1; cbn in Hawake; subst.
  run_handler.
  all: rewrite <- ?app_assoc; cbn.
  all: eexists; eexists; split; [reflexivity|]; cbn;
    rewrite <- ?app_assoc, ?app_nil_r; cbn.
  all: repeat (split; [reflexivity|]).
  all: first [ left; repeat split; reflexivity
             | right; left; repeat split; reflexivity
             | right; right; repeat split; reflexivity ].
Qed.

End LiveFacts.

(** C1 (as stated, refuted).  A turn-complete event that arrives while the
    session rests is not acted on at all, even when the deep-sleep tool was
    called in the same message: the flag stays set, no state is announced. *)
Lemma turnComplete_ignored_while_suspended :
  let s := fst (@Live.runEvents JS.vietnamese
                  [Live.Start Examples.noFail (Live.Started 1%nat 2%nat 3%nat 4%nat 5%nat);
                   Live.Message Examples.env0 (Examples.heard "tạm biệt nhé");
                   Live.Message Examples.env0 Examples.turnCompleted]
                  Live.init) in
  Live.isSuspended s = true
  /\ Live.turnComplete Examples.deepSleepThenTurnComplete = true
  /\ @Live.onmessage JS.vietnamese Examples.env0
       Examples.deepSleepThenTurnComplete s
     = (Ok tt, Live.set_deepSleepRequested true s,
        [Live.SendToolResponse "call-1" "enter_deep_sleep"
           "Đã hiểu, đang vào chế độ ngủ sâu."]).
Proof. vm_compute. repeat split. Qed.

(** C1 (amended).  A turn-complete event that the handler reaches, the
    suspend flag being false once the deltas of the message are in, ends the
    turn (history extended and published, both accumulators and the speaking
    flag cleared) and then does exactly one of three things, in this order of
    priority: the deep-sleep flag is set, so it is reset and
    ENTERING_DEEP_SLEEP is announced; or the finalized input has a farewell,
    so the suspend flag is set, SLEEPING is announced with the wake
    instruction and the displayed transcription is cleared; or else IDLE is
    announced if the assistant said something and the settle timer is armed,
    whose continuation clears the transcription and announces LISTENING
    when the session is open and not suspended.  An event met while suspended
    is skipped. *)
Theorem turnComplete_outcomes
  (cm : JS.CaseMapping) (env : Live.Env) (m : Live.LiveServerMessage)
  (s s1 : Live.State) (t1 pending : list Live.Effect) (continue : bool) :
  Live.turnComplete m = true ->
  Live.beforeTurnComplete env m s = (Ok (continue, pending), s1, t1) ->
  if continue then
    let finalInput := JS.toLowerCase (JS.trim (Live.currentInputTranscription s1)) in
    let finalOutput := JS.trim (Live.currentOutputTranscription s1) in
    let history :=
      Live.conversationHistory s1
        ++ (if JS.truthy finalInput
            then [{| Live.speaker := Live.user; Live.text := finalInput |}] else [])
        ++ (if JS.truthy finalOutput
            then [{| Live.speaker := Live.mochi; Live.text := finalOutput |}] else []) in
    let published :=
      if JS.truthy finalInput || JS.truthy finalOutput
      then [Live.HistoryUpdate history] else [] in
    exists s2 t2,
      Live.onmessage env m s = (Ok tt, s2, t1 ++ published ++ t2 ++ pending)
      /\ Live.conversationHistory s2 = history
      /\ Live.currentInputTranscription s2 = EmptyString
      /\ Live.currentOutputTranscription s2 = EmptyString
      /\ Live.isSpeaking s2 = false
      /\ Live.deepSleepRequested s2 = false
      /\ ((Live.deepSleepRequested s1 = true
           /\ t2 = [Live.StateChange Live.ENTERING_DEEP_SLEEP None]
           /\ Live.isSuspended s2 = false)
          \/ (Live.deepSleepRequested s1 = false
              /\ Live.isGoodbye finalInput = true
              /\ t2 = [Live.StateChange Live.SLEEPING (Some Live.sleepStatus);
                       Live.TranscriptionUpdate None]
              /\ Live.isSuspended s2 = true)
          \/ (Live.deepSleepRequested s1 = false
              /\ Live.isGoodbye finalInput = false
              /\ t2 = (if JS.truthy finalOutput
                       then [Live.StateChange Live.IDLE None] else [])
                      ++ [Live.SetTimeout Live.settleDelay]
              /\ Live.isSuspended s2 = false
              /\ forall s3,
                  Live.settle s3
                  = (Ok tt, s3,
                     if Live.isSome (Live.session s3) && negb (Live.isSuspended s3)
                     then [Live.TranscriptionUpdate None;
                           Live.StateChange Live.LISTENING None]
                     else [])))
  else
    Live.isSuspended s1 = true
    /\ Live.onmessage env m s = (Ok tt, s1, t1 ++ pending).
Proof.
  intros Htc Hbefore. rewrite onmessage_split, bind_run, Hbefore.
  cbn [fst snd]. rewrite Htc.
  destruct continue; cbn [andb Live.when].
  - pose proof (beforeTurnComplete_awake _ _ _ _ _ _ Hbefore) as Hawake.
    destruct (handleTurnComplete_outcomes s1 Hawake)
      as (s2 & t2 & E & H1 & H2 & H3 & H4 & H5 & Hcases).
    cbv zeta in *. exists s2, t2. split.
    + rewrite bind_run, E. cbv beta iota. rewrite flush_run. project.
      now rewrite <- !app_assoc.
    + repeat (split; [assumption|]).
      destruct Hcases as [D|[G|(N1 & N2 & N3 & N4)]];
        [left; exact D | right; left; exact G | right; right].
      repeat (split; [assumption|]). intros s3. apply settle_run.
  - split; [now apply beforeTurnComplete_asleep in Hbefore|].
    rewrite bind_ret_l, flush_run. project. reflexivity.
Qed.

(** C2 (as stated, refuted).  An interrupted event that arrives while the
    session rests changes nothing: the segment that was playing stays
    tracked and is not stopped, and the input accumulator keeps its text. *)
Lemma interrupted_ignored_while_suspended :
  let s := fst (@Live.runEvents JS.vietnamese
                  [Live.Start Examples.noFail (Live.Started 1%nat 2%nat 3%nat 4%nat 5%nat);
                   Live.Message Examples.env0 (Examples.audio "AAAAAAAA");
                   Live.Message Examples.env0 (Examples.heard "tạm biệt");
                   Live.Message Examples.env0 Examples.turnCompleted;
                   Live.Message Examples.env0 (Examples.heard "abc")]
                  Live.init) in
  Live.interrupted Examples.interruption = true
  /\ List.length (Live.audioSources s) = 1%nat
  /\ Live.currentInputTranscription s = "abc"
  /\ @Live.onmessage JS.vietnamese Examples.env0 Examples.interruption s
     = (Ok tt, s, []).
Proof. vm_compute. repeat split. Qed.

(** C2 (amended).  When an interrupted event comes while the suspend flag
    is false, and the handler gets to it (the audio of the same message, if
    any, decodes), then every tracked segment is stopped and the tracked set
    is empty, the cursor is back at zero, both accumulators are empty, the
    displayed transcription is cleared and nothing is published after that,
    and LISTENING is announced exactly when the session is open. *)
Theorem interrupted_clears
  (cm : JS.CaseMapping) (env : Live.Env) (m : Live.LiveServerMessage)
  (s : Live.State) :
  Live.interrupted m = true ->
  Live.isSuspended s = false ->
  Live.resultOf (Live.onmessage env m s) = Ok tt ->
  let s' := Live.stateOf (Live.onmessage env m s) in
  let t := Live.traceOf (Live.onmessage env m s) in
  Live.audioSources s' = []
  /\ Live.nextStartTime s' = 0%Q
  /\ Live.currentInputTranscription s' = EmptyString
  /\ Live.currentOutputTranscription s' = EmptyString
  /\ (forall x, In x (Live.audioSources s) -> In (Live.SourceStop (Live.node x)) t)
  /\ (exists t1 t2, t = t1 ++ Live.TranscriptionUpdate None :: t2 /\ Live.quiet t2)
  /\ (In (Live.StateChange Live.LISTENING None) t <-> Live.session s <> None).
Proof.
  intros Hint Hawake Hok s' t. subst s' t. revert Hok.
  rewrite onmessage_run.
  pose proof (deltas_awake env m s Hawake) as Hawake4.
  pose proof (deltas_session env m (Live.session s) s eq_refl) as Hsess4.
  pose proof (fun x => deltas_tracked env m x s) as Htracked4.
  pose proof (deltas_not_listening env m s) as Hquiet4.
  pose proof (deltas_pending env m s) as Hpending.
  unfold Live.pendingOf, Live.stateOf, Live.traceOf, Live.resultOf in *.
  destruct (Live.deltas env m s) as [[[pending|e] s4] t4]; cbn [fst snd] in *;
    [|discriminate].
  rewrite Hawake4. unfold Live.boundaries. rewrite Hint. cbn [Live.when].
  rewrite bind_run, handleInterrupted_run.
  set (s5 := Live.set_currentOutputTranscription _ _).
  assert (Hclear : Live.audioSources s5 = []
                   /\ Live.currentInputTranscription s5 = EmptyString
                   /\ Live.currentOutputTranscription s5 = EmptyString
                   /\ Live.nextStartTime s5 = 0%Q)
    by (subst s5; destruct s4; cbn; auto).
  pose proof (turn_cleared (Live.turnComplete m) s5 Hclear) as (C1 & C2 & C3 & C4).
  pose proof (turn_calm (Live.turnComplete m) s5) as Hcalm.
  unfold Live.stateOf, Live.traceOf, Live.resultOf in *.
  destruct (Live.when (Live.turnComplete m) Live.handleTurnComplete s5)
    as [[r6 s6] t6]; cbn [fst snd] in *.
  intros _. split; [exact C1|]. split; [exact C4|].
  split; [exact C2|]. split; [exact C3|].
  unfold Live.tools in Hpending.
  rewrite Forall_forall in Hquiet4, Hcalm, Hpending.
  split; [|split].
  - intros x Hx. apply in_or_app. right. apply in_or_app. left.
    apply in_or_app. left. apply in_or_app. left.
    apply in_map_iff. exists x. split; [reflexivity|].
    now apply Htracked4.
  - exists (t4 ++ map (fun source => Live.SourceStop (Live.node source))
                      (Live.audioSources s4)).
    exists ((if Live.isSome (Live.session s4)
             then [Live.StateChange Live.LISTENING None] else []) ++ t6
            ++ pending).
    split.
    + rewrite <- !app_assoc. reflexivity.
    + intros c Hc. apply in_app_or in Hc as [Hc|Hc].
      * destruct (Live.isSome (Live.session s4)); cbn in Hc;
          [destruct Hc as [Hc|[]]; discriminate Hc | contradiction].
      * apply in_app_or in Hc as [Hc|Hc].
        -- apply Hcalm in Hc as [Hc _]. discriminate Hc.
        -- apply Hpending in Hc. discriminate Hc.
  - split.
    + intros Hin. apply in_app_or in Hin as [Hin|Hin].
      { apply Hquiet4 in Hin. discriminate Hin. }
      apply in_app_or in Hin as [Hin|Hin].
      * apply in_app_or in Hin as [Hin|Hin].
        -- apply in_app_or in Hin as [Hin|Hin].
           ++ apply in_map_iff in Hin as (x & Hx & _). discriminate Hx.
           ++ destruct Hin as [Hin|Hin]; [discriminate Hin|].
              rewrite Hsess4 in Hin. destruct (Live.session s); [discriminate|].
              contradiction.
        -- apply Hcalm in Hin as [_ Hin]. discriminate Hin.
      * apply Hpending in Hin. discriminate Hin.
    + intros Hs. apply in_or_app. right. apply in_or_app. left.
      apply in_or_app. left.
      apply in_or_app. right. right. rewrite Hsess4.
      destruct (Live.session s); [now left | congruence].
Qed.

Lemma interrupted_clears_witness :
  let s := fst (@Live.runEvents JS.vietnamese
                  [Live.Start Examples.noFail (Live.Started 1%nat 2%nat 3%nat 4%nat 5%nat);
                   Live.Message Examples.env0 (Examples.audio "AAAAAAAA");
                   Live.Message Examples.env0 (Examples.heard "chờ chút")]
                  Live.init) in
  Live.interrupted Examples.interruption = true
  /\ Live.isSuspended s = false
  /\ List.length (Live.audioSources s) = 1%nat
  /\ Live.audioSources
       (Live.stateOf (@Live.onmessage JS.vietnamese Examples.env0
                        Examples.interruption s)) = [].
Proof.
  intros s.
  split; [reflexivity|]. split; [reflexivity|]. split; [reflexivity|].
  exact (proj1 (interrupted_clears JS.vietnamese Examples.env0
                  Examples.interruption s eq_refl eq_refl eq_refl)).
Defined.

Section StopFacts.
Import JS Live.

Lemma filter_after_stops (f : Effect -> bool) (l : list Source) rest :
  (forall n, f (SourceStop n) = false) ->
  filter f (map (fun source => SourceStop (node source)) l ++ rest)
  = filter f rest.
Proof.
  intros Hf. induction l as [|x l IH]; [reflexivity|].
  cbn. now rewrite Hf.
Qed.

Lemma forEach_emitted {A} (f : A -> Effect) (l : list A) s :
  forEach (fun a s' => (Ok tt, s', [f a])) l s = (Ok tt, s, map f l).
Proof. exact (forEach_emit f l s). Qed.

Lemma stop_run_clean fails userName s :
  (forall r, fails r = None) ->
  stopLiveSession fails userName s
  = (Ok tt,
     set_nextStartTime 0%Q
       (set_deepSleepRequested false
          (set_isSuspended false
             (set_isSpeaking false
                (set_audioSources []
                   (set_outputAudioContext None
                      (set_inputAudioContext None
                         (set_scriptProcessor None
                            (set_microphoneStream None
                               (set_session None s))))))))),
     (if isSome (session s) then [Released SessionClose] else [])
       ++ (if isSome (microphoneStream s) then [Released TracksStop] else [])
       ++ (if isSome (scriptProcessor s) then [Released ProcessorDisconnect] else [])
       ++ (if isSome (inputAudioContext s) then [Released InputContextClose] else [])
       ++ (if isSome (outputAudioContext s) then [Released OutputContextClose] else [])
       ++ map (fun source => SourceStop (node source)) (audioSources s)
       ++ [TranscriptionUpdate None; HistoryUpdate [];
           StateChange IDLE
             (Some (if optTruthy userName
                    then ("Hẹn gặp lại, " ++ orEmpty userName ++ "!")%string
                    else "Phiên đã kết thúc."))]).
Proof.
  intros Hfails. unfold stopLiveSession, release. rewrite !Hfails.
  destruct s as [se ic oc mi sp ? ? ? ? ? ? ? ? ?].
  destruct se, mi, sp, ic, oc; unfold_monad; cbn;
    rewrite forEach_emitted; cbn; rewrite ?app_nil_r; reflexivity.
Qed.

(** A release that throws ends the teardown: playback is not stopped,
    the flags are not reset, nothing is announced. *)
Lemma stop_run_thrown fails userName s e :
  resultOf (stopLiveSession fails userName s) = Throw e ->
  let r := stopLiveSession fails userName s in
  audioSources (stateOf r) = audioSources s
  /\ isSuspended (stateOf r) = isSuspended s
  /\ deepSleepRequested (stateOf r) = deepSleepRequested s
  /\ nextStartTime (stateOf r) = nextStartTime s
  /\ Forall (fun x => exists rel, x = Released rel) (traceOf r).
Proof.
  unfold stopLiveSession, release.
  destruct s as [se ic oc mi sp ? ? ? ? ? ? ? ? ?].
  destruct se, mi, sp, ic, oc; unfold_monad; cbn;
    repeat match goal with
      | |- context [fails ?x] => destruct (fails x) eqn:?; cbn
      end;
    rewrite ?forEach_emitted; cbn; intros H; try discriminate H;
    repeat split; repeat constructor; eexists; reflexivity.
Qed.

End StopFacts.

(** C3 (as stated, refuted).  The steps of the teardown are not guarded
    against one another: when closing the transport throws, [stop] ends
    there, and the microphone stream is still held and never stopped. *)
Lemma stopLiveSession_not_guarded :
  Live.stopLiveSession Examples.closeFails None Examples.started
  = (Throw (mkError InvalidStateError "close failed"), Examples.started, [])
  /\ Live.microphoneStream Examples.started = Some 1%nat
  /\ Live.released Live.TracksStop
       (Live.traceOf (Live.stopLiveSession Examples.closeFails None
                        Examples.started)) = 0%nat.
Proof. vm_compute. repeat split. Qed.

(** C3 (amended).  On a stopped session [stop] throws nothing, releases
    nothing and leaves the state as it is; it only repeats the three
    closing notifications.  When no release throws, [stop] returns, stops
    every tracked segment, releases the transport, the microphone stream,
    the processor and the two audio contexts once each if they are held
    (so exactly once each in mid-session), leaves a stopped session, and a
    second [stop] is then the no-op above.  The releases are guarded by
    null checks only: a release that throws ends the teardown, with
    playback not stopped and the flags not reset. *)
Theorem stopLiveSession_teardown
  (fails : Live.Release -> option JSError) (userName : option string)
  (s : Live.State) :
  let farewell :=
    [Live.TranscriptionUpdate None; Live.HistoryUpdate [];
     Live.StateChange Live.IDLE
       (Some (if Live.optTruthy userName
              then ("Hẹn gặp lại, " ++ Live.orEmpty userName ++ "!")%string
              else "Phiên đã kết thúc."))] in
  let r := Live.stopLiveSession fails userName s in
  let once (held : option Live.Handle) := if Live.isSome held then 1%nat else 0%nat in
  (Live.stopped s -> r = (Ok tt, s, farewell))
  /\ ((forall x, fails x = None) ->
      Live.resultOf r = Ok tt
      /\ Live.stopped (Live.stateOf r)
      /\ Live.released Live.SessionClose (Live.traceOf r) = once (Live.session s)
      /\ Live.released Live.TracksStop (Live.traceOf r) = once (Live.microphoneStream s)
      /\ Live.released Live.ProcessorDisconnect (Live.traceOf r)
         = once (Live.scriptProcessor s)
      /\ Live.released Live.InputContextClose (Live.traceOf r)
         = once (Live.inputAudioContext s)
      /\ Live.released Live.OutputContextClose (Live.traceOf r)
         = once (Live.outputAudioContext s)
      /\ (forall x, In x (Live.audioSources s) ->
                    In (Live.SourceStop (Live.node x)) (Live.traceOf r))
      /\ Live.stopLiveSession fails userName (Live.stateOf r)
         = (Ok tt, Live.stateOf r, farewell))
  /\ (forall e,
        Live.resultOf r = Throw e ->
        Live.audioSources (Live.stateOf r) = Live.audioSources s
        /\ Live.isSuspended (Live.stateOf r) = Live.isSuspended s
        /\ Live.deepSleepRequested (Live.stateOf r) = Live.deepSleepRequested s
        /\ Live.nextStartTime (Live.stateOf r) = Live.nextStartTime s
        /\ Forall (fun x => exists rel, x = Live.Released rel) (Live.traceOf r)).
Proof.
  intros farewell r once.
  assert (Hstopped : forall s0, Live.stopped s0 ->
            Live.stopLiveSession fails userName s0 = (Ok tt, s0, farewell)).
  { intros s0 (H1 & H2 & H3 & H4 & H5 & H6 & H7 & H8 & H9 & H10).
    destruct s0; cbn in *; subst. reflexivity. }
  split; [apply Hstopped|]. split.
  - intros Hfails. subst r. rewrite (stop_run_clean fails userName s Hfails).
    unfold Live.resultOf, Live.stateOf, Live.traceOf. cbn [fst snd].
    set (s' := Live.set_nextStartTime _ _).
    assert (Hs' : Live.stopped s') by (subst s'; destruct s; repeat split).
    split; [reflexivity|]. split; [exact Hs'|].
    pose proof (Hstopped s' Hs') as Hagain. clearbody s'.
    destruct s as [se ic oc mi sp ? ? src ? ? ? ? ? ?]. cbn.
    do 5 (split; [unfold Live.released; destruct se, mi, sp, ic, oc; cbn;
                  rewrite filter_after_stops by reflexivity; reflexivity|]).
    split.
    + intros x Hx. do 5 (apply in_or_app; right). apply in_or_app. left.
      apply in_map_iff. now exists x.
    + exact Hagain.
  - intros e He. exact (stop_run_thrown fails userName s e He).
Qed.

Lemma stopLiveSession_teardown_witness :
  let r := Live.stopLiveSession Examples.noFail (Some "An") Examples.started in
  (forall x, Examples.noFail x = None)
  /\ Live.stopped (Live.stateOf r)
  /\ Live.released Live.SessionClose (Live.traceOf r) = 1%nat
  /\ Live.released Live.TracksStop (Live.traceOf r) = 1%nat
  /\ Live.released Live.InputContextClose (Live.traceOf r) = 1%nat
  /\ Live.released Live.OutputContextClose (Live.traceOf r) = 1%nat.
Proof.
  intros r.
  assert (H : forall x, Examples.noFail x = None) by reflexivity.
  split; [exact H|].
  destruct (stopLiveSession_teardown Examples.noFail (Some "An") Examples.started)
    as (_ & Clean & _).
  destruct (Clean H) as (_ & S & R1 & R2 & _ & R4 & R5 & _).
  repeat split; try apply S; assumption.
Defined.

Section SuspendFacts.
Import JS Live.
Context {cm : CaseMapping}.

Lemma handleToolCall_frame env m b c h :
  preserves (fun s => isSuspended s = b /\ currentInputTranscription s = c
                      /\ session s = h) (handleToolCall env m).
Proof. judge. all: intros [] H; exact H. Qed.

Lemma handleAudio_suspended env m pending s :
  isSuspended s = true ->
  handleAudio env m pending s
  = match audioData m with
    | Ok _ => (Ok pending, s, [])
    | Throw e => (Throw e, s, pending)
    end.
Proof.
  intros H. rewrite handleAudio_run. cbv zeta.
  destruct (audioData m) as [data|e]; [|reflexivity].
  rewrite H. cbn [negb]. now rewrite andb_false_r.
Qed.

Lemma handleOutputTranscription_suspended m s :
  isSuspended s = true -> handleOutputTranscription m s = (Ok tt, s, []).
Proof.
  intros H. unfold handleOutputTranscription.
  destruct (outputTranscription m); [|reflexivity].
  rewrite bind_run. cbn. now rewrite H.
Qed.

Lemma handleOutputTranscription_awake m :
  preserves (fun s => isSuspended s = false
                      /\ currentInputTranscription s = EmptyString)
    (handleOutputTranscription m).
Proof. judge. all: intros [] H; exact H. Qed.

(** The input delta in suspend mode: only the accumulator moves, unless
    the wake phrase is there. *)
Lemma handleInputTranscription_suspended m s :
  isSuspended s = true ->
  handleInputTranscription m s
  = match inputTranscription m with
    | None => (Ok tt, s, [])
    | Some transcription =>
        let current :=
          (currentInputTranscription s ++ textOf transcription)%string in
        if wakes s m then
          if isSome (session s) then
            (Ok tt,
             set_currentInputTranscription EmptyString
               (set_isSuspended false (set_currentInputTranscription current s)),
             [TranscriptionUpdate None;
              StateChange LISTENING (Some "Mochi nghe đây!")])
          else
            (Ok tt,
             set_currentInputTranscription EmptyString
               (set_currentInputTranscription current s), [])
        else (Ok tt, set_currentInputTranscription current s, [])
    end.
Proof.
  intros H. unfold handleInputTranscription, wakes, wakeUp.
  destruct (inputTranscription m) as [transcription|]; [|reflexivity].
  destruct s as [se ? ? ? ? ? ? ? ? su ? ? ? ?]. cbn in H. subst su.
  unfold_monad. cbn.
  destruct (includes _ wakePhrase); cbn; [|reflexivity].
  destruct se; reflexivity.
Qed.

Lemma handleTurnComplete_awake s :
  isSuspended s = false -> currentInputTranscription s = EmptyString ->
  isSuspended (stateOf (handleTurnComplete s)) = false
  /\ currentInputTranscription (stateOf (handleTurnComplete s)) = EmptyString.
Proof.
  intros H1 H2. unfold handleTurnComplete.
  destruct s as [? ? ? ? ? ? ? ? ? su ? ci ? ?]. cbn in H1, H2. subst su ci.
  unfold_monad. cbn.
  change (trim EmptyString) with EmptyString. rewrite toLowerCase_empty.
  change (isGoodbye EmptyString) with false.
  change (truthy EmptyString) with false. cbn.
  repeat (break_if; cbn); split; reflexivity.
Qed.

Lemma boundaries_awake m s :
  isSuspended s = false -> currentInputTranscription s = EmptyString ->
  isSuspended (stateOf (boundaries m s)) = false
  /\ currentInputTranscription (stateOf (boundaries m s)) = EmptyString.
Proof.
  intros H1 H2. unfold boundaries. rewrite bind_run.
  destruct (interrupted m); cbn [when].
  - rewrite handleInterrupted_run. cbn [stateOf fst snd].
    destruct (turnComplete m); cbn [when].
    + apply handleTurnComplete_awake; destruct s; cbn in *; auto.
    + destruct s; cbn in *; auto.
  - cbn. destruct (turnComplete m); cbn [when].
    + now apply handleTurnComplete_awake.
    + auto.
Qed.

Lemma tools_quiet t : tools t -> quiet t.
Proof.
  intros H c Hc. unfold tools in H. rewrite Forall_forall in H.
  apply H in Hc. discriminate Hc.
Qed.

Lemma quiet_app t1 t2 : quiet t1 -> quiet t2 -> quiet (t1 ++ t2).
Proof.
  intros H1 H2 c Hc. apply in_app_or in Hc as [Hc|Hc];
    [now apply H1 in Hc | now apply H2 in Hc].
Qed.

Lemma handleOutputTranscription_wakeful m :
  preserves (fun s => isSuspended s = false) (handleOutputTranscription m).
Proof. judge. all: intros [] H; exact H. Qed.

(** One message met in suspend mode: the tool-call block and the read of
    the audio, at which the handler can be left by a throw; then the input
    delta, and what follows it if it has woken the session. *)
Lemma onmessage_suspended env m s :
  isSuspended s = true ->
  exists r1 s1 t1,
    handleToolCall env m s = (r1, s1, t1)
    /\ tools t1
    /\ isSuspended s1 = true
    /\ currentInputTranscription s1 = currentInputTranscription s
    /\ session s1 = session s
    /\ match r1 with
       | Throw e => onmessage env m s = (Throw e, s1, t1)
       | Ok pending =>
           tools pending
           /\ match audioData m with
              | Throw e => onmessage env m s = (Throw e, s1, t1 ++ pending)
              | Ok _ =>
                  let s3 := stateOf (handleInputTranscription m s1) in
                  let t3 := traceOf (handleInputTranscription m s1) in
                  onmessage env m s
                  = if isSuspended s3 then (Ok tt, s3, t1 ++ t3 ++ pending)
                    else
                      (Ok tt,
                       stateOf (boundaries m
                                  (stateOf (handleOutputTranscription m s3))),
                       t1 ++ t3 ++ traceOf (handleOutputTranscription m s3)
                          ++ traceOf (boundaries m
                                        (stateOf
                                           (handleOutputTranscription m s3)))
                          ++ pending)
              end
       end.
Proof.
  intros H.
  destruct (handleToolCall_tools env m s) as [E1 P1].
  pose proof (handleToolCall_frame env m true (currentInputTranscription s)
                (session s) s (conj H (conj eq_refl eq_refl))) as (F1 & F2 & F3).
  unfold pendingOf, resultOf, stateOf, traceOf in E1, P1, F1, F2, F3.
  destruct (handleToolCall env m s) as [[r1 s1] t1] eqn:R1. cbn [fst snd] in *.
  exists r1, s1, t1. repeat (split; [assumption || reflexivity|]).
  rewrite onmessage_run, deltas_run, R1.
  destruct r1 as [pending|e]; [|reflexivity].
  split; [exact P1|].
  rewrite (handleAudio_suspended env m pending s1 F1).
  destruct (audioData m) as [data|e]; [|reflexivity].
  cbv zeta. cbn [app].
  destruct (isSuspended (stateOf (handleInputTranscription m s1))) eqn:S3.
  - rewrite (handleOutputTranscription_suspended m _ S3). project.
    rewrite S3. now rewrite app_nil_r, <- !app_assoc.
  - rewrite (handleOutputTranscription_wakeful m _ S3).
    now rewrite <- !app_assoc.
Qed.

End SuspendFacts.

Section SuspendSteps.
Import JS Live.
Context {cm : CaseMapping}.

Lemma suspended_message env m s :
  isSuspended s = true ->
  let r := onmessage env m s in
  (wakes s m = false ->
   isSuspended (stateOf r) = true /\ quiet (traceOf r))
  /\ (forall e, resultOf r = Throw e ->
        (resultOf (handleToolCall env m s) = Throw e \/ audioData m = Throw e)
        /\ isSuspended (stateOf r) = true
        /\ currentInputTranscription (stateOf r) = currentInputTranscription s
        /\ quiet (traceOf r))
  /\ (resultOf r = Ok tt -> wakes s m = true -> session s = None ->
      isSuspended (stateOf r) = true
      /\ currentInputTranscription (stateOf r) = EmptyString
      /\ quiet (traceOf r))
  /\ (resultOf r = Ok tt -> wakes s m = true -> session s <> None ->
      isSuspended (stateOf r) = false
      /\ currentInputTranscription (stateOf r) = EmptyString
      /\ exists t0 t2,
          traceOf r
          = t0 ++ TranscriptionUpdate None
               :: StateChange LISTENING (Some "Mochi nghe đây!") :: t2
          /\ quiet t0).
Proof.
  intros H r. subst r.
  destruct (onmessage_suspended env m s H)
    as (r1 & s1 & t1 & R1 & E1 & F1 & F2 & F3 & Hrun).
  apply tools_quiet in E1.
  assert (W : wakes s1 m = wakes s m) by (unfold wakes; now rewrite F2).
  destruct r1 as [pending|e1].
  2:{ rewrite Hrun. project. split; [now split|]. split.
      - intros e He. injection He as <-. rewrite R1. project.
        repeat split; auto.
      - split; discriminate. }
  destruct Hrun as [P1 Hrun]. apply tools_quiet in P1.
  destruct (audioData m) as [data|e2] eqn:A.
  2:{ rewrite Hrun. project.
      split; [split; [exact F1 | now apply quiet_app]|]. split.
      - intros e He. injection He as <-.
        repeat split; auto. now apply quiet_app.
      - split; discriminate. }
  cbv zeta in Hrun. rewrite Hrun. clear Hrun.
  rewrite (handleInputTranscription_suspended m s1 F1), W, F3.
  destruct (inputTranscription m) as [transcription|] eqn:Hin.
  - cbv zeta. destruct (wakes s m); [destruct (session s) as [h|]|].
    + cbn [isSome]. project. set (s3 := set_currentInputTranscription _ _).
      assert (A3 : isSuspended s3 = false
                   /\ currentInputTranscription s3 = EmptyString)
        by (subst s3; destruct s1; split; reflexivity).
      replace (isSuspended s3) with false by (symmetry; apply A3).
      pose proof (handleOutputTranscription_awake m s3 A3) as [A4 B4].
      pose proof (boundaries_awake m _ A4 B4) as [A6 B6].
      project.
      split; [discriminate|]. split; [discriminate|]. split; [discriminate|].
      intros _ _ _. split; [exact A6|]. split; [exact B6|].
      exists t1. eexists. split; [reflexivity | exact E1].
    + cbn [isSome]. project.
      destruct s1 as [? ? ? ? ? ? ? ? ? su ? ? ? ?]. cbn in F1. subst su.
      cbn [isSuspended set_currentInputTranscription currentInputTranscription].
      project.
      split; [discriminate|]. split; [discriminate|].
      split; [|intros _ _ C; contradiction C; reflexivity].
      intros _ _ _. split; [reflexivity|]. split; [reflexivity|].
      apply quiet_app; [exact E1 | exact P1].
    + project.
      destruct s1 as [? ? ? ? ? ? ? ? ? su ? ? ? ?]. cbn in F1. subst su.
      cbn [isSuspended set_currentInputTranscription currentInputTranscription].
      project.
      split; [|split; [discriminate | split; discriminate]].
      intros _. split; [reflexivity|]. apply quiet_app; [exact E1 | exact P1].
  - project. rewrite F1. project.
    assert (Wf : wakes s m = false) by (unfold wakes; now rewrite Hin).
    rewrite Wf.
    split; [|split; [discriminate | split; discriminate]].
    intros _. split; [exact F1|]. apply quiet_app; [exact E1 | exact P1].
Qed.

Lemma suspended_run (ms : list (Env * LiveServerMessage)) :
  forall s, isSuspended s = true -> noneWakes s ms ->
            isSuspended (fst (runEvents (messages ms) s)) = true
            /\ quiet (snd (runEvents (messages ms) s)).
Proof.
  induction ms as [|[env m] ms IH]; intros s H N.
  - split; [exact H | intros c []].
  - destruct N as [Nw Nrest].
    destruct (suspended_message env m s H) as (A & _).
    destruct (A Nw) as [A1 A2].
    cbn [messages map runEvents handle fst snd].
    unfold stateOf, traceOf in *.
    destruct (onmessage env m s) as [[r1 s1] t1]. cbn in *.
    specialize (IH s1 A1 Nrest). fold (messages ms) in *.
    destruct (runEvents (messages ms) s1) as [s2 t2]. cbn in *.
    destruct IH as [I1 I2]. split; [exact I1|].
    intros c Hc. apply in_app_or in Hc as [Hc|Hc];
      [now apply A2 in Hc | now apply I2 in Hc].
Qed.

End SuspendSteps.

(** C7 (as stated, refuted).  With no session open (here a farewell that
    came in after [stop]), the wake phrase clears the accumulator but does
    not wake: the suspend flag stays set and LISTENING is not announced. *)
Lemma wake_phrase_without_session :
  let s := fst (@Live.runEvents JS.vietnamese
                  [Live.Start Examples.noFail (Live.Started 1%nat 2%nat 3%nat 4%nat 5%nat);
                   Live.Stop Examples.noFail None;
                   Live.Message Examples.env0 (Examples.heard "tạm biệt");
                   Live.Message Examples.env0 Examples.turnCompleted]
                  Live.init) in
  Live.isSuspended s = true
  /\ @Live.wakes JS.vietnamese s (Examples.heard "Mochi ơi") = true
  /\ @Live.onmessage JS.vietnamese Examples.env0 (Examples.heard "Mochi ơi") s
     = (Ok tt, s, []).
Proof. vm_compute. repeat split. Qed.

(** C7 (amended).  While the suspend flag is set, a message publishes no
    transcription content unless its input delta completes the wake phrase
    in the accumulator (lower-cased, as a substring), and so does any run
    of messages none of which does.  The handler of such a message can be
    left by a throw, in its tool-call block or at the read of its audio,
    before it comes to the input delta: then the flag and the accumulator
    stay as they were and nothing is published.  On a match in a message
    whose handler returns, the accumulator is cleared; if a session is
    open the suspend flag is reset, the displayed transcription is cleared
    and LISTENING is announced, with no content published before that;
    with no session open nothing else happens and the flag stays set. *)
Theorem suspended_until_wake
  (cm : JS.CaseMapping) (env : Live.Env) (m : Live.LiveServerMessage)
  (s : Live.State) :
  Live.isSuspended s = true ->
  let r := Live.onmessage env m s in
  (Live.wakes s m = false ->
   Live.isSuspended (Live.stateOf r) = true /\ Live.quiet (Live.traceOf r))
  /\ (forall ms, Live.noneWakes s ms ->
        Live.isSuspended (fst (Live.runEvents (Live.messages ms) s)) = true
        /\ Live.quiet (snd (Live.runEvents (Live.messages ms) s)))
  /\ (forall e, Live.resultOf r = Throw e ->
        (Live.resultOf (Live.handleToolCall env m s) = Throw e
         \/ Live.audioData m = Throw e)
        /\ Live.isSuspended (Live.stateOf r) = true
        /\ Live.currentInputTranscription (Live.stateOf r)
           = Live.currentInputTranscription s
        /\ Live.quiet (Live.traceOf r))
  /\ (Live.resultOf r = Ok tt -> Live.wakes s m = true -> Live.session s = None ->
      Live.isSuspended (Live.stateOf r) = true
      /\ Live.currentInputTranscription (Live.stateOf r) = EmptyString
      /\ Live.quiet (Live.traceOf r))
  /\ (Live.resultOf r = Ok tt -> Live.wakes s m = true ->
      Live.session s <> None ->
      Live.isSuspended (Live.stateOf r) = false
      /\ Live.currentInputTranscription (Live.stateOf r) = EmptyString
      /\ exists t0 t2,
          Live.traceOf r
          = t0 ++ Live.TranscriptionUpdate None
               :: Live.StateChange Live.LISTENING (Some "Mochi nghe đây!") :: t2
          /\ Live.quiet t0).
Proof.
  intros H r.
  destruct (suspended_message env m s H) as (A & B & C & D).
  split; [exact A|]. split; [|split; [exact B | split; [exact C | exact D]]].
  intros ms N. now apply suspended_run.
Qed.

Lemma suspended_until_wake_witness :
  let s := fst (@Live.runEvents JS.vietnamese
                  [Live.Start Examples.noFail (Live.Started 1%nat 2%nat 3%nat 4%nat 5%nat);
                   Live.Message Examples.env0 (Examples.heard "tạm biệt");
                   Live.Message Examples.env0 Examples.turnCompleted;
                   Live.Message Examples.env0 (Examples.heard "này Mo")]
                  Live.init) in
  Live.isSuspended s = true
  /\ @Live.wakes JS.vietnamese s (Examples.heard "chi ƠI") = true
  /\ Live.session s <> None
  /\ Live.isSuspended
       (Live.stateOf (@Live.onmessage JS.vietnamese Examples.env0
                        (Examples.heard "chi ƠI") s)) = false
  /\ @Live.wakes JS.vietnamese s (Examples.heard "chi") = false
  /\ Live.isSuspended
       (Live.stateOf (@Live.onmessage JS.vietnamese Examples.env0
                        (Examples.heard "chi") s)) = true.
Proof.
  intros s.
  assert (Hs : Live.isSuspended s = true) by reflexivity.
  assert (Hopen : Live.session s <> None) by discriminate.
  split; [exact Hs|]. split; [reflexivity|]. split; [exact Hopen|].
  destruct (suspended_until_wake JS.vietnamese Examples.env0
              (Examples.heard "chi ƠI") s Hs) as (_ & _ & _ & _ & W).
  destruct (suspended_until_wake JS.vietnamese Examples.env0
              (Examples.heard "chi") s Hs) as (Q & _).
  split; [exact (proj1 (W eq_refl eq_refl Hopen))|].
  split; [reflexivity|].
  exact (proj1 (Q eq_refl)).
Defined.

Section QueueFacts.
Import JS Live.
Context {cm : CaseMapping}.























(** *** Between two resets of the cursor *)









End QueueFacts.




(** The farewell scenario: with "tạm biệt nhé" heard and no deep-sleep
    request, the turn-complete event puts the session to rest. *)
Lemma turnComplete_outcomes_witness :
  let s := fst (@Live.runEvents JS.vietnamese
                  [Live.Start Examples.noFail (Live.Started 1%nat 2%nat 3%nat 4%nat 5%nat);
                   Live.Message Examples.env0 (Examples.heard "tạm biệt nhé")]
                  Live.init) in
  Live.turnComplete Examples.turnCompleted = true
  /\ @Live.beforeTurnComplete JS.vietnamese Examples.env0 Examples.turnCompleted s
     = (Ok (true, []), s, [])
  /\ exists s2,
      @Live.onmessage JS.vietnamese Examples.env0 Examples.turnCompleted s
      = (Ok tt, s2,
         [Live.HistoryUpdate
            [{| Live.speaker := Live.user; Live.text := "tạm biệt nhé" |}];
          Live.StateChange Live.SLEEPING (Some Live.sleepStatus);
          Live.TranscriptionUpdate None])
      /\ Live.isSuspended s2 = true.
Proof.
  intros s.
  assert (Hbefore : @Live.beforeTurnComplete JS.vietnamese Examples.env0
                      Examples.turnCompleted s = (Ok (true, []), s, []))
    by reflexivity.
  split; [reflexivity|]. split; [exact Hbefore|].
  destruct (turnComplete_outcomes JS.vietnamese Examples.env0
              Examples.turnCompleted s s [] [] true eq_refl Hbefore)
    as (s2 & t2 & E & _ & _ & _ & _ & _ & [D | [G | N]]).
  - destruct D as [D _]. discriminate D.
  - destruct G as (_ & _ & -> & G). exists s2. split; [exact E | exact G].
  - destruct N as (_ & N & _). discriminate N.
Defined.

(** * Further properties *)

(** ** More on the audio codec *)

(** X1.  [decode] undoes [encode]: every byte sequence comes back unchanged
    from its base64 text. *)
Theorem decode_encode (bytes : list byte) :
  Codec.decode (Codec.encode bytes) = Ok bytes.
Proof. exact (atob_btoa bytes). Qed.

Section BlobFacts.
Import JS Codec.

Lemma bytesOfInt16_length (l : list Z) :
  List.length (flat_map bytesOfInt16 l) = (2 * List.length l)%nat.
Proof. induction l as [|z l IH]; cbn [flat_map app List.length]; [reflexivity|]. cbn. lia. Qed.

Lemma toPCM_range (samples : list Q) :
  Forall (fun z => -32768 <= z <= 32767) (toPCM samples).
Proof. unfold toPCM. apply Forall_map, Forall_forall. intros x _. apply wrap16_range. Qed.

End BlobFacts.

(** X2.  Whatever the samples are (also beyond full scale), the blob of
    [createBlob] carries the PCM media type and a text that [decode]
    accepts: it gives two bytes for each sample, and the 16-bit view of
    these bytes is the PCM conversion of the samples, each value within 16
    bits. *)
Theorem createBlob_decodes (samples : list Q) :
  Codec.mimeType (Codec.createBlob samples) = "audio/pcm;rate=16000"
  /\ exists bytes,
      Codec.decode (Codec.data (Codec.createBlob samples)) = Ok bytes
      /\ List.length bytes = (2 * List.length samples)%nat
      /\ JS.Int16Array bytes = Ok (Codec.toPCM samples)
      /\ Forall (fun z => -32768 <= z <= 32767) (Codec.toPCM samples).
Proof.
  split; [reflexivity|].
  exists (flat_map JS.bytesOfInt16 (Codec.toPCM samples)).
  split; [apply atob_btoa|]. split.
  - rewrite bytesOfInt16_length. unfold Codec.toPCM. now rewrite length_map.
  - split; [|apply toPCM_range].
    unfold JS.Int16Array. now rewrite int16View_bytes by apply toPCM_range.
Qed.

Section ViewFacts.
Import JS Codec.

(** The 16-bit view, when there is one: two bytes per element, each
    element a 16-bit value. *)
Lemma int16View_some (bytes : list byte) (l : list Z) :
  int16View bytes = Some l ->
  List.length bytes = (2 * List.length l)%nat
  /\ Forall (fun z => -32768 <= z <= 32767) l.
Proof.
  revert l.
  induction bytes as [|b|lo hi rest IH] using pair_induction; intros l E.
  - inversion E. split; [reflexivity | constructor].
  - discriminate E.
  - cbn [int16View] in E. destruct (int16View rest) as [l'|]; [|discriminate].
    inversion E; subst. destruct (IH l' eq_refl) as [Hlen Hall]. split.
    + cbn [List.length]. lia.
    + constructor; [apply wrap16_range | exact Hall].
Qed.

Lemma nth_range (l : list Z) (k : nat) :
  Forall (fun z => -32768 <= z <= 32767) l -> -32768 <= nth k l 0 <= 32767.
Proof.
  intros H. destruct (Nat.lt_ge_cases k (List.length l)) as [Hk|Hk].
  - rewrite Forall_forall in H. apply H. now apply nth_In.
  - rewrite nth_overflow by exact Hk. lia.
Qed.

End ViewFacts.

(** X3.  [decodeAudioData] for any rate and channel count: a buffer that is
    returned has the channel count and the rate asked for, as many frames as
    the 16-bit view has whole groups of one value per channel (at least
    one), one list of that many samples per channel, every sample in
    [[-1,1)], and sample [i] of channel [c] is element [i * numChannels + c]
    of the view over [32768]. *)
Theorem decodeAudioData_shape
  (data : list byte) (rate : Z) (numChannels : nat) (buffer : Codec.AudioBuffer) :
  Codec.decodeAudioData data rate numChannels = Ok buffer ->
  exists dataInt16,
    JS.Int16Array data = Ok dataInt16
    /\ List.length data = (2 * List.length dataInt16)%nat
    /\ Codec.numberOfChannels buffer = numChannels
    /\ Codec.sampleRate buffer = rate
    /\ Codec.length buffer = (List.length dataInt16 / numChannels)%nat
    /\ (0 < Codec.length buffer)%nat
    /\ List.length (Codec.channels buffer) = numChannels
    /\ Forall (fun channelData =>
                 List.length channelData = Codec.length buffer
                 /\ Forall (fun x => (-1 <= x)%Q /\ (x < 1)%Q) channelData)
              (Codec.channels buffer)
    /\ forall channel i,
        (channel < numChannels)%nat -> (i < Codec.length buffer)%nat ->
        nth i (nth channel (Codec.channels buffer) []) 0%Q
        = (inject_Z (nth (i * numChannels + channel) dataInt16 0%Z) / 32768)%Q.
Proof.
  unfold Codec.decodeAudioData, JS.Int16Array.
  destruct (JS.int16View data) as [l|] eqn:V; [|discriminate].
  destruct (int16View_some data l V) as [Hlen Hall].
  unfold Codec.createBuffer.
  destruct (Nat.eqb numChannels 0 || Nat.ltb 32 numChannels
            || Nat.eqb (List.length l / numChannels) 0
            || (rate <? 8000) || (96000 <? rate))%bool eqn:G; [discriminate|].
  apply orb_false_iff in G. destruct G as [G _].
  apply orb_false_iff in G. destruct G as [G _].
  apply orb_false_iff in G. destruct G as [_ G]. apply Nat.eqb_neq in G.
  intros E. inversion E; subst buffer; clear E.
  cbn [Codec.numberOfChannels Codec.sampleRate Codec.length Codec.channels].
  exists l. split; [reflexivity|]. split; [exact Hlen|].
  split; [reflexivity|]. split; [reflexivity|]. split; [reflexivity|].
  split; [lia|]. split; [now rewrite length_map, length_seq|]. split.
  - apply Forall_map, Forall_forall. intros channel _.
    split; [now rewrite length_map, length_seq|].
    apply Forall_map, Forall_forall. intros i _.
    apply sample_range, nth_range, Hall.
  - intros channel i Hc Hi.
    set (column := fun channel : nat =>
           map (fun i : nat =>
                  (inject_Z (nth (i * numChannels + channel) l 0%Z) / 32768)%Q)
               (seq 0 (List.length l / numChannels))).
    change (nth i (nth channel (map column (seq 0 numChannels)) []) 0%Q
            = (inject_Z (nth (i * numChannels + channel) l 0%Z) / 32768)%Q).
    rewrite (nth_indep _ [] (column 0%nat))
      by now rewrite length_map, length_seq.
    rewrite (map_nth column), seq_nth by exact Hc. cbn [Nat.add].
    unfold column.
    set (f := fun i : nat =>
           (inject_Z (nth (i * numChannels + channel) l 0%Z) / 32768)%Q).
    rewrite (nth_indep _ 0%Q (f 0%nat))
      by now rewrite length_map, length_seq.
    rewrite (map_nth f), seq_nth by exact Hi. reflexivity.
Qed.

Lemma decodeAudioData_shape_witness :
  exists buffer,
    Codec.decodeAudioData [x00; x40; x00; xc0; x00; x20; x00; x00] 48000 2
    = Ok buffer
    /\ Codec.length buffer = 2%nat
    /\ List.length (Codec.channels buffer) = 2%nat.
Proof.
  eexists. split; [reflexivity|].
  destruct (decodeAudioData_shape [x00; x40; x00; xc0; x00; x20; x00; x00] 48000 2
              _ eq_refl) as (l & E & _ & _ & _ & L & _ & C & _).
  inversion E; subst l. split; [exact L | exact C].
Defined.

(** ** More on the alarm scheduler *)

Section AlarmOrderFacts.
Import AlarmService AlarmView.

Lemma filter_all {A} (f : A -> bool) (l : list A) :
  Forall (fun x => f x = true) l -> filter f l = l.
Proof.
  induction 1 as [|x l Hx _ IH]; [reflexivity|].
  cbn. now rewrite Hx, IH.
Qed.

Lemma NoDup_map_eq {A B} (f : A -> B) (l : list A) (x y : A) :
  NoDup (map f l) -> In x l -> In y l -> f x = f y -> x = y.
Proof.
  induction l as [|a l IH]; cbn; intros Hd Hx Hy E; [tauto|].
  inversion Hd as [|? ? Hn Hd']; subst.
  destruct Hx as [->|Hx], Hy as [->|Hy]; auto.
  - exfalso. apply Hn. rewrite E. now apply in_map.
  - exfalso. apply Hn. rewrite <- E. now apply in_map.
Qed.

Lemma removeAlarm_filter i l :
  NoDup (map id l) -> removeAlarm i l = filter (fun a => negb (id a =? i)) l.
Proof.
  induction l as [|a l IH]; cbn; intros Hd; [reflexivity|].
  inversion Hd as [|? ? Hn Hd']; subst.
  destruct (id a =? i) eqn:E; cbn.
  - apply Z.eqb_eq in E. symmetry. apply filter_all, Forall_forall.
    intros x Hx. apply negb_true_iff, Z.eqb_neq. intros C.
    apply Hn. rewrite E, <- C. now apply in_map.
  - f_equal. now apply IH.
Qed.

Lemma findAlarm_active i l a :
  findAlarm i l = Some a -> In a l /\ id a = i.
Proof.
  intros H. apply find_some in H as [H1 H2]. split; [exact H1|].
  now apply Z.eqb_eq.
Qed.

Lemma findAlarm_found l a :
  NoDup (map id l) -> In a l -> findAlarm (id a) l = Some a.
Proof.
  induction l as [|x l IH]; cbn; intros Hd Hin; [tauto|].
  inversion Hd as [|? ? Hn Hd']; subst.
  destruct Hin as [->|Hin].
  - now rewrite Z.eqb_refl.
  - destruct (id x =? id a) eqn:E; [|now apply IH].
    apply Z.eqb_eq in E. exfalso. apply Hn. rewrite E. now apply in_map.
Qed.

Lemma findAlarm_none i l :
  ~ In i (map id l) -> findAlarm i l = None.
Proof.
  induction l as [|x l IH]; cbn; intros H; [reflexivity|].
  destruct (id x =? i) eqn:E.
  - apply Z.eqb_eq in E. tauto.
  - apply IH. tauto.
Qed.

Lemma find_timer_none h l :
  ~ In h (map handle l) -> find (fun t => handle t =? h) l = None.
Proof.
  induction l as [|x l IH]; cbn; intros H; [reflexivity|].
  destruct (handle x =? h) eqn:E.
  - apply Z.eqb_eq in E. tauto.
  - apply IH. tauto.
Qed.

(** The projections of an aligned pair of lists. *)
Lemma aligned_handles alarms timers :
  map ofAlarm alarms = map ofTimer timers ->
  map timerId alarms = map handle timers
  /\ map id alarms = map alarmId timers.
Proof.
  intros H. split.
  - apply (f_equal (map (fun x : Z * Z * string => fst (fst x)))) in H.
    now rewrite !map_map in H.
  - apply (f_equal (map (fun x : Z * Z * string => snd (fst x)))) in H.
    now rewrite !map_map in H.
Qed.

Lemma aligned_timer alarms timers a :
  map ofAlarm alarms = map ofTimer timers -> In a alarms ->
  exists t, In t timers /\ ofTimer t = ofAlarm a.
Proof.
  intros H Hin. apply (in_map ofAlarm) in Hin. rewrite H in Hin.
  apply in_map_iff in Hin as (t & Ht & Hin). now exists t.
Qed.

(** Filtering both lists by tests that agree on the entries that go
    together keeps them aligned. *)
Lemma aligned_filter (f : Alarm -> bool) (g : Timer -> bool) alarms timers :
  map ofAlarm alarms = map ofTimer timers ->
  (forall x y, ofAlarm x = ofTimer y -> In x alarms -> In y timers -> f x = g y) ->
  map ofAlarm (filter f alarms) = map ofTimer (filter g timers).
Proof.
  revert timers. induction alarms as [|x alarms IH]; intros [|y timers] H Hfg;
    cbn [map] in H; try discriminate H; [reflexivity|].
  assert (Hxy : ofAlarm x = ofTimer y)
    by (injection H; intros; unfold ofAlarm, ofTimer; congruence).
  assert (Hrest : map ofAlarm alarms = map ofTimer timers)
    by (injection H; auto).
  cbn [filter]. rewrite (Hfg x y Hxy) by (cbn; auto).
  assert (Htail : map ofAlarm (filter f alarms) = map ofTimer (filter g timers)).
  { apply IH; [exact Hrest|]. intros; apply Hfg; cbn; auto. }
  destruct (g y); cbn [map]; [now rewrite Hxy, Htail | exact Htail].
Qed.

Lemma step_aligned o s :
  wellFormed s -> aligned s -> aligned (step o s).
Proof.
  intros (Hid & _ & Hh & _) Ha. unfold aligned in *.
  destruct (aligned_handles _ _ Ha) as [Hhandles Hids].
  destruct o as [now time label | i | h]; cbn [step].
  - unfold setAlarm. destruct (time - now <? 0); cbn; [exact Ha|].
    rewrite !map_app, Ha. reflexivity.
  - unfold cancelAlarm. destruct (findAlarm i (activeAlarms s)) as [a|] eqn:F;
      [|exact Ha].
    apply findAlarm_active in F as [Hin <-].
    cbn [activeAlarms timers]. rewrite removeAlarm_filter by exact Hid.
    apply aligned_filter; [exact Ha|].
    intros x y E Hx Hy. f_equal.
    assert (E1 : timerId x = handle y)
      by (unfold ofAlarm, ofTimer in E; congruence).
    assert (E2 : id x = alarmId y)
      by (unfold ofAlarm, ofTimer in E; congruence).
    destruct (id x =? id a) eqn:C.
    + apply Z.eqb_eq in C.
      assert (x = a)
        by (apply (NoDup_map_eq id (activeAlarms s)); assumption).
      subst x.
      symmetry. now apply Z.eqb_eq.
    + symmetry. apply Z.eqb_neq. intros D. apply Z.eqb_neq in C. apply C.
      f_equal.
      apply (NoDup_map_eq timerId (activeAlarms s));
        [rewrite Hhandles; exact Hh | exact Hx | exact Hin | congruence].
  - unfold expire. destruct (find _ (timers s)) as [t|] eqn:F; [|exact Ha].
    apply find_some in F as [Hin Hht]. apply Z.eqb_eq in Hht. subst h.
    cbn [onTimer fst activeAlarms timers].
    rewrite removeAlarm_filter by exact Hid.
    apply aligned_filter; [exact Ha|].
    intros x y E Hx Hy. f_equal.
    assert (E1 : timerId x = handle y)
      by (unfold ofAlarm, ofTimer in E; congruence).
    assert (E2 : id x = alarmId y)
      by (unfold ofAlarm, ofTimer in E; congruence).
    destruct (handle y =? handle t) eqn:C.
    + apply Z.eqb_eq in C.
      assert (y = t)
        by (apply (NoDup_map_eq handle (timers s)); assumption).
      subst y.
      now apply Z.eqb_eq.
    + apply Z.eqb_neq. intros D. apply Z.eqb_neq in C. apply C.
      f_equal.
      apply (NoDup_map_eq alarmId (timers s));
        [rewrite <- Hids; exact Hid | exact Hy | exact Hin | congruence].
Qed.

Lemma run_aligned ops s :
  wellFormed s -> aligned s -> wellFormed (run ops s) /\ aligned (run ops s).
Proof.
  revert s. induction ops as [|o ops IH]; intros s W A; [now split|].
  cbn. apply IH; [now apply step_wellFormed | now apply step_aligned].
Qed.

Lemma reachable_aligned s : reachable s -> aligned s.
Proof.
  intros [ops <-]. apply run_aligned; [|reflexivity].
  repeat split; cbn; constructor.
Qed.

End AlarmOrderFacts.

Section AlarmRetireFacts.
Import AlarmService AlarmView.

Lemma step_retired h i o s : retired h i s -> retired h i (step o s).
Proof.
  intros (H1 & H2 & H3 & H4).
  destruct o as [now time label | j | k]; cbn [step].
  - unfold setAlarm. destruct (time - now <? 0); cbn; [repeat split; assumption|].
    repeat split; cbn; try lia.
    + rewrite map_app, in_app_iff. cbn. intros [C|[C|[]]]; [tauto|lia].
    + rewrite map_app, in_app_iff. cbn. intros [C|[C|[]]]; [tauto|lia].
  - unfold cancelAlarm. destruct (findAlarm j (activeAlarms s));
      [|repeat split; assumption].
    repeat split; cbn; try assumption.
    + intros C. apply H2. apply in_map_iff in C as (t & <- & Ht).
      apply in_map. unfold clearTimeout in Ht. now apply filter_In in Ht.
    + intros C. apply H4. apply in_map_iff in C as (b & <- & Hb).
      apply in_map. now apply removeAlarm_incl in Hb.
  - unfold expire. destruct (find _ (timers s)); [|repeat split; assumption].
    repeat split; cbn; try assumption.
    + intros C. apply H2. apply in_map_iff in C as (t' & <- & Ht).
      apply in_map. unfold clearTimeout in Ht. now apply filter_In in Ht.
    + intros C. apply H4. apply in_map_iff in C as (b & <- & Hb).
      apply in_map. now apply removeAlarm_incl in Hb.
Qed.

Lemma run_retired h i ops s : retired h i s -> retired h i (run ops s).
Proof.
  revert s. induction ops as [|o ops IH]; intros s H; [exact H|].
  cbn. apply IH. now apply step_retired.
Qed.

(** Nothing rings for a retired handle, and a retired id is not active. *)
Lemma retired_silent h i s :
  retired h i s ->
  expire h s = (s, []) /\ ~ In i (map info_id (getActiveAlarms s)).
Proof.
  intros (_ & H2 & _ & H4). split.
  - unfold expire. now rewrite find_timer_none.
  - unfold getActiveAlarms. now rewrite map_map.
Qed.

Lemma getActiveAlarms_filter i l :
  map (fun a => {| info_id := id a; info_time := time a; info_label := label a |})
      (filter (fun a => negb (id a =? i)) l)
  = filter (fun x => negb (info_id x =? i))
      (map (fun a => {| info_id := id a; info_time := time a;
                        info_label := label a |}) l).
Proof.
  induction l as [|a l IH]; [reflexivity|].
  cbn. destruct (negb (id a =? i)); cbn; now rewrite IH.
Qed.

(** The state after an active alarm has been cancelled or has rung. *)
Lemma retired_after s a :
  wellFormed s -> aligned s -> In a (activeAlarms s) ->
  retired (timerId a) (id a)
    {| activeAlarms := removeAlarm (id a) (activeAlarms s);
       nextAlarmId := nextAlarmId s;
       timers := clearTimeout (timerId a) (timers s);
       nextHandle := nextHandle s |}.
Proof.
  intros (Hid & Hlt & Hh & Hhlt) Ha Hin.
  destruct (aligned_timer _ _ a Ha Hin) as (t & Ht & E).
  assert (E1 : handle t = timerId a) by (unfold ofAlarm, ofTimer in E; congruence).
  rewrite Forall_forall in Hlt, Hhlt.
  repeat split; cbn.
  - rewrite <- E1. now apply Hhlt.
  - intros C. apply in_map_iff in C as (t' & Ht' & Hin').
    now apply clearTimeout_gone in Hin'.
  - now apply Hlt.
  - now apply removeAlarm_gone.
Qed.

Lemma clearTimeout_one l t :
  NoDup (map handle l) -> In t l ->
  S (List.length (clearTimeout (handle t) l)) = List.length l.
Proof.
  induction l as [|x l IH]; cbn; intros Hd Hin; [tauto|].
  inversion Hd as [|? ? Hn Hd']; subst.
  destruct Hin as [->|Hin].
  - rewrite Z.eqb_refl. cbn. f_equal. f_equal.
    apply filter_all, Forall_forall. intros y Hy.
    apply negb_true_iff, Z.eqb_neq. intros C. apply Hn. rewrite <- C.
    now apply in_map.
  - destruct (handle x =? handle t) eqn:E.
    + apply Z.eqb_eq in E. exfalso. apply Hn. rewrite E. now apply in_map.
    + cbn. f_equal. now apply IH.
Qed.

Lemma sorted_snoc (l : list Z) (x : Z) :
  StronglySorted Z.lt l -> Forall (fun y => y < x) l ->
  StronglySorted Z.lt (l ++ [x]).
Proof.
  induction 1 as [|y l Hs IH Hy]; intros Hx; cbn.
  - repeat constructor.
  - inversion Hx; subst. constructor; [now apply IH|].
    apply Forall_app. split; [exact Hy | now repeat constructor].
Qed.

Lemma removeAlarm_sorted i l :
  StronglySorted Z.lt (map id l) -> StronglySorted Z.lt (map id (removeAlarm i l)).
Proof.
  induction l as [|a l IH]; cbn; intros H; [constructor|].
  apply StronglySorted_inv in H as [Hs Hall].
  destruct (id a =? i); [exact Hs|].
  cbn. constructor; [now apply IH|].
  rewrite Forall_forall in *. intros x Hx. apply Hall.
  apply in_map_iff in Hx as (b & <- & Hb). apply in_map.
  now apply removeAlarm_incl in Hb.
Qed.

Lemma step_ordered o s : 1 <= nextAlarmId s -> ordered s ->
  1 <= nextAlarmId (step o s) /\ ordered (step o s).
Proof.
  intros Hn [Hs Hb].
  destruct o as [now time label | j | k]; cbn [step].
  - unfold setAlarm. destruct (time - now <? 0); cbn; [now repeat split|].
    split; [lia|]. split; cbn.
    + rewrite map_app. apply sorted_snoc; [exact Hs|].
      apply Forall_map. eapply Forall_impl; [|exact Hb]. cbn. intros; lia.
    + apply Forall_app. split.
      * eapply Forall_impl; [|exact Hb]. cbn. intros; lia.
      * repeat constructor; cbn; lia.
  - unfold cancelAlarm. destruct (findAlarm j (activeAlarms s));
      [|now repeat split].
    split; [exact Hn|]. split; cbn.
    + now apply removeAlarm_sorted.
    + now apply removeAlarm_Forall.
  - unfold expire. destruct (find _ (timers s)); [|now repeat split].
    split; [exact Hn|]. split; cbn.
    + now apply removeAlarm_sorted.
    + now apply removeAlarm_Forall.
Qed.

Lemma run_ordered ops s : 1 <= nextAlarmId s -> ordered s -> ordered (run ops s).
Proof.
  revert s. induction ops as [|o ops IH]; intros s Hn H; [exact H|].
  cbn. destruct (step_ordered o s Hn H). now apply IH.
Qed.

End AlarmRetireFacts.

(** X4.  In every state the scheduler can reach the active alarms and the
    pending timers go together, entry by entry and in the same order: the
    timer of an alarm is pending under the handle the alarm records and
    carries its id and its label, every pending timer belongs to an active
    alarm, and there are as many of the ones as of the others. *)
Theorem alarms_and_timers_aligned (s : AlarmService.State) :
  AlarmService.reachable s ->
  map AlarmView.ofAlarm (AlarmService.activeAlarms s)
  = map AlarmView.ofTimer (AlarmService.timers s)
  /\ (forall a, In a (AlarmService.activeAlarms s) ->
        exists t, In t (AlarmService.timers s)
                  /\ AlarmService.handle t = AlarmService.timerId a
                  /\ AlarmService.alarmId t = AlarmService.id a
                  /\ AlarmService.alarmLabel t = AlarmService.label a)
  /\ (forall t, In t (AlarmService.timers s) ->
        exists a, In a (AlarmService.activeAlarms s)
                  /\ AlarmService.timerId a = AlarmService.handle t
                  /\ AlarmService.id a = AlarmService.alarmId t
                  /\ AlarmService.label a = AlarmService.alarmLabel t)
  /\ List.length (AlarmService.getActiveAlarms s)
     = List.length (AlarmService.timers s).
Proof.
  intros Hr. pose proof (reachable_aligned s Hr) as Ha.
  unfold AlarmView.aligned in Ha. split; [exact Ha|]. split; [|split].
  - intros a Hin. destruct (aligned_timer _ _ a Ha Hin) as (t & Ht & E).
    exists t. unfold AlarmView.ofAlarm, AlarmView.ofTimer in E.
    repeat split; congruence.
  - intros t Hin. apply (in_map AlarmView.ofTimer) in Hin. rewrite <- Ha in Hin.
    apply in_map_iff in Hin as (a & E & Hin). exists a.
    unfold AlarmView.ofAlarm, AlarmView.ofTimer in E.
    repeat split; congruence.
  - unfold AlarmService.getActiveAlarms. rewrite length_map.
    apply (f_equal (@List.length _)) in Ha. now rewrite !length_map in Ha.
Qed.

Lemma alarms_and_timers_aligned_witness :
  let s := AlarmService.run
             [AlarmService.OpSet 0 600000 "Gọi mẹ";
              AlarmService.OpSet 1000 300000 "Uống nước";
              AlarmService.OpExpire 2;
              AlarmService.OpSet 2000 900000 "Họp"]
             AlarmService.init in
  List.length (AlarmService.getActiveAlarms s) = 2%nat
  /\ List.length (AlarmService.timers s) = 2%nat.
Proof.
  intros s.
  assert (R : AlarmService.reachable s) by (eexists; reflexivity).
  destruct (alarms_and_timers_aligned s R) as (_ & _ & _ & L).
  split; [reflexivity|]. rewrite <- L. reflexivity.
Defined.

(** X5.  In every state the scheduler can reach the list of
    [getActiveAlarms] is in the order of creation: the ids are strictly
    increasing, at least [1] and below the next id. *)
Theorem alarm_ids_increasing (s : AlarmService.State) :
  AlarmService.reachable s ->
  StronglySorted Z.lt (map AlarmService.info_id (AlarmService.getActiveAlarms s))
  /\ Forall (fun x => 1 <= AlarmService.info_id x < AlarmService.nextAlarmId s)
       (AlarmService.getActiveAlarms s).
Proof.
  intros [ops <-].
  destruct (run_ordered ops AlarmService.init) as [Hs Hb].
  - cbn. lia.
  - split; cbn; constructor.
  - unfold AlarmService.getActiveAlarms. rewrite map_map. cbn. split; [exact Hs|].
    apply Forall_map. exact Hb.
Qed.

Lemma alarm_ids_increasing_witness :
  map AlarmService.info_id
    (AlarmService.getActiveAlarms
       (AlarmService.run
          [AlarmService.OpSet 0 600000 "Gọi mẹ";
           AlarmService.OpSet 1000 300000 "Uống nước";
           AlarmService.OpSet 2000 900000 "Họp";
           AlarmService.OpCancel 2]
          AlarmService.init)) = [1; 3]
  /\ StronglySorted Z.lt [1; 3].
Proof.
  split; [reflexivity|].
  apply (alarm_ids_increasing
           (AlarmService.run
              [AlarmService.OpSet 0 600000 "Gọi mẹ";
               AlarmService.OpSet 1000 300000 "Uống nước";
               AlarmService.OpSet 2000 900000 "Họp";
               AlarmService.OpCancel 2]
              AlarmService.init)).
  eexists; reflexivity.
Defined.

(** X6.  [cancelAlarm] on a reachable state: for an id that is not active it
    changes nothing; for an active alarm it removes that alarm and no other,
    clears the timer of that alarm and no other, a second call changes
    nothing, and whatever the scheduler does afterwards the expiry of the
    cleared handle rings nothing and the id is never active again. *)
Theorem cancelAlarm_never_rings (s : AlarmService.State) :
  AlarmService.reachable s ->
  (forall i, ~ In i (map AlarmService.info_id (AlarmService.getActiveAlarms s)) ->
             AlarmService.cancelAlarm i s = s)
  /\ (forall a, In a (AlarmService.activeAlarms s) ->
        let s1 := AlarmService.cancelAlarm (AlarmService.id a) s in
        AlarmService.getActiveAlarms s1
        = filter (fun x => negb (AlarmService.info_id x =? AlarmService.id a))
            (AlarmService.getActiveAlarms s)
        /\ AlarmService.timers s1
           = filter (fun t => negb (AlarmService.handle t =? AlarmService.timerId a))
               (AlarmService.timers s)
        /\ List.length (AlarmService.timers s1)
           = pred (List.length (AlarmService.timers s))
        /\ AlarmService.cancelAlarm (AlarmService.id a) s1 = s1
        /\ forall ops,
            let s2 := AlarmService.run ops s1 in
            AlarmService.expire (AlarmService.timerId a) s2 = (s2, [])
            /\ ~ In (AlarmService.id a)
                   (map AlarmService.info_id (AlarmService.getActiveAlarms s2))).
Proof.
  intros Hr.
  pose proof (reachable_wellFormed s Hr) as Hw.
  pose proof (reachable_aligned s Hr) as Ha.
  split.
  - intros i Hi. unfold AlarmService.cancelAlarm.
    rewrite findAlarm_none; [reflexivity|].
    unfold AlarmService.getActiveAlarms in Hi. now rewrite map_map in Hi.
  - intros a Hin. cbv zeta.
    destruct Hw as (Hid & Hlt & Hh & Hhlt).
    assert (Hcancel :
      AlarmService.cancelAlarm (AlarmService.id a) s
      = {| AlarmService.activeAlarms :=
             AlarmService.removeAlarm (AlarmService.id a) (AlarmService.activeAlarms s);
           AlarmService.nextAlarmId := AlarmService.nextAlarmId s;
           AlarmService.timers :=
             AlarmService.clearTimeout (AlarmService.timerId a) (AlarmService.timers s);
           AlarmService.nextHandle := AlarmService.nextHandle s |}).
    { unfold AlarmService.cancelAlarm. now rewrite (findAlarm_found _ a Hid Hin). }
    pose proof (retired_after s a (conj Hid (conj Hlt (conj Hh Hhlt))) Ha Hin) as Hret.
    rewrite <- Hcancel in Hret. 
    split; [|split; [|split; [|split]]].
    + rewrite Hcancel. unfold AlarmService.getActiveAlarms.
      cbn [AlarmService.activeAlarms].
      rewrite removeAlarm_filter by exact Hid. apply getActiveAlarms_filter.
    + rewrite Hcancel. reflexivity.
    + rewrite Hcancel. cbn [AlarmService.timers].
      destruct (aligned_timer _ _ a Ha Hin) as (t & Ht & E).
      assert (E1 : AlarmService.handle t = AlarmService.timerId a)
        by (unfold AlarmView.ofAlarm, AlarmView.ofTimer in E; congruence).
      rewrite <- E1, <- (clearTimeout_one _ t Hh Ht). reflexivity.
    + destruct Hret as (_ & _ & _ & Hgone).
      unfold AlarmService.cancelAlarm at 1. now rewrite findAlarm_none.
    + intros ops. apply retired_silent. now apply run_retired.
Qed.

Lemma cancelAlarm_never_rings_witness :
  let s := AlarmService.run
             [AlarmService.OpSet 0 600000 "Gọi mẹ";
              AlarmService.OpSet 1000 300000 "Uống nước"]
             AlarmService.init in
  let s1 := AlarmService.cancelAlarm 1 s in
  map AlarmService.info_id (AlarmService.getActiveAlarms s1) = [2]
  /\ AlarmService.expire 1 s1 = (s1, []).
Proof.
  intros s s1.
  assert (R : AlarmService.reachable s) by (eexists; reflexivity).
  destruct (cancelAlarm_never_rings s R) as [_ H].
  destruct (H {| AlarmService.id := 1; AlarmService.time := 600000;
                 AlarmService.label := "Gọi mẹ"; AlarmService.timerId := 1 |}
              (or_introl eq_refl)) as (_ & _ & _ & _ & Never).
  split; [reflexivity|]. exact (proj1 (Never [])).
Defined.

(** X7.  Setting an alarm that is not in the past and cancelling it at once
    gives back the active list and the timer table as they were; only the
    two counters have moved on. *)
Theorem setAlarm_then_cancelAlarm
  (s : AlarmService.State) (now time : Z) (label : string) :
  AlarmService.reachable s -> now <= time ->
  let s1 := snd (fst (AlarmService.setAlarm now time label s)) in
  AlarmService.cancelAlarm (AlarmService.nextAlarmId s) s1
  = {| AlarmService.activeAlarms := AlarmService.activeAlarms s;
       AlarmService.nextAlarmId := AlarmService.nextAlarmId s + 1;
       AlarmService.timers := AlarmService.timers s;
       AlarmService.nextHandle := AlarmService.nextHandle s + 1 |}.
Proof.
  intros Hr Hle. destruct (reachable_wellFormed s Hr) as (Hid & Hlt & Hh & Hhlt).
  cbv zeta. unfold AlarmService.setAlarm.
  replace (time - now <? 0) with false by (symmetry; apply Z.ltb_ge; lia).
  cbn [fst snd]. unfold AlarmService.cancelAlarm.
  cbn [AlarmService.activeAlarms AlarmService.timers AlarmService.nextAlarmId
         AlarmService.nextHandle].
  set (new := {| AlarmService.id := AlarmService.nextAlarmId s;
                 AlarmService.time := time; AlarmService.label := label;
                 AlarmService.timerId := AlarmService.nextHandle s |}).
  assert (Hfresh : Forall (fun a => negb (AlarmService.id a =? AlarmService.nextAlarmId s)
                                    = true) (AlarmService.activeAlarms s)).
  { eapply Forall_impl; [|exact Hlt]. cbn. intros a Ha.
    apply negb_true_iff, Z.eqb_neq. lia. }
  assert (Hnd : NoDup (map AlarmService.id (AlarmService.activeAlarms s ++ [new]))).
  { eapply fresh_NoDup; eauto. }
  assert (F : AlarmService.findAlarm (AlarmService.nextAlarmId s)
                (AlarmService.activeAlarms s ++ [new]) = Some new).
  { apply (findAlarm_found _ new Hnd). apply in_or_app. right. now left. }
  rewrite F.
  rewrite removeAlarm_filter by exact Hnd.
  unfold AlarmService.clearTimeout. rewrite !filter_app. cbn [filter].
  cbn [AlarmService.id AlarmService.timerId AlarmService.handle new].
  rewrite !Z.eqb_refl. cbn [negb]. rewrite !app_nil_r.
  rewrite (filter_all _ _ Hfresh). f_equal.
  apply filter_all. eapply Forall_impl; [|exact Hhlt]. cbn. intros t Ht.
  apply negb_true_iff, Z.eqb_neq. lia.
Qed.

Lemma setAlarm_then_cancelAlarm_witness :
  AlarmService.getActiveAlarms
    (AlarmService.cancelAlarm (AlarmService.nextAlarmId AlarmService.init)
       (snd (fst (AlarmService.setAlarm 1000 601000 "Gọi mẹ" AlarmService.init))))
  = [].
Proof.
  assert (R : AlarmService.reachable AlarmService.init) by (exists []; reflexivity).
  rewrite (setAlarm_then_cancelAlarm AlarmService.init 1000 601000 "Gọi mẹ" R
             ltac:(lia)).
  reflexivity.
Defined.

(** X8.  The timer of an active alarm, when it expires in a reachable state,
    rings once with the label of that alarm and starts its announcement,
    that alarm and no other leaves the active list, and whatever the
    scheduler does afterwards the same handle never rings again. *)
Theorem alarm_rings_once (s : AlarmService.State) (a : AlarmService.Alarm) :
  AlarmService.reachable s -> In a (AlarmService.activeAlarms s) ->
  let s1 := fst (AlarmService.expire (AlarmService.timerId a) s) in
  snd (AlarmService.expire (AlarmService.timerId a) s)
  = [AlarmService.AlarmRing (AlarmService.label a);
     AlarmService.SpeakAlarm (AlarmService.label a)]
  /\ AlarmService.getActiveAlarms s1
     = filter (fun x => negb (AlarmService.info_id x =? AlarmService.id a))
         (AlarmService.getActiveAlarms s)
  /\ forall ops,
      let s2 := AlarmService.run ops s1 in
      AlarmService.expire (AlarmService.timerId a) s2 = (s2, [])
      /\ ~ In (AlarmService.id a)
             (map AlarmService.info_id (AlarmService.getActiveAlarms s2)).
Proof.
  intros Hr Hin. cbv zeta.
  pose proof (reachable_wellFormed s Hr) as Hw.
  pose proof (reachable_aligned s Hr) as Ha.
  pose proof (retired_after s a Hw Ha Hin) as Hret.
  destruct Hw as (Hid & Hlt & Hh & Hhlt).
  destruct (aligned_timer _ _ a Ha Hin) as (t & Ht & E).
  assert (E1 : AlarmService.handle t = AlarmService.timerId a)
    by (unfold AlarmView.ofAlarm, AlarmView.ofTimer in E; congruence).
  assert (E2 : AlarmService.alarmId t = AlarmService.id a)
    by (unfold AlarmView.ofAlarm, AlarmView.ofTimer in E; congruence).
  assert (E3 : AlarmService.alarmLabel t = AlarmService.label a)
    by (unfold AlarmView.ofAlarm, AlarmView.ofTimer in E; congruence).
  assert (Hexp :
    AlarmService.expire (AlarmService.timerId a) s
    = ({| AlarmService.activeAlarms :=
            AlarmService.removeAlarm (AlarmService.id a) (AlarmService.activeAlarms s);
          AlarmService.nextAlarmId := AlarmService.nextAlarmId s;
          AlarmService.timers :=
            AlarmService.clearTimeout (AlarmService.timerId a) (AlarmService.timers s);
          AlarmService.nextHandle := AlarmService.nextHandle s |},
       [AlarmService.AlarmRing (AlarmService.label a);
        AlarmService.SpeakAlarm (AlarmService.label a)])).
  { unfold AlarmService.expire. rewrite <- E1, (find_pending _ _ Hh Ht).
    unfold AlarmService.onTimer. cbn. now rewrite E2, E3. }
  rewrite Hexp. cbn [fst snd]. split; [reflexivity|]. split.
  - unfold AlarmService.getActiveAlarms. cbn [AlarmService.activeAlarms].
    rewrite removeAlarm_filter by exact Hid. apply getActiveAlarms_filter.
  - intros ops. apply retired_silent. now apply run_retired.
Qed.

Lemma alarm_rings_once_witness :
  let s := AlarmService.run
             [AlarmService.OpSet 0 600000 "Gọi mẹ";
              AlarmService.OpSet 1000 300000 "Uống nước"]
             AlarmService.init in
  snd (AlarmService.expire 2 s)
  = [AlarmService.AlarmRing "Uống nước"; AlarmService.SpeakAlarm "Uống nước"]
  /\ snd (AlarmService.expire 2 (fst (AlarmService.expire 2 s))) = [].
Proof.
  intros s.
  assert (R : AlarmService.reachable s) by (eexists; reflexivity).
  destruct (alarm_rings_once s
              {| AlarmService.id := 2; AlarmService.time := 300000;
                 AlarmService.label := "Uống nước"; AlarmService.timerId := 2 |}
              R (or_intror (or_introl eq_refl))) as (Ring & _ & Never).
  split; [exact Ring|].
  destruct (Never []) as [Silent _]. exact (f_equal snd Silent).
Defined.

(** ** More on the weather lookup *)

Section WeatherFacts.
Import JS Weather.
Context {cm : CaseMapping}.

Lemma prefix_append (p r : string) : prefix p (p ++ r) = true.
Proof.
  induction p as [|c p IH]; [now destruct r|].
  change (String c p ++ r)%string with (String c (p ++ r)).
  cbn [prefix]. destruct (ascii_dec c c) as [_|N]; [exact IH | now contradiction N].
Qed.

Lemma includes_prefix (p r : string) : includes (p ++ r) p = true.
Proof.
  unfold includes. destruct (p ++ r)%string eqn:E.
  - rewrite <- E. now rewrite prefix_append.
  - rewrite <- E at 1. now rewrite prefix_append.
Qed.

(** What [parse] makes of a text: a reading with a number, a condition
    and an emoji, the location-not-found error, or one of the two format
    errors, with the text appended. *)
Lemma parse_outcomes (t : string) :
  (exists w, parse t = Ok w /\ WeatherView.valid w)
  \/ parse t = Throw (error notFound)
  \/ parse t = Throw (error (invalidData ++ ": " ++ t))
  \/ parse t = Throw (error (unexpectedFormat ++ ": " ++ t)).
Proof.
  unfold parse.
  destruct (split ";" t) as [|p0 [|p1 [|p2 [|p3 rest]]]]; auto.
  destruct (String.eqb (toUpperCase p0) "NULL"); auto.
  destruct (isNaN (parseFloat p0)) eqn:N; cbn [orb]; auto.
  destruct (truthy (trim p1)) eqn:C; cbn [orb negb]; auto.
  destruct (truthy (trim p2)) eqn:E; cbn [orb negb]; auto.
  left. eexists. split; [reflexivity|]. repeat split; cbn; assumption.
Qed.

Lemma handler_format (t : string) :
  handler (AnError (error (unexpectedFormat ++ ": " ++ t)))
  = (error cannotRead, [ConsoleError "Lỗi phân tích cú pháp thời tiết:"]).
Proof.
  unfold handler. cbn [message error]. now rewrite includes_prefix.
Qed.

Lemma handler_invalid (t : string) :
  handler (AnError (error (invalidData ++ ": " ++ t)))
  = (error cannotRead, [ConsoleError "Lỗi phân tích cú pháp thời tiết:"]).
Proof.
  unfold handler. cbn [message error]. rewrite (includes_prefix invalidData).
  now rewrite orb_true_r.
Qed.

Lemma handler_notFound :
  handler (AnError (error notFound))
  = (error notFound, [ConsoleError "Lỗi lấy dữ liệu thời tiết:"]).
Proof. reflexivity. Qed.

(** The [catch] clause logs once, and what it throws on never carries
    one of the two internal format phrases. *)
Lemma handler_safe (t : Thrown) :
  includes (message (fst (handler t))) unexpectedFormat = false
  /\ includes (message (fst (handler t))) invalidData = false
  /\ exists msg, snd (handler t) = [ConsoleError msg].
Proof.
  destruct t as [e|]; cbn [handler].
  - destruct (includes (message e) unexpectedFormat
              || includes (message e) invalidData)%bool eqn:G; cbn [fst snd].
    + repeat split; try reflexivity. eexists; reflexivity.
    + apply orb_false_iff in G as [G1 G2]. repeat split; try assumption.
      eexists; reflexivity.
  - repeat split; try reflexivity. eexists; reflexivity.
Qed.

(** The lookup, on a cache miss. *)
Lemma fetch_run latitude longitude now later remote cache :
  WeatherView.miss now cache ->
  getWeatherForLocation latitude longitude now later remote cache
  = match remote latitude longitude with
    | NoApiKey =>
        (Throw (fst (handler (AnError (error noApiKey)))), cache,
         snd (handler (AnError (error noApiKey))))
    | Text responseText =>
        match parse (trim responseText) with
        | Ok result =>
            (Ok result,
             Some {| data := result; expiry := later + WEATHER_CACHE_DURATION |},
             [GenerateContent latitude longitude])
        | Throw e =>
            (Throw (fst (handler (AnError e))), cache,
             GenerateContent latitude longitude :: snd (handler (AnError e)))
        end
    | Fails e =>
        (Throw (fst (handler (AnError e))), cache,
         GenerateContent latitude longitude :: snd (handler (AnError e)))
    | FailsOther =>
        (Throw (fst (handler NotAnError)), cache,
         GenerateContent latitude longitude :: snd (handler NotAnError))
    end.
Proof.
  intros Hmiss. unfold getWeatherForLocation.
  assert (E : match cache with
              | Some entry => (now <? expiry entry) = false
              | None => True
              end).
  { destruct cache as [entry|]; [|exact I]. apply Z.ltb_ge. exact Hmiss. }
  destruct cache as [entry|]; [rewrite E|];
    (destruct (remote latitude longitude) as [|text|e|];
     [ now destruct (handler (AnError (error noApiKey)))
     | destruct (parse (trim text)) as [w|e]; [reflexivity|];
       now destruct (handler (AnError e))
     | now destruct (handler (AnError e))
     | now destruct (handler NotAnError) ]).
Qed.

Lemma hit_or_miss now cache :
  (exists entry, cache = Some entry /\ now < expiry entry)
  \/ WeatherView.miss now cache.
Proof.
  destruct cache as [entry|]; [|now right].
  destruct (Z.lt_ge_cases now (expiry entry)); [left; eauto | now right].
Qed.

Lemma hit_run latitude longitude now later remote entry :
  now < expiry entry ->
  getWeatherForLocation latitude longitude now later remote (Some entry)
  = (Ok (data entry), Some entry, []).
Proof.
  intros H. unfold getWeatherForLocation.
  now replace (now <? expiry entry) with true by (symmetry; now apply Z.ltb_lt).
Qed.

End WeatherFacts.

(** X9.  On a cache miss a text answer has three outcomes and no other. It
    is parsed into a reading with a number for temperature and a condition
    and an emoji that are not empty, which is returned and cached for thirty
    minutes; or the location-not-found error is thrown; or the cannot-read
    error is thrown, whatever the text was.  In the last two cases the cache
    is left as it was and the failure is logged once. *)
Theorem getWeatherForLocation_text_outcomes
  (cm : JS.CaseMapping) (latitude longitude : Q) (now later : Z)
  (responseText : string) (cache : option Weather.CacheEntry) :
  WeatherView.miss now cache ->
  let r := Weather.getWeatherForLocation latitude longitude now later
             (fun _ _ => Weather.Text responseText) cache in
  (exists w,
      r = (Ok w,
           Some {| Weather.data := w;
                   Weather.expiry := later + Weather.WEATHER_CACHE_DURATION |},
           [Weather.GenerateContent latitude longitude])
      /\ Weather.parse (JS.trim responseText) = Ok w
      /\ WeatherView.valid w)
  \/ r = (Throw (Weather.error Weather.notFound), cache,
          [Weather.GenerateContent latitude longitude;
           Weather.ConsoleError "Lỗi lấy dữ liệu thời tiết:"])
  \/ r = (Throw (Weather.error Weather.cannotRead), cache,
          [Weather.GenerateContent latitude longitude;
           Weather.ConsoleError "Lỗi phân tích cú pháp thời tiết:"]).
Proof.
  intros Hmiss r. subst r. rewrite fetch_run by exact Hmiss.
  destruct (parse_outcomes (JS.trim responseText)) as [(w & P & V)|[P|[P|P]]];
    rewrite P.
  - left. exists w. split; [reflexivity | split; [reflexivity | exact V]].
  - right. left. now rewrite handler_notFound.
  - right. right. now rewrite handler_invalid.
  - right. right. now rewrite handler_format.
Qed.

Lemma getWeatherForLocation_text_outcomes_witness :
  WeatherView.miss 1000 None
  /\ fst (fst (@Weather.getWeatherForLocation JS.vietnamese
                 (10762 # 1000) (106660 # 1000) 1000 1200
                 (fun _ _ => Weather.Text "Trời hôm nay đẹp lắm") None))
     = Throw (Weather.error Weather.cannotRead).
Proof.
  split; [exact I|].
  destruct (getWeatherForLocation_text_outcomes JS.vietnamese
              (10762 # 1000) (106660 # 1000) 1000 1200
              "Trời hôm nay đẹp lắm" None I) as [(w & E & _)|[E|E]].
  - vm_compute in E. discriminate E.
  - vm_compute in E. discriminate E.
  - exact (f_equal (fun x => fst (fst x)) E).
Defined.

(** X10.  A lookup that throws has found nothing to serve in the cache,
    leaves the cache as it was, has logged exactly once, after at most one
    request, and the message it throws never carries one of the two internal
    format phrases. *)
Theorem getWeatherForLocation_failure
  (cm : JS.CaseMapping) (latitude longitude : Q) (now later : Z)
  (remote : Q -> Q -> Weather.Remote) (cache cache' : option Weather.CacheEntry)
  (e : JSError) (log : list Weather.Effect) :
  Weather.getWeatherForLocation latitude longitude now later remote cache
  = (Throw e, cache', log) ->
  cache' = cache
  /\ WeatherView.miss now cache
  /\ (exists msg,
        log = [Weather.ConsoleError msg]
        \/ log = [Weather.GenerateContent latitude longitude;
                  Weather.ConsoleError msg])
  /\ JS.includes (message e) Weather.unexpectedFormat = false
  /\ JS.includes (message e) Weather.invalidData = false.
Proof.
  intros H.
  destruct (hit_or_miss now cache) as [(entry & -> & Hlt)|Hmiss].
  { rewrite hit_run in H by exact Hlt. discriminate H. }
  rewrite fetch_run in H by exact Hmiss.
  assert (F : exists t,
             (@Throw Weather.WeatherData e, cache', log)
             = (Throw (fst (Weather.handler t)), cache, snd (Weather.handler t))
             \/ (@Throw Weather.WeatherData e, cache', log)
                = (Throw (fst (Weather.handler t)), cache,
                   Weather.GenerateContent latitude longitude
                     :: snd (Weather.handler t))).
  { destruct (remote latitude longitude) as [|text|e0|].
    - eexists. left. symmetry. exact H.
    - destruct (Weather.parse (JS.trim text)) as [w|e1]; [discriminate|].
      eexists. right. symmetry. exact H.
    - eexists. right. symmetry. exact H.
    - eexists. right. symmetry. exact H. }
  destruct F as (t & Ht).
  destruct (handler_safe t) as (S1 & S2 & msg & L).
  destruct Ht as [Ht|Ht]; injection Ht as -> -> ->; rewrite L;
    repeat split; try assumption; exists msg; auto.
Qed.

Lemma getWeatherForLocation_failure_witness :
  let stale := Some {| Weather.data := {| Weather.temperature := JS.Fin 28;
                                          Weather.condition := "Nắng";
                                          Weather.emoji := "☀️" |};
                       Weather.expiry := 500 |} in
  snd (fst (@Weather.getWeatherForLocation JS.vietnamese
              (10762 # 1000) (106660 # 1000) 1000 1200
              (fun _ _ => Weather.FailsOther) stale)) = stale.
Proof.
  intros stale.
  destruct (@Weather.getWeatherForLocation JS.vietnamese
              (10762 # 1000) (106660 # 1000) 1000 1200
              (fun _ _ => Weather.FailsOther) stale) as [[r c] l] eqn:E.
  destruct r as [w|e]; [vm_compute in E; discriminate E|].
  exact (proj1 (getWeatherForLocation_failure JS.vietnamese _ _ _ _ _ _ _ _ _ E)).
Defined.

(** X11.  The lookup keeps the cache valid and serves only valid readings:
    from a cache that is empty or holds a reading with a number for
    temperature and a condition and an emoji that are not empty, the cache
    after the call is of that kind, and so is the reading returned, fresh or
    cached. *)
Theorem getWeatherForLocation_valid
  (cm : JS.CaseMapping) (latitude longitude : Q) (now later : Z)
  (remote : Q -> Q -> Weather.Remote) (cache : option Weather.CacheEntry) :
  WeatherView.validCache cache ->
  let r := Weather.getWeatherForLocation latitude longitude now later remote cache in
  WeatherView.validCache (snd (fst r))
  /\ forall w, fst (fst r) = Ok w -> WeatherView.valid w.
Proof.
  intros Hvalid r. subst r.
  destruct (hit_or_miss now cache) as [(entry & -> & Hlt)|Hmiss].
  { rewrite hit_run by exact Hlt. cbn [fst snd]. split; [exact Hvalid|].
    intros w E. injection E as <-. exact Hvalid. }
  rewrite fetch_run by exact Hmiss.
  destruct (remote latitude longitude) as [|text|e0|]; cbn [fst snd];
    try (split; [exact Hvalid | discriminate]).
  destruct (parse_outcomes (JS.trim text)) as [(w & P & V)|[P|[P|P]]];
    rewrite P; cbn [fst snd]; try (split; [exact Hvalid | discriminate]).
  split; [exact V|]. intros w' E. injection E as <-. exact V.
Qed.

Lemma getWeatherForLocation_valid_witness :
  WeatherView.validCache None
  /\ WeatherView.validCache
       (snd (fst (@Weather.getWeatherForLocation JS.vietnamese
                    (10762 # 1000) (106660 # 1000) 1000 1200
                    (fun _ _ => Weather.Text "28;Nắng;☀️") None))).
Proof.
  split; [exact I|].
  exact (proj1 (getWeatherForLocation_valid JS.vietnamese
                  (10762 # 1000) (106660 # 1000) 1000 1200
                  (fun _ _ => Weather.Text "28;Nắng;☀️") None I)).
Defined.

(** ** More on the live session *)

Section RunFacts.
Import JS Live.
Context {cm : CaseMapping}.

(** The first step of the teardown closes the transport or throws; what
    follows never opens one. *)
Lemma stop_sessionless fails userName :
  preserves (fun s => session s = None) (stopLiveSession fails userName).
Proof. judge. all: intros [] H; cbn in *; auto. Qed.

Lemma stop_session fails userName s :
  let r := stopLiveSession fails userName s in
  session (stateOf r) = None \/ stateOf r = s.
Proof.
  cbv zeta. destruct (session s) as [h|] eqn:S.
  - destruct (fails SessionClose) as [e|] eqn:F.
    + right. unfold stopLiveSession, release. rewrite bind_run. unfold get at 1.
      cbv beta iota. rewrite S, F. reflexivity.
    + left. unfold stopLiveSession, release. rewrite F.
      rewrite bind_run. unfold get at 1.
      cbv beta iota. rewrite S. cbn [isSome when].
      match goal with
      | |- session (stateOf (_, stateOf (bind ?first ?rest s), _)) = None =>
          assert (R : forall a, preserves (fun s => session s = None) (rest a))
            by (intros a; judge; intros [] H; cbn in *; auto);
          generalize dependent rest
      end.
      intros rest R. unfold stateOf at 1. cbn [fst snd].
      rewrite bind_run. unfold_monad. cbn [fst snd].
      apply (R tt). now destruct s.
  - left. now apply stop_sessionless.
Qed.

End RunFacts.

Section HeldFacts.
Import JS Live LiveView.
Context {cm : CaseMapping}.

Lemma frame_held {A} (h : M A) :
  (forall a b c d e,
      preserves (fun s => session s = a /\ microphoneStream s = b
                          /\ scriptProcessor s = c /\ inputAudioContext s = d
                          /\ outputAudioContext s = e) h) ->
  preserves held h.
Proof.
  intros F s Hs.
  destruct (F _ _ _ _ _ s (conj eq_refl (conj eq_refl (conj eq_refl
                             (conj eq_refl eq_refl)))))
    as (E1 & E2 & E3 & E4 & E5).
  unfold held. rewrite E1, E2, E3, E4, E5. exact Hs.
Qed.

Lemma onmessage_held env m : preserves held (onmessage env m).
Proof.
  apply frame_held. intros a b c d e.
  apply onmessage_preserves; judge; intros [] H; exact H.
Qed.

Lemma stop_held fails userName : preserves held (stopLiveSession fails userName).
Proof.
  intros s Hs. destruct (stop_session fails userName s) as [E|E].
  - intros C. now contradiction C.
  - now rewrite E.
Qed.

Lemma start_held fails o :
  opensCleanly (Start fails o) = true ->
  preserves held (startLiveSession fails o).
Proof.
  intros Hclean. unfold startLiveSession.
  pose proof (stop_sessionless fails None) as P. revert P.
  generalize (stopLiveSession fails None). intros stop P s Hs.
  rewrite bind_run. unfold get at 1.
  cbv beta iota. destruct (isSome (session s)) eqn:S; [exact Hs|].
  destruct o as [mic inCtx outCtx processor sess | | msg | mic inCtx outCtx msg
                 | mic inCtx outCtx processor sess msg];
    [| | | |discriminate Hclean].
  - unfold held. destruct s. cbn. repeat split; discriminate.
  - exact Hs.
  - unfold_monad. cbn.
    match goal with
    | |- context [stop ?s0] =>
        specialize (P s0); destruct (stop s0) as [[r1 s1] t1]
    end.
    cbn [fst snd] in *. intros C. contradiction C. apply P.
    destruct s as [[h|]]; [discriminate S | reflexivity].
  - unfold_monad. cbn.
    match goal with
    | |- context [stop ?s0] =>
        specialize (P s0); destruct (stop s0) as [[r1 s1] t1]
    end.
    cbn [fst snd] in *. intros C. contradiction C. apply P.
    destruct s as [[h|]]; [discriminate S | reflexivity].
Qed.

Lemma handle_held e : opensCleanly e = true -> preserves held (handle e).
Proof.
  destruct e as [fails o | env m | n | | | fails | | fails userName];
    cbn [handle]; intros Hclean.
  - now apply start_held.
  - apply onmessage_held.
  - apply frame_held. intros. judge. intros [] H; exact H.
  - apply frame_held. intros. judge.
  - apply frame_held. intros. judge. intros [] H; exact H.
  - unfold onerror. apply preserves_bind; [apply preserves_emit | intros _].
    apply preserves_detached, stop_held.
  - apply frame_held. intros. judge.
  - apply stop_held.
Qed.

Lemma runEvents_held es :
  forallb opensCleanly es = true ->
  forall s, held s -> held (fst (runEvents es s)).
Proof.
  induction es as [|e es IH]; intros Hes s Hs; [exact Hs|].
  cbn [forallb] in Hes. apply andb_true_iff in Hes as [He Hes].
  cbn [runEvents]. pose proof (handle_held e He s Hs) as H1.
  unfold stateOf in H1. destruct (handle e s) as [[r1 s1] t1]. cbn in H1.
  specialize (IH Hes s1 H1). destruct (runEvents es s1) as [s2 t2]. exact IH.
Qed.

(** A start whose [onopen] callback throws: the teardown that its catch
    clause runs comes before the session is assigned. *)
Lemma start_openFailed_run fails mic inCtx outCtx processor sess msg s :
  session s = None ->
  (forall r, fails r = None) ->
  let s1 := stateOf (startLiveSession fails
                       (OpenFailed mic inCtx outCtx processor sess msg) s) in
  session s1 = Some sess /\ stopped (set_session None s1).
Proof.
  intros S Hf. cbv zeta. unfold startLiveSession.
  pose proof (fun s0 => stop_run_clean fails None s0 Hf) as R. revert R.
  generalize (stopLiveSession fails None). intros stop R.
  rewrite bind_run. unfold get at 1. cbv beta iota. rewrite S. cbn [isSome].
  destruct s as [se ic oc mi sp ? ? ? ? ? ? ? ? ?]. cbn in S. subst se.
  destruct processor; unfold_monad; cbn; rewrite R; cbn; repeat split.
Qed.

End HeldFacts.

(** X12.  While a session is open the microphone stream, the script
    processor and the two audio contexts are held, in every state reached
    through events whose starts open cleanly (the [onopen] callback does
    not throw): starts, messages, ended sources, settle timers, wake-ups,
    transport errors and closes, and stops, failing or not.  A start whose
    [onopen] callback throws breaks this: its catch clause runs the
    teardown before the session is assigned, so that, when no release
    throws, it leaves a session open with the stream, the processor and
    the two contexts released. *)
Theorem session_holds_resources (cm : JS.CaseMapping) (es : list Live.Event) :
  forallb LiveView.opensCleanly es = true ->
  let s := fst (Live.runEvents es Live.init) in
  (Live.session s <> None ->
   Live.microphoneStream s <> None /\ Live.scriptProcessor s <> None
   /\ Live.inputAudioContext s <> None /\ Live.outputAudioContext s <> None)
  /\ forall fails mic inCtx outCtx processor sess msg,
       Live.session s = None ->
       (forall r, fails r = None) ->
       let s1 := Live.stateOf
                   (Live.startLiveSession fails
                      (Live.OpenFailed mic inCtx outCtx processor sess msg) s) in
       Live.session s1 = Some sess
       /\ Live.microphoneStream s1 = None /\ Live.scriptProcessor s1 = None
       /\ Live.inputAudioContext s1 = None /\ Live.outputAudioContext s1 = None.
Proof.
  intros Hes. cbv zeta. split.
  - apply (runEvents_held es Hes). intros C. now contradiction C.
  - intros fails mic inCtx outCtx processor sess msg S Hf.
    destruct (start_openFailed_run fails mic inCtx outCtx processor sess msg _ S Hf)
      as [E (_ & H2 & H3 & H4 & H5 & _)].
    split; [exact E|].
    destruct (Live.stateOf _); cbn in *. now repeat split.
Qed.

Lemma session_holds_resources_witness :
  let es := [Live.Start Examples.noFail
               (Live.Started 1%nat 2%nat 3%nat 4%nat 5%nat);
             Live.Message Examples.env0 (Examples.heard "xin chào")] in
  let s := fst (@Live.runEvents JS.vietnamese es Live.init) in
  forallb LiveView.opensCleanly es = true
  /\ Live.microphoneStream s <> None
  /\ Live.outputAudioContext s <> None
  /\ Live.microphoneStream
       (Live.stateOf
          (Live.startLiveSession Examples.noFail
             (Live.OpenFailed 1%nat 2%nat 3%nat (Some 4%nat) 5%nat "lỗi")
             Live.init)) = None.
Proof.
  intros es s.
  assert (Hes : forallb LiveView.opensCleanly es = true) by reflexivity.
  split; [exact Hes|].
  destruct (session_holds_resources JS.vietnamese es Hes) as [Held _].
  destruct (session_holds_resources JS.vietnamese [] eq_refl) as [_ Failed].
  destruct (Held ltac:(discriminate)) as (M & _ & _ & O).
  split; [exact M|]. split; [exact O|].
  exact (proj1 (proj2 (Failed Examples.noFail 1%nat 2%nat 3%nat (Some 4%nat)
                         5%nat "lỗi" eq_refl (fun _ => eq_refl)))).
Defined.

Section RestingFacts.
Import JS Live LiveView.
Context {cm : CaseMapping}.

Ltac resting_step :=
  intros [] H; unfold restingQuietly in *; cbn in *;
  first [ exact H | intros C; discriminate C | intros _; reflexivity ].

Lemma handleAudio_resting env m pending :
  preserves restingQuietly (handleAudio env m pending).
Proof.
  intros s Hs. rewrite handleAudio_run. cbv zeta.
  destruct (audioData m) as [data|e0]; [|exact Hs].
  destruct (optTruthy data && isSome (outputAudioContext s)
            && negb (isSuspended s))%bool eqn:G; [|exact Hs].
  apply andb_true_iff in G as [_ G]. apply negb_true_iff in G.
  assert (Hawake : forall s', isSuspended s' = false -> restingQuietly s')
    by (intros s' E C; congruence).
  destruct (Codec.decode _) as [bytes|e];
    [destruct (Codec.decodeAudioData bytes 24000 1) as [buffer|e]|];
    apply Hawake; unfold stateOf; cbn [fst snd];
    destruct s as [? ? ? ? ? sp ? ? ? ? ? ? ? ?]; destruct sp; exact G.
Qed.

(** Whatever the turn was, the speaking flag is off at its end. *)
Lemma handleTurnComplete_quiet s :
  isSpeaking (stateOf (handleTurnComplete s)) = false.
Proof.
  unfold handleTurnComplete. destruct s. unfold_monad. cbn.
  repeat (break_if; cbn); reflexivity.
Qed.

Lemma handleTurnComplete_resting : preserves restingQuietly handleTurnComplete.
Proof. intros s _ _. apply handleTurnComplete_quiet. Qed.

Lemma deltas_resting env m : preserves restingQuietly (deltas env m).
Proof.
  unfold deltas.
  apply preserves_bind; [judge; resting_step | intros p1].
  apply preserves_bind; [apply handleAudio_resting | intros p2].
  apply preserves_bind; [judge; resting_step | intros _].
  judge; resting_step.
Qed.

Lemma onmessage_resting env m : preserves restingQuietly (onmessage env m).
Proof.
  apply onmessage_preserves;
    [ judge; resting_step | intros pending; apply handleAudio_resting
    | judge; resting_step
    | judge; resting_step | judge; resting_step
    | apply handleTurnComplete_resting ].
Qed.

Lemma stop_resting fails userName :
  preserves restingQuietly (stopLiveSession fails userName).
Proof. judge; resting_step. Qed.

Lemma start_resting fails o : preserves restingQuietly (startLiveSession fails o).
Proof.
  unfold startLiveSession.
  pose proof (stop_resting fails None) as P. revert P.
  generalize (stopLiveSession fails None). intros stop P.
  judge; try resting_step; exact P.
Qed.

Lemma handle_resting e : preserves restingQuietly (handle e).
Proof.
  destruct e as [fails o | env m | n | | | fails | | fails userName];
    cbn [handle].
  - apply start_resting.
  - apply onmessage_resting.
  - judge; resting_step.
  - judge.
  - judge; resting_step.
  - unfold onerror. apply preserves_bind; [apply preserves_emit | intros _].
    apply preserves_detached, stop_resting.
  - judge.
  - apply stop_resting.
Qed.

Lemma reachable_resting s : reachable s -> restingQuietly s.
Proof.
  apply reachable_preserves; [|apply handle_resting].
  intros C. discriminate C.
Qed.

End RestingFacts.

(** X13.  The microphone is shared by halves: in every reachable state a
    resting session is not marked as speaking, so [onaudioprocess] sends
    every frame (the wake phrase can be heard), and after any message with a
    turn-complete event that [onmessage] has handled without throwing the
    capture is open again. *)
Theorem capture_open_while_resting
  (cm : JS.CaseMapping) (s : Live.State) (inputData : list Q) :
  Live.reachable s ->
  (Live.isSuspended s = true ->
   Capture.onaudioprocess s inputData = Some (Codec.createBlob inputData))
  /\ (forall env m,
        Live.turnComplete m = true ->
        Live.resultOf (Live.onmessage env m s) = Ok tt ->
        Capture.onaudioprocess (Live.stateOf (Live.onmessage env m s)) inputData
        = Some (Codec.createBlob inputData)).
Proof.
  intros Hr. pose proof (reachable_resting s Hr) as Hq.
  unfold Capture.onaudioprocess. split.
  - intros Hs. now rewrite (Hq Hs).
  - intros env m Ht Hok.
    assert (Hoff : Live.isSpeaking (Live.stateOf (Live.onmessage env m s)) = false);
      [|now rewrite Hoff].
    revert Hok. rewrite onmessage_run.
    pose proof (deltas_resting env m s Hq) as Hd. unfold Live.stateOf in Hd.
    destruct (Live.deltas env m s) as [[[pending|e] s4] t4]; cbn [fst snd] in Hd;
      [|discriminate].
    destruct (Live.isSuspended s4) eqn:S4; intros _.
    + now apply Hd.
    + unfold Live.stateOf at 1. cbn [fst snd].
      unfold Live.boundaries. rewrite Ht, bind_run. cbn [Live.when].
      pose proof (total_unit (Live.when (Live.interrupted m) Live.handleInterrupted)
                    s4 (total_when _ _ handleInterrupted_total)) as T.
      unfold Live.resultOf in T.
      destruct (Live.when (Live.interrupted m) Live.handleInterrupted s4)
        as [[r s5] t5].
      cbn [fst snd] in T. subst r.
      unfold Live.stateOf at 1. cbn [fst snd].
      apply handleTurnComplete_quiet.
Qed.

Lemma capture_open_while_resting_witness :
  let s := fst (@Live.runEvents JS.vietnamese
                  [Live.Start Examples.noFail (Live.Started 1%nat 2%nat 3%nat 4%nat 5%nat);
                   Live.Message Examples.env0 (Examples.heard "tạm biệt nhé");
                   Live.Message Examples.env0 Examples.turnCompleted]
                  Live.init) in
  Live.isSuspended s = true
  /\ Capture.onaudioprocess s [1 # 2; (-1) # 4]%Q
     = Some (Codec.createBlob [1 # 2; (-1) # 4]%Q).
Proof.
  intros s.
  assert (R : @Live.reachable JS.vietnamese s) by (eexists; reflexivity).
  assert (S : Live.isSuspended s = true) by reflexivity.
  split; [exact S|].
  exact (proj1 (capture_open_while_resting JS.vietnamese s [1 # 2; (-1) # 4]%Q R) S).
Defined.

Section HistoryFacts.
Import JS Live LiveView.
Context {cm : CaseMapping}.

Lemma histories_app t1 t2 : histories (t1 ++ t2) = histories t1 ++ histories t2.
Proof. unfold histories. apply flat_map_app. Qed.

Lemma histories_none t :
  Forall (fun e => isHistory e = false) t -> histories t = [].
Proof.
  induction 1 as [|e t He _ IH]; [reflexivity|].
  unfold histories in *. cbn [flat_map]. rewrite IH.
  destruct e; try reflexivity. discriminate He.
Qed.

Lemma turnEntries_shape s :
  (List.length (turnEntries s) <= 2)%nat
  /\ Forall (fun c => truthy (text c) = true) (turnEntries s).
Proof.
  unfold turnEntries.
  destruct (truthy (toLowerCase (trim (currentInputTranscription s)))) eqn:I,
           (truthy (trim (currentOutputTranscription s))) eqn:O;
    cbn; split; try lia; repeat constructor; assumption.
Qed.

(** The history part of the turn-complete block. *)
Lemma handleTurnComplete_history s :
  conversationHistory (stateOf (handleTurnComplete s))
  = conversationHistory s ++ turnEntries s
  /\ histories (traceOf (handleTurnComplete s))
     = match turnEntries s with
       | [] => []
       | _ => [conversationHistory s ++ turnEntries s]
       end.
Proof.
  unfold handleTurnComplete, turnEntries. destruct s. unfold_monad. cbn.
  destruct (truthy (toLowerCase (trim currentInputTranscription0))),
           (truthy (trim currentOutputTranscription0));
    cbn; repeat (break_if; cbn);
    rewrite <- ?app_assoc, ?app_nil_r; split; reflexivity.
Qed.

Lemma handleTurnComplete_wellSpoken : preserves wellSpoken handleTurnComplete.
Proof.
  intros s Hs. unfold wellSpoken.
  rewrite (proj1 (handleTurnComplete_history s)).
  apply Forall_app. split; [exact Hs | apply turnEntries_shape].
Qed.

Ltac history_step :=
  intros [] H; unfold wellSpoken in *; cbn in *; first [exact H | constructor].

Lemma stop_wellSpoken fails userName :
  preserves wellSpoken (stopLiveSession fails userName).
Proof. judge; history_step. Qed.

Lemma start_wellSpoken fails o : preserves wellSpoken (startLiveSession fails o).
Proof.
  unfold startLiveSession.
  pose proof (stop_wellSpoken fails None) as P. revert P.
  generalize (stopLiveSession fails None). intros stop P.
  judge; try history_step; exact P.
Qed.

Lemma handle_wellSpoken e : preserves wellSpoken (handle e).
Proof.
  destruct e as [fails o | env m | n | | | fails | | fails userName];
    cbn [handle].
  - apply start_wellSpoken.
  - apply onmessage_preserves;
      [ judge; history_step | intros pending; judge; history_step
      | judge; history_step
      | judge; history_step | judge; history_step
      | apply handleTurnComplete_wellSpoken ].
  - judge; history_step.
  - judge.
  - judge; history_step.
  - unfold onerror. apply preserves_bind; [apply preserves_emit | intros _].
    apply preserves_detached, stop_wellSpoken.
  - judge.
  - apply stop_wellSpoken.
Qed.

(** Before the turn-complete block nothing touches the history. *)
Lemma deltas_history env m h :
  preserves (fun s => conversationHistory s = h) (deltas env m).
Proof. judge; intros [] H; exact H. Qed.

Lemma tools_unpublished t :
  tools t -> Forall (fun e => isHistory e = false) t.
Proof.
  apply Forall_impl. intros e H.
  destruct e; try reflexivity; discriminate H.
Qed.

Lemma deltas_unpublished env m :
  emits (fun e => isHistory e = false) (deltas env m).
Proof.
  intros s. apply deltas_emits; try reflexivity.
  intros e H. destruct e; try reflexivity; discriminate H.
Qed.

Lemma handleInterrupted_history h :
  preserves (fun s => conversationHistory s = h) handleInterrupted.
Proof. judge; intros [] H; exact H. Qed.

Lemma handleInterrupted_unpublished :
  emits (fun e => isHistory e = false) handleInterrupted.
Proof. judge; reflexivity. Qed.

End HistoryFacts.

(** X14.  In every reachable state no entry of the conversation history has
    an empty text. *)
Theorem history_entries_not_empty (cm : JS.CaseMapping) (s : Live.State) :
  Live.reachable s ->
  Forall (fun c => JS.truthy (Live.text c) = true) (Live.conversationHistory s).
Proof.
  revert s. change (forall s, Live.reachable s -> LiveView.wellSpoken s).
  apply reachable_preserves; [constructor | apply handle_wellSpoken].
Qed.

Lemma history_entries_not_empty_witness :
  Forall (fun c => JS.truthy (Live.text c) = true)
    (Live.conversationHistory
       (fst (@Live.runEvents JS.vietnamese
               [Live.Start Examples.noFail (Live.Started 1%nat 2%nat 3%nat 4%nat 5%nat);
                Live.Message Examples.env0 (Examples.heard "  Xin chào  ");
                Live.Message Examples.env0 Examples.turnCompleted]
               Live.init))).
Proof.
  apply (history_entries_not_empty JS.vietnamese). eexists. reflexivity.
Defined.

(** X15.  One message and the history: [onmessage] only appends, at most two
    entries and none of them empty; it hands the history to the UI exactly
    once when it has appended something, and then the whole history as it is
    after the message, and never otherwise; and only a turn-complete event
    appends. *)
Theorem onmessage_history (cm : JS.CaseMapping)
  (env : Live.Env) (m : Live.LiveServerMessage) (s : Live.State) :
  let r := Live.onmessage env m s in
  exists added,
    Live.conversationHistory (Live.stateOf r) = Live.conversationHistory s ++ added
    /\ (List.length added <= 2)%nat
    /\ Forall (fun c => JS.truthy (Live.text c) = true) added
    /\ LiveView.histories (Live.traceOf r)
       = match added with
         | [] => []
         | _ => [Live.conversationHistory (Live.stateOf r)]
         end
    /\ (added <> [] -> Live.turnComplete m = true).
Proof.
  cbv zeta. rewrite onmessage_run.
  pose proof (deltas_history env m _ s eq_refl) as Hh.
  pose proof (deltas_unpublished env m s) as Hu.
  pose proof (tools_unpublished _ (deltas_pending env m s)) as Hp.
  unfold Live.pendingOf, Live.resultOf, Live.stateOf, Live.traceOf in Hh, Hu, Hp.
  destruct (Live.deltas env m s) as [[[pending|e] s4] t4];
    cbn [fst snd] in Hh, Hu, Hp.
  2:{ exists []. project.
      rewrite Hh, app_nil_r, (histories_none _ Hu).
      repeat split; auto; congruence. }
  destruct (Live.isSuspended s4).
  { exists []. project.
    rewrite Hh, app_nil_r, histories_app, (histories_none _ Hu),
      (histories_none _ Hp).
    repeat split; auto; congruence. }
  project. rewrite !histories_app, (histories_none _ Hu), (histories_none _ Hp).
  rewrite app_nil_r. cbn [app].
  unfold Live.boundaries. rewrite bind_run.
  pose proof (total_unit (Live.when (Live.interrupted m) Live.handleInterrupted)
                s4 (total_when _ _ handleInterrupted_total)) as T.
  pose proof (preserves_when _ (Live.interrupted m) _
                (handleInterrupted_history _) s4 Hh) as Hh5.
  pose proof (emits_when _ (Live.interrupted m) _
                handleInterrupted_unpublished s4) as Hu5.
  unfold Live.resultOf, Live.stateOf, Live.traceOf in T, Hh5, Hu5.
  destruct (Live.when (Live.interrupted m) Live.handleInterrupted s4)
    as [[r5 s5] t5].
  cbn [fst snd] in T, Hh5, Hu5. subst r5.
  project. rewrite histories_app, (histories_none _ Hu5). cbn [app].
  destruct (Live.turnComplete m); cbn [Live.when].
  - destruct (handleTurnComplete_history s5) as [E1 E2].
    destruct (turnEntries_shape s5) as [L F].
    exists (LiveView.turnEntries s5). rewrite E1, E2, Hh5.
    repeat split; auto.
  - exists []. unfold Live.ret. project.
    rewrite Hh5, app_nil_r. repeat split; auto; congruence.
Qed.

Section NodeFacts.
Import JS Live LiveView.
Context {cm : CaseMapping}.

(** Dropping sources keeps the remaining nodes distinct. *)
Lemma filter_nodes_distinct (keep : Source -> bool) (sources : list Source) :
  NoDup (map node sources) -> NoDup (map node (filter keep sources)).
Proof.
  intros Hd. induction sources as [|x rest IH]; [exact Hd|].
  cbn [map] in Hd. apply NoDup_cons_iff in Hd as [Hx Hrest].
  cbn [filter]. destruct (keep x); [|exact (IH Hrest)].
  cbn [map]. apply NoDup_cons; [|exact (IH Hrest)].
  rewrite in_map_iff. intros (y & Ey & Hy). apply Hx.
  apply filter_In in Hy as [Hy _]. rewrite <- Ey. now apply in_map.
Qed.

Lemma filter_node_one (l : list Source) (x : Source) :
  NoDup (map node l) -> In x l ->
  S (List.length (filter (fun y => negb (Nat.eqb (node y) (node x))) l))
  = List.length l.
Proof.
  induction l as [|a l IH]; cbn; intros Hd Hin; [tauto|].
  inversion Hd as [|? ? Hn Hd']; subst.
  destruct Hin as [->|Hin].
  - rewrite Nat.eqb_refl. cbn. f_equal. f_equal.
    apply filter_all, Forall_forall. intros y Hy.
    apply negb_true_iff, Nat.eqb_neq. intros C. apply Hn. rewrite <- C.
    now apply in_map.
  - destruct (Nat.eqb (node a) (node x)) eqn:E.
    + apply Nat.eqb_eq in E. exfalso. apply Hn. rewrite E. now apply in_map.
    + cbn. f_equal. now apply IH.
Qed.

Ltac nodes_step :=
  intros [] [H1 H2]; split; cbn in *; first [assumption | constructor].

Lemma handleAudio_nodes env m pending :
  preserves distinctNodes (handleAudio env m pending).
Proof.
  intros s [Hd Hb]. rewrite handleAudio_run. cbv zeta.
  destruct (audioData m) as [data|e0]; [|now split].
  destruct (_ && _ && _)%bool; [|now split].
  assert (Hspeak : distinctNodes (if isSpeaking s then s else set_isSpeaking true s)).
  { destruct (isSpeaking s); [now split|]. destruct s; now split. }
  destruct (Codec.decode _) as [bytes|e]; [|exact Hspeak].
  destruct (Codec.decodeAudioData bytes 24000 1) as [buffer|e]; [|exact Hspeak].
  project.
  assert (Hnew : forall s0,
             distinctNodes
               (set_audioSources
                  (audioSources s
                     ++ [{| node := nodeCounter s;
                            startTime := Qmax (nextStartTime s) (currentTime env);
                            duration := Codec.duration buffer |}])
                  (set_nextStartTime
                     (Qmax (nextStartTime s) (currentTime env) + Codec.duration buffer)%Q
                     (set_nodeCounter (S (nodeCounter s)) s0)))).
  { intros s0. unfold distinctNodes. destruct s0. cbn [audioSources nodeCounter
      set_audioSources set_nextStartTime set_nodeCounter]. split.
    - rewrite map_app. cbn [map node]. apply NoDup_app; [exact Hd | |].
      + repeat constructor. cbn. tauto.
      + intros n Hn [<-|[]]. apply in_map_iff in Hn as (y & Hy & Hin).
        rewrite Forall_forall in Hb. specialize (Hb y Hin). lia.
    - apply Forall_app. split.
      + eapply Forall_impl; [|exact Hb]. cbn. intros; lia.
      + constructor; [cbn; lia | constructor]. }
  destruct (isSpeaking s); apply Hnew.
Qed.

Lemma onended_nodes n : preserves distinctNodes (onended n).
Proof.
  intros [? ? ? ? ? ? ? src ? ? ? ? ? ?] [Hd Hb]. split; cbn in *.
  - now apply filter_nodes_distinct.
  - rewrite Forall_forall in *. intros x Hx. apply Hb. now apply filter_In in Hx.
Qed.

Lemma stop_nodes fails userName :
  preserves distinctNodes (stopLiveSession fails userName).
Proof. judge; nodes_step. Qed.

Lemma start_nodes fails o : preserves distinctNodes (startLiveSession fails o).
Proof.
  unfold startLiveSession.
  pose proof (stop_nodes fails None) as P. revert P.
  generalize (stopLiveSession fails None). intros stop P.
  judge; try nodes_step; exact P.
Qed.

Lemma handle_nodes e : preserves distinctNodes (handle e).
Proof.
  destruct e as [fails o | env m | n | | | fails | | fails userName];
    cbn [handle].
  - apply start_nodes.
  - apply onmessage_preserves;
      [ judge; nodes_step | intros pending; apply handleAudio_nodes
      | judge; nodes_step
      | judge; nodes_step | judge; nodes_step | judge; nodes_step ].
  - apply onended_nodes.
  - judge.
  - judge; nodes_step.
  - unfold onerror. apply preserves_bind; [apply preserves_emit | intros _].
    apply preserves_detached, stop_nodes.
  - judge.
  - apply stop_nodes.
Qed.

End NodeFacts.

(** X16.  In every reachable state the tracked sources are distinct nodes,
    all older than the next node; so the end of a tracked source removes
    that source and no other from the tracked set. *)
Theorem tracked_nodes_distinct (cm : JS.CaseMapping) (s : Live.State) :
  Live.reachable s ->
  NoDup (map Live.node (Live.audioSources s))
  /\ Forall (fun x => (Live.node x < Live.nodeCounter s)%nat) (Live.audioSources s)
  /\ forall x, In x (Live.audioSources s) ->
       let s' := Live.stateOf (Live.onended (Live.node x) s) in
       ~ In x (Live.audioSources s')
       /\ S (List.length (Live.audioSources s')) = List.length (Live.audioSources s)
       /\ forall y, In y (Live.audioSources s) -> y <> x ->
                    In y (Live.audioSources s').
Proof.
  intros Hr.
  assert (H : LiveView.distinctNodes s).
  { revert s Hr. apply reachable_preserves; [|apply handle_nodes].
    split; cbn; constructor. }
  destruct H as [Hd Hb]. split; [exact Hd|]. split; [exact Hb|].
  intros x Hx. cbv zeta.
  assert (E : Live.audioSources (Live.stateOf (Live.onended (Live.node x) s))
              = filter (fun y => negb (Nat.eqb (Live.node y) (Live.node x)))
                  (Live.audioSources s)) by now destruct s.
  rewrite E. split; [|split].
  - intros C. apply filter_In in C as [_ C]. now rewrite Nat.eqb_refl in C.
  - now apply filter_node_one.
  - intros y Hy Hne. apply filter_In. split; [exact Hy|].
    apply negb_true_iff, Nat.eqb_neq. intros C. apply Hne.
    now apply (NoDup_map_eq Live.node (Live.audioSources s)).
Qed.

Lemma tracked_nodes_distinct_witness :
  let s := fst (@Live.runEvents JS.vietnamese
                  [Live.Start Examples.noFail (Live.Started 1%nat 2%nat 3%nat 4%nat 5%nat);
                   Live.Message (Examples.at_ (1 # 10)) (Examples.audio "AAAAAAAA");
                   Live.Message (Examples.at_ (1 # 10)) (Examples.audio "AAAAAAAA")]
                  Live.init) in
  map Live.node (Live.audioSources s) = [0%nat; 1%nat]
  /\ NoDup (map Live.node (Live.audioSources s)).
Proof.
  intros s.
  assert (R : @Live.reachable JS.vietnamese s) by (eexists; reflexivity).
  split; [reflexivity|].
  exact (proj1 (tracked_nodes_distinct JS.vietnamese s R)).
Defined.

Section ToolFacts.
Import JS Live LiveView.
Context {cm : CaseMapping}.

Lemma responses_app t1 t2 : responses (t1 ++ t2) = responses t1 ++ responses t2.
Proof. unfold responses. apply flat_map_app. Qed.

Lemma responses_none t :
  Forall (fun e => isResponse e = false) t -> responses t = [].
Proof.
  induction 1 as [|e t He _ IH]; [reflexivity|].
  unfold responses in *. cbn [flat_map]. rewrite IH.
  destruct e; try reflexivity. discriminate He.
Qed.

Lemma responses_length t :
  List.length (responses t) = List.length (filter isResponse t).
Proof.
  induction t as [|e t IH]; [reflexivity|].
  unfold responses in *. cbn [filter flat_map].
  destruct e; cbn [isResponse app List.length]; now rewrite IH.
Qed.

Ltac run_call :=
  rewrite ?throwAfter_run, ?bind_run; unfold_monad; cbn [fst snd app];
  rewrite ?flush_run, ?throwAfter_run; cbn [fst snd app isOk negb andb];
  rewrite ?app_nil_r, ?responses_app; unfold responses; cbn [flat_map app];
  rewrite ?app_nil_r.

(** One function call.  Only the deep-sleep tool touches the state; the
    answer joins the answers that are pending, unless the loop is left at
    this call, and no answer is lost or sent twice. *)
Lemma handleFunctionCall_run env pending fc s :
  let r := handleFunctionCall env pending fc s in
  stateOf r = (if negb (throwing env fc) && isDeepSleepCall fc
               then set_deepSleepRequested true s else s)
  /\ responses (traceOf r) ++ responses (pendingOf r)
     = responses pending
         ++ (if throwing env fc then [] else [(fc_id fc, fc_name fc)])
  /\ isOk (resultOf r) = negb (throwing env fc)
  /\ forall e, resultOf r = Throw e -> In e toolErrors.
Proof.
  cbv zeta.
  unfold handleFunctionCall, throwing, isDeepSleepCall, performGoogleSearch,
    pendingOf, format, toolErrors.
  destruct (String.eqb (fc_name fc) "search_internet") eqn:N1.
  { apply String.eqb_eq in N1. rewrite N1.
    change (String.eqb "search_internet" "enter_deep_sleep") with false.
    rewrite andb_false_r.
    destruct (fc_args fc) as [args|]; [destruct (optTruthy (arg_query args))|];
      run_call; repeat split; try reflexivity; try discriminate.
    intros e He. injection He as <-. cbn. auto. }
  destruct (String.eqb (fc_name fc) "set_reminder") eqn:N2.
  { apply String.eqb_eq in N2. rewrite N2.
    change (String.eqb "set_reminder" "enter_deep_sleep") with false.
    rewrite andb_false_r.
    destruct (fc_args fc) as [args|];
      [destruct (optTruthy (arg_label args));
       [destruct (arg_delay_minutes args) as [d|];
        [destruct (newDate (now env) d)|]|]|];
      run_call; repeat split; try reflexivity; try discriminate;
      intros e He; injection He as <-; cbn; auto. }
  destruct (String.eqb (fc_name fc) "enter_deep_sleep");
    run_call; repeat split; try reflexivity; discriminate.
Qed.

Lemma handleFunctionCalls_run env calls :
  forall pending s,
    let r := handleFunctionCalls env calls pending s in
    stateOf r = (if existsb isDeepSleepCall (handled env calls)
                 then set_deepSleepRequested true s else s)
    /\ responses (traceOf r) ++ responses (pendingOf r)
       = responses pending ++ called (handled env calls)
    /\ isOk (resultOf r) = negb (existsb (throwing env) calls)
    /\ forall e, resultOf r = Throw e -> In e toolErrors.
Proof.
  induction calls as [|fc l IH]; intros pending s; cbv zeta;
    cbn [handleFunctionCalls handled existsb].
  - unfold pendingOf, ret. project. cbn. rewrite app_nil_r.
    repeat split; try reflexivity. discriminate.
  - destruct (handleFunctionCall_run env pending fc s) as (S1 & R1 & O1 & E1).
    rewrite bind_run. unfold pendingOf in *.
    unfold resultOf, stateOf, traceOf in S1, R1, O1, E1.
    destruct (handleFunctionCall env pending fc s) as [[[p|e] s1] t1];
      cbn [fst snd isOk] in S1, R1, O1, E1.
    + assert (T : throwing env fc = false)
        by (destruct (throwing env fc); [discriminate O1 | reflexivity]).
      rewrite T in *. cbn [negb andb orb] in *.
      destruct (IH p s1) as (S2 & R2 & O2 & E2). cbv zeta in *.
      unfold pendingOf in *. project.
      split; [|split; [|split]].
      * rewrite S2, S1. cbn [existsb].
        destruct (isDeepSleepCall fc), (existsb isDeepSleepCall (handled env l));
          cbn [orb]; reflexivity.
      * rewrite responses_app, <- app_assoc, R2, app_assoc, R1.
        unfold called. cbn [map]. now rewrite <- app_assoc.
      * exact O2.
      * exact E2.
    + assert (T : throwing env fc = true)
        by (destruct (throwing env fc); [reflexivity | discriminate O1]).
      rewrite T in *. cbn [negb andb orb] in *. project.
      split; [exact S1|]. split; [|split; [reflexivity | exact E1]].
      cbn. rewrite app_nil_r in *. exact R1.
Qed.

Lemma handleToolCall_run env m s :
  let r := handleToolCall env m s in
  stateOf r = (if deepSleepCalled env m
               then set_deepSleepRequested true s else s)
  /\ responses (traceOf r) ++ responses (pendingOf r)
     = called (handled env (calls m))
  /\ isOk (resultOf r) = negb (toolsThrow env m)
  /\ forall e, resultOf r = Throw e -> In e toolErrors.
Proof.
  cbv zeta. unfold handleToolCall, deepSleepCalled, calls, toolsThrow.
  destruct (toolCall m) as [call|].
  2:{ unfold pendingOf, ret. project. repeat split; try reflexivity. discriminate. }
  destruct (functionCalls call) as [l|].
  - apply handleFunctionCalls_run.
  - unfold pendingOf, throw. project. repeat split; try reflexivity.
    intros e He. injection He as <-. cbn. auto.
Qed.

(** What is pending is answers. *)
Lemma handleFunctionCall_answers env pending fc s :
  Forall (fun e => isResponse e = true) pending ->
  Forall (fun e => isResponse e = true)
    (pendingOf (handleFunctionCall env pending fc s)).
Proof.
  intros Hp. unfold handleFunctionCall, performGoogleSearch, pendingOf, format.
  destruct (String.eqb (fc_name fc) "search_internet");
    [ destruct (fc_args fc) as [args|]; [destruct (optTruthy (arg_query args))|]
    | destruct (String.eqb (fc_name fc) "set_reminder");
      [ destruct (fc_args fc) as [args|];
        [destruct (optTruthy (arg_label args));
         [destruct (arg_delay_minutes args) as [d|];
          [destruct (newDate (now env) d)|]|]|]
      | destruct (String.eqb (fc_name fc) "enter_deep_sleep") ] ];
    rewrite ?throwAfter_run, ?bind_run; unfold_monad; cbn [fst snd app];
    rewrite ?flush_run, ?throwAfter_run; unfold resultOf; cbn [fst snd app];
    try apply Forall_app; repeat constructor; auto.
Qed.

Lemma handleFunctionCalls_answers env calls :
  forall pending s,
    Forall (fun e => isResponse e = true) pending ->
    Forall (fun e => isResponse e = true)
      (pendingOf (handleFunctionCalls env calls pending s)).
Proof.
  induction calls as [|fc l IH]; intros pending s Hp;
    cbn [handleFunctionCalls].
  - exact Hp.
  - pose proof (handleFunctionCall_answers env pending fc s Hp) as H1.
    rewrite bind_run. unfold pendingOf, resultOf in *.
    destruct (handleFunctionCall env pending fc s) as [[[p|e] s1] t1];
      cbn [fst snd] in *; [|constructor].
    specialize (IH p s1 H1).
    destruct (handleFunctionCalls env l p s1) as [[r2 s2] t2].
    exact IH.
Qed.

Lemma handleToolCall_answers env m s :
  Forall (fun e => isResponse e = true) (pendingOf (handleToolCall env m s)).
Proof.
  unfold handleToolCall.
  destruct (toolCall m) as [call|]; [|constructor].
  destruct (functionCalls call) as [l|]; [|constructor].
  apply handleFunctionCalls_answers. constructor.
Qed.

Lemma handleAudio_answers env m pending s :
  Forall (fun e => isResponse e = true) pending ->
  Forall (fun e => isResponse e = true) (pendingOf (handleAudio env m pending s)).
Proof.
  intros Hp. rewrite handleAudio_run. cbv zeta. unfold pendingOf, resultOf.
  destruct (audioData m) as [data|e]; [|constructor].
  destruct (_ && _ && _)%bool; [|exact Hp].
  destruct (Codec.decode _) as [bytes|e];
    [destruct (Codec.decodeAudioData bytes 24000 1) as [buffer|e]|];
    constructor.
Qed.

(** The audio block sends the answers that are pending or hands them on. *)
Lemma handleAudio_responses env m pending s :
  responses (traceOf (handleAudio env m pending s))
    ++ responses (pendingOf (handleAudio env m pending s))
  = responses pending.
Proof.
  rewrite handleAudio_run. cbv zeta. unfold pendingOf.
  destruct (audioData m) as [data|e]; [|project; apply app_nil_r].
  destruct (_ && _ && _)%bool; [|reflexivity].
  assert (A : responses (if isSpeaking s then []
                         else [TranscriptionUpdate None;
                               StateChange SPEAKING None]) = [])
    by now destruct (isSpeaking s).
  destruct (Codec.decode _) as [bytes|e];
    [destruct (Codec.decodeAudioData bytes 24000 1) as [buffer|e]|];
    project; rewrite !responses_app, A; cbn; now rewrite ?app_nil_r.
Qed.

(** After the audio block nothing answers a tool. *)
Lemma transcriptions_silent m :
  emits (fun e => isResponse e = false)
    (bind (handleInputTranscription m) (fun _ => handleOutputTranscription m)).
Proof. judge; reflexivity. Qed.

Lemma boundaries_silent m : emits (fun e => isResponse e = false) (boundaries m).
Proof. judge; reflexivity. Qed.

(** The answers of the deltas of a message: sent, or pending still. *)
Lemma deltas_responses env m s :
  responses (traceOf (deltas env m s)) ++ responses (pendingOf (deltas env m s))
  = called (handled env (calls m)).
Proof.
  rewrite deltas_run.
  destruct (handleToolCall_run env m s) as (_ & R1 & _).
  unfold pendingOf, resultOf, traceOf in R1 |- *.
  destruct (handleToolCall env m s) as [[[p1|e] s1] t1]; cbn [fst snd] in R1.
  2:{ exact R1. }
  pose proof (handleAudio_responses env m p1 s1) as R2.
  unfold pendingOf, resultOf, traceOf in R2.
  destruct (handleAudio env m p1 s1) as [[[p2|e] s2] t2]; cbn [fst snd] in R2.
  2:{ cbn [fst snd]. rewrite responses_app, <- R1, <- app_assoc. f_equal.
      exact R2. }
  pose proof (transcriptions_silent m s2) as Hquiet.
  rewrite bind_run in Hquiet.
  pose proof (total_unit _ s2 (handleInputTranscription_total m)) as T1.
  unfold resultOf, stateOf, traceOf in Hquiet, T1 |- *.
  destruct (handleInputTranscription m s2) as [[r3 s3] t3].
  cbn [fst snd] in Hquiet, T1 |- *. subst r3. cbn [fst snd] in Hquiet.
  destruct (handleOutputTranscription m s3) as [[r4 s4] t4].
  cbn [fst snd] in Hquiet |- *.
  apply responses_none in Hquiet.
  rewrite !responses_app in *. rewrite Hquiet, app_nil_r.
  rewrite <- R1, <- R2. now rewrite <- !app_assoc.
Qed.

Lemma deltas_answers env m s :
  Forall (fun e => isResponse e = true) (pendingOf (deltas env m s)).
Proof.
  rewrite deltas_run.
  pose proof (handleToolCall_answers env m s) as H1.
  unfold pendingOf, resultOf in H1 |- *.
  destruct (handleToolCall env m s) as [[[p1|e] s1] t1]; cbn [fst snd] in H1;
    [|constructor].
  pose proof (handleAudio_answers env m p1 s1 H1) as H2.
  unfold pendingOf, resultOf in H2.
  destruct (handleAudio env m p1 s1) as [[[p2|e] s2] t2]; cbn [fst snd] in H2;
    [exact H2 | constructor].
Qed.

(** The answers of a message, sent by the end of its handler. *)
Lemma onmessage_responses env m s :
  responses (traceOf (onmessage env m s)) = called (handled env (calls m)).
Proof.
  rewrite onmessage_run.
  pose proof (deltas_responses env m s) as Hd.
  unfold pendingOf, resultOf, traceOf in Hd |- *.
  destruct (deltas env m s) as [[[p|e] s4] t4]; cbn [fst snd] in Hd.
  2:{ cbn [snd]. now rewrite app_nil_r in Hd. }
  destruct (isSuspended s4); cbn [snd].
  - now rewrite responses_app.
  - pose proof (boundaries_silent m s4) as Hb. apply responses_none in Hb.
    unfold traceOf in Hb. rewrite !responses_app in *.
    rewrite Hb. cbn [app]. exact Hd.
Qed.

(** The throws of the tool-call block are throws of the handler. *)
Lemma onmessage_tools_throw env m s e :
  resultOf (handleToolCall env m s) = Throw e ->
  resultOf (onmessage env m s) = Throw e.
Proof.
  rewrite onmessage_run, deltas_run. unfold resultOf at 1.
  destruct (handleToolCall env m s) as [[[p1|e1] s1] t1]; cbn [fst snd];
    [discriminate | intros H; injection H as ->; reflexivity].
Qed.

Lemma handled_all env l :
  existsb (throwing env) l = false -> handled env l = l.
Proof.
  induction l as [|fc l IH]; cbn [existsb handled]; [reflexivity|].
  intros H. apply orb_false_iff in H as [H1 H2]. rewrite H1. f_equal. now apply IH.
Qed.

Lemma handled_until env l1 fc l2 :
  existsb (throwing env) l1 = false -> throwing env fc = true ->
  handled env (l1 ++ fc :: l2) = l1.
Proof.
  induction l1 as [|x l1 IH]; cbn [existsb handled app]; intros H1 H2.
  - now rewrite H2.
  - apply orb_false_iff in H1 as [H0 H1]. rewrite H0. f_equal. now apply IH.
Qed.

End ToolFacts.

(** X17.  The function calls of a message are answered in the order of
    the calls, each once and under its own id and name, up to the first
    call at which the tool-call block throws (a search or a reminder
    without arguments, a reminder whose time is out of range): the calls
    before it are answered, also when the handler throws later; that call
    and the calls after it are not, and the handler throws.  When no call
    throws every call is answered, whatever the state is (resting,
    stopped) and whatever happens to the rest of the message.  The block
    throws exactly when the function calls are missing or one of them
    throws. *)
Theorem tool_calls_answered (cm : JS.CaseMapping)
  (env : Live.Env) (m : Live.LiveServerMessage) (s : Live.State) :
  let t := Live.traceOf (Live.onmessage env m s) in
  LiveView.responses t = LiveView.called (LiveView.handled env (LiveView.calls m))
  /\ List.length (filter LiveView.isResponse t)
     = List.length (LiveView.handled env (LiveView.calls m))
  /\ (existsb (LiveView.throwing env) (LiveView.calls m) = false ->
      LiveView.responses t = LiveView.called (LiveView.calls m))
  /\ (forall before fc after,
        LiveView.calls m = before ++ fc :: after ->
        existsb (LiveView.throwing env) before = false ->
        LiveView.throwing env fc = true ->
        LiveView.responses t = LiveView.called before
        /\ exists e, Live.resultOf (Live.onmessage env m s) = Throw e)
  /\ (LiveView.toolsThrow env m = true <->
      exists e, Live.resultOf (Live.handleToolCall env m s) = Throw e).
Proof.
  cbv zeta. pose proof (onmessage_responses env m s) as H.
  split; [exact H|]. split; [|split; [|split]].
  - rewrite <- responses_length, H. unfold LiveView.called. apply length_map.
  - intros Hnone. now rewrite H, (handled_all env _ Hnone).
  - intros before fc after E Hb Hfc. rewrite H, E, (handled_until env _ _ _ Hb Hfc).
    split; [reflexivity|].
    destruct (handleToolCall_run env m s) as (_ & _ & O & _).
    assert (T : LiveView.toolsThrow env m = true).
    { unfold LiveView.toolsThrow. unfold LiveView.calls in E.
      destruct (Live.toolCall m) as [call|]; [|now destruct before].
      destruct (Live.functionCalls call) as [l|]; [|reflexivity].
      subst l. rewrite existsb_app. cbn [existsb]. rewrite Hfc.
      now rewrite orb_true_r. }
    rewrite T in O. cbn in O.
    destruct (Live.resultOf (Live.handleToolCall env m s)) as [p|e] eqn:R;
      [discriminate O|].
    exists e. now apply onmessage_tools_throw.
  - destruct (handleToolCall_run env m s) as (_ & _ & O & _).
    destruct (Live.resultOf (Live.handleToolCall env m s)) as [p|e];
      cbn [isOk] in O; split.
    + intros T. rewrite T in O. discriminate O.
    + intros [e He]. discriminate He.
    + intros _. now exists e.
    + intros _. now destruct (LiveView.toolsThrow env m).
Qed.

Lemma tool_calls_answered_witness :
  let m := Examples.calling [Examples.deepSleep "call-1";
                             Examples.reminder "call-2" "uống nước" (JS.Fin 200000000000);
                             Examples.deepSleep "call-3"] in
  let r := @Live.onmessage JS.vietnamese Examples.env0 m Examples.started in
  LiveView.throwing Examples.env0
    (Examples.reminder "call-2" "uống nước" (JS.Fin 200000000000)) = true
  /\ LiveView.responses (Live.traceOf r) = [("call-1", "enter_deep_sleep")]
  /\ exists e, Live.resultOf r = Throw e.
Proof.
  intros m r.
  assert (T : LiveView.throwing Examples.env0
                (Examples.reminder "call-2" "uống nước" (JS.Fin 200000000000))
              = true) by reflexivity.
  split; [exact T|].
  destruct (tool_calls_answered JS.vietnamese Examples.env0 m Examples.started)
    as (_ & _ & _ & Until & _).
  exact (Until [Examples.deepSleep "call-1"] _ [Examples.deepSleep "call-3"]
           eq_refl eq_refl T).
Defined.

Section GuardFacts.
Import JS Live LiveView.
Context {cm : CaseMapping}.

Lemma answer_responses t :
  existsb isDeepSleepAnswer t = existsb isSleepy (responses t).
Proof.
  induction t as [|e t IH]; [reflexivity|].
  unfold responses in *. cbn [existsb flat_map]. rewrite existsb_app, IH.
  destruct e; try reflexivity.
  cbn [existsb isDeepSleepAnswer]. now rewrite orb_false_r.
Qed.

Lemma answer_called l :
  existsb isSleepy (called l) = existsb isDeepSleepCall l.
Proof.
  induction l as [|fc l IH]; [reflexivity|].
  unfold called in *. cbn [map existsb]. now rewrite IH.
Qed.

(** The deep-sleep tool is answered in the deltas of a message, at once or
    later, as soon as the loop gets to a call of it. *)
Lemma deltas_answered env m s :
  existsb isDeepSleepAnswer
    (traceOf (deltas env m s) ++ pendingOf (deltas env m s))
  = deepSleepCalled env m.
Proof.
  rewrite answer_responses, responses_app, deltas_responses.
  apply answer_called.
Qed.

Lemma deltas_flag env m s :
  deepSleepRequested (stateOf (deltas env m s))
  = deepSleepCalled env m || deepSleepRequested s.
Proof.
  rewrite deltas_run.
  destruct (handleToolCall_run env m s) as (S1 & _).
  assert (F1 : deepSleepRequested (stateOf (handleToolCall env m s))
               = deepSleepCalled env m || deepSleepRequested s)
    by (rewrite S1; destruct (deepSleepCalled env m), s; reflexivity).
  clear S1.
  assert (Fa : forall pending b,
             preserves (fun s => deepSleepRequested s = b)
               (handleAudio env m pending))
    by (intros pending b; judge; intros [] H; exact H).
  assert (Fi : forall b,
             preserves (fun s => deepSleepRequested s = b)
               (handleInputTranscription m))
    by (intros b; judge; intros [] H; exact H).
  assert (Fo : forall b,
             preserves (fun s => deepSleepRequested s = b)
               (handleOutputTranscription m))
    by (intros b; judge; intros [] H; exact H).
  unfold stateOf in F1.
  destruct (handleToolCall env m s) as [[[p1|e] s1] t1]; cbn [fst snd] in F1;
    [|exact F1].
  pose proof (Fa p1 _ s1 eq_refl) as F2. unfold stateOf in F2.
  destruct (handleAudio env m p1 s1) as [[[p2|e] s2] t2]; cbn [fst snd] in F2.
  - change (deepSleepRequested
              (stateOf (handleOutputTranscription m
                          (stateOf (handleInputTranscription m s2))))
            = deepSleepCalled env m || deepSleepRequested s).
    rewrite (Fo _ _ eq_refl), (Fi _ _ eq_refl), F2. exact F1.
  - change (deepSleepRequested s2
            = deepSleepCalled env m || deepSleepRequested s).
    now rewrite F2.
Qed.

Lemma deltas_no_sleep env m :
  emits (fun e => isDeepSleep e = false) (deltas env m).
Proof.
  intros s. apply deltas_emits; try reflexivity.
  intros e. destruct e as [[] | | | | | | | |]; (discriminate || reflexivity).
Qed.

(** *** The scan *)

Lemma answer_not_sleep e : isResponse e = true -> isDeepSleep e = false.
Proof. destruct e; (discriminate || reflexivity). Qed.

Lemma sleep_not_answer e : isDeepSleep e = true -> isDeepSleepAnswer e = false.
Proof. destruct e; (discriminate || reflexivity). Qed.

Lemma answersFirst_app t1 t2 :
  answersFirst t1 = true -> answersFirst (t1 ++ t2) = true.
Proof.
  induction t1 as [|e t1 IH]; [discriminate|].
  cbn [answersFirst app]. intros H.
  apply andb_true_iff in H as [H1 H2]. rewrite H1. cbn [andb].
  destruct (isDeepSleepAnswer e); [reflexivity|]. now apply IH.
Qed.

Lemma answersFirst_answers t :
  Forall (fun e => isResponse e = true) t ->
  existsb isDeepSleepAnswer t = true -> answersFirst t = true.
Proof.
  induction 1 as [|e t He _ IH]; [discriminate|].
  cbn [answersFirst existsb]. rewrite He. cbn [andb].
  destruct (isDeepSleepAnswer e); [reflexivity|]. exact IH.
Qed.

Lemma guarded_app seen t1 t2 :
  guarded seen t1 = true ->
  guarded (seen || existsb isDeepSleepAnswer t1) t2 = true ->
  guarded seen (t1 ++ t2) = true.
Proof.
  revert seen. induction t1 as [|e t1 IH]; intros seen.
  - cbn. now rewrite orb_false_r.
  - cbn [app guarded existsb]. destruct (isDeepSleep e) eqn:D.
    + rewrite (sleep_not_answer e D). cbn [orb]. intros H1 H2.
      apply andb_true_iff in H1 as [H0 H1]. rewrite (IH _ H1 H2), andb_true_r.
      destruct seen; [reflexivity|]. cbn [orb] in *. now apply answersFirst_app.
    + rewrite orb_assoc. apply IH.
Qed.

Lemma guarded_quiet seen t :
  Forall (fun e => isDeepSleep e = false) t -> guarded seen t = true.
Proof.
  intros H. revert seen. induction H as [|e t He _ IH]; intros seen; [reflexivity|].
  cbn [guarded]. rewrite He. apply IH.
Qed.

Lemma guarded_true t : guarded true t = true.
Proof.
  induction t as [|e t IH]; [reflexivity|].
  cbn [guarded orb andb]. now destruct (isDeepSleep e).
Qed.

(** What the scan accepts at an announcement. *)
Lemma guarded_at seen t1 e t2 :
  isDeepSleep e = true ->
  guarded seen (t1 ++ e :: t2) = true ->
  seen || existsb isDeepSleepAnswer t1 || answersFirst t2 = true.
Proof.
  intros He. revert seen. induction t1 as [|x t1 IH]; intros seen.
  - cbn [app guarded existsb]. rewrite He, orb_false_r.
    intros H. now apply andb_true_iff in H as [H _].
  - cbn [app guarded existsb]. destruct (isDeepSleep x) eqn:D.
    + rewrite (sleep_not_answer x D). cbn [orb]. intros H.
      apply andb_true_iff in H as [_ H]. now apply IH.
    + intros H. apply IH in H. rewrite orb_assoc. exact H.
Qed.

(** The answers that a trace begins with. *)
Lemma answersFirst_split t :
  answersFirst t = true ->
  exists answers rest id result,
    t = answers ++ rest
    /\ Forall (fun e => isResponse e = true) answers
    /\ In (SendToolResponse id "enter_deep_sleep" result) answers.
Proof.
  induction t as [|e t IH]; [discriminate|].
  cbn [answersFirst]. intros H. apply andb_true_iff in H as [H1 H2].
  destruct (isDeepSleepAnswer e) eqn:A.
  - destruct e; try discriminate A. cbn in A. apply String.eqb_eq in A. subst.
    eexists [_], t, _, _. split; [reflexivity|].
    split; [now repeat constructor | now left].
  - cbn [orb] in H2. destruct (IH H2) as (answers & rest & id & result & E & F & I).
    exists (e :: answers), rest, id, result. subst t.
    split; [reflexivity|]. split; [now constructor | now right].
Qed.

(** *** The boundaries of a turn *)

Lemma handleInterrupted_flag b :
  preserves (fun s => deepSleepRequested s = b) handleInterrupted.
Proof. judge; intros [] H; exact H. Qed.

Lemma handleInterrupted_no_sleep :
  emits (fun e => isDeepSleep e = false) handleInterrupted.
Proof. judge; reflexivity. Qed.

(** The turn-complete block clears the flag, and announces deep sleep
    only when it found the flag set, as the last thing it does. *)
Lemma handleTurnComplete_flag s :
  let t := traceOf (handleTurnComplete s) in
  deepSleepRequested (stateOf (handleTurnComplete s)) = false
  /\ (deepSleepRequested s = false -> Forall (fun e => isDeepSleep e = false) t)
  /\ (deepSleepRequested s = true ->
      exists quiet,
        t = quiet ++ [StateChange ENTERING_DEEP_SLEEP None]
        /\ Forall (fun e => isDeepSleep e = false) quiet).
Proof.
  cbv zeta. unfold handleTurnComplete. destruct s. unfold_monad. cbn.
  repeat (break_if; cbn); (split; [reflexivity|]); split; intros H;
    try discriminate H;
    match goal with
    | |- Forall _ _ => repeat constructor
    | |- exists _, _ =>
        first [ exists []; split; [reflexivity | constructor]
              | eexists [_]; split; [reflexivity | repeat constructor] ]
    end.
Qed.

(** The boundaries of a message, with the answers [pending] sent after
    them. *)
Lemma boundaries_guard m s seen pending :
  Forall (fun e => isResponse e = true) pending ->
  (deepSleepRequested s = true ->
   seen || existsb isDeepSleepAnswer pending = true) ->
  guarded seen (traceOf (boundaries m s) ++ pending) = true
  /\ deepSleepRequested (stateOf (boundaries m s))
     = deepSleepRequested s && negb (turnComplete m).
Proof.
  intros Hp Hseen.
  assert (Qp : Forall (fun e => isDeepSleep e = false) pending)
    by (revert Hp; apply Forall_impl, answer_not_sleep).
  unfold boundaries. rewrite bind_run.
  pose proof (total_unit (when (interrupted m) handleInterrupted) s
                (total_when _ _ handleInterrupted_total)) as T.
  pose proof (preserves_when _ (interrupted m) _
                (handleInterrupted_flag _) s eq_refl) as F5.
  pose proof (emits_when _ (interrupted m) _ handleInterrupted_no_sleep s) as Q5.
  unfold resultOf, stateOf, traceOf in T, F5, Q5.
  destruct (when (interrupted m) handleInterrupted s) as [[r5 s5] t5].
  cbn [fst snd] in T, F5, Q5. subst r5. project.
  rewrite <- app_assoc.
  destruct (turnComplete m); cbn [when negb].
  - destruct (handleTurnComplete_flag s5) as (Off & Quiet & Last).
    cbv zeta in *. rewrite Off, andb_false_r. split; [|reflexivity].
    destruct (deepSleepRequested s) eqn:D.
    + destruct (Last F5) as (quiet & -> & Q). specialize (Hseen eq_refl).
      apply guarded_app; [now apply guarded_quiet|].
      rewrite <- app_assoc.
      apply guarded_app; [now apply guarded_quiet|].
      cbn [app guarded isDeepSleep]. rewrite (guarded_quiet _ _ Qp), andb_true_r.
      destruct seen; [reflexivity|]. cbn [orb] in *.
      apply orb_true_iff. right. now apply answersFirst_answers.
    + apply guarded_quiet. apply Forall_app. split; [exact Q5|].
      apply Forall_app. split; [now apply Quiet | exact Qp].
  - unfold ret. project. rewrite andb_true_r. split; [|exact F5].
    apply guarded_quiet. apply Forall_app. now split.
Qed.

Lemma onmessage_guard env m s seen :
  (deepSleepRequested s = true -> seen = true) ->
  let r := onmessage env m s in
  guarded seen (traceOf r) = true
  /\ (deepSleepRequested (stateOf r) = true ->
      seen || existsb isDeepSleepAnswer (traceOf r) = true).
Proof.
  intros Hseen. cbv zeta. rewrite onmessage_run.
  pose proof (deltas_no_sleep env m s) as Q4.
  pose proof (deltas_answers env m s) as A4.
  pose proof (deltas_answered env m s) as C4.
  pose proof (deltas_flag env m s) as F4.
  unfold pendingOf, resultOf, stateOf, traceOf in Q4, A4, C4, F4 |- *.
  assert (Qp : forall p : list Effect,
             Forall (fun e => isResponse e = true) p ->
             Forall (fun e => isDeepSleep e = false) p)
    by (intros p; apply Forall_impl, answer_not_sleep).
  assert (Hseen4 : forall s4 t,
             deepSleepRequested s4
             = deepSleepCalled env m || deepSleepRequested s ->
             existsb isDeepSleepAnswer t = deepSleepCalled env m ->
             deepSleepRequested s4 = true ->
             seen || existsb isDeepSleepAnswer t = true).
  { intros s4 t -> ->. destruct (deepSleepCalled env m); [now rewrite orb_true_r|].
    intros H. now rewrite (Hseen H). }
  destruct (deltas env m s) as [[[p|e] s4] t4]; cbn [fst snd] in Q4, A4, C4, F4.
  - destruct (isSuspended s4); cbn [fst snd].
    + split; [|now apply Hseen4].
      apply guarded_quiet, Forall_app. split; [exact Q4 | now apply Qp].
    + assert (Hb : deepSleepRequested s4 = true ->
                   (seen || existsb isDeepSleepAnswer t4)
                   || existsb isDeepSleepAnswer p = true).
      { intros H. rewrite <- orb_assoc, <- existsb_app. now apply (Hseen4 s4). }
      destruct (boundaries_guard m s4 _ p A4 Hb) as [G F]. split.
      * apply guarded_app; [now apply guarded_quiet | exact G].
      * unfold stateOf in F. rewrite F. intros H.
        apply andb_true_iff in H as [H _].
        specialize (Hseen4 s4 _ F4 C4 H). rewrite existsb_app in Hseen4.
        rewrite !existsb_app.
        destruct seen, (existsb isDeepSleepAnswer t4),
          (existsb isDeepSleepAnswer p); cbn in *;
          rewrite ?orb_true_r; auto; discriminate.
  - cbn [fst snd]. rewrite app_nil_r in C4.
    split; [now apply guarded_quiet | now apply Hseen4].
Qed.

Lemma stop_flag fails userName :
  preserves (fun s => deepSleepRequested s = false) (stopLiveSession fails userName).
Proof. judge; intros [] H; cbn in *; auto. Qed.

Lemma stop_no_sleep fails userName :
  emits (fun e => isDeepSleep e = false) (stopLiveSession fails userName).
Proof. judge; reflexivity. Qed.

Lemma start_flag fails o :
  preserves (fun s => deepSleepRequested s = false) (startLiveSession fails o).
Proof.
  unfold startLiveSession.
  pose proof (stop_flag fails None) as P. revert P.
  generalize (stopLiveSession fails None). intros stop P.
  judge; try (intros [] H; cbn in *; auto); exact P.
Qed.

Lemma start_no_sleep fails o :
  emits (fun e => isDeepSleep e = false) (startLiveSession fails o).
Proof.
  unfold startLiveSession.
  pose proof (stop_no_sleep fails None) as P. revert P.
  generalize (stopLiveSession fails None). intros stop P.
  judge; try reflexivity; exact P.
Qed.

Lemma handle_guard e s seen :
  (deepSleepRequested s = true -> seen = true) ->
  guarded seen (traceOf (handle e s)) = true
  /\ (deepSleepRequested (stateOf (handle e s)) = true ->
      seen || existsb isDeepSleepAnswer (traceOf (handle e s)) = true).
Proof.
  intros Hseen.
  assert (Hother : forall h : M unit,
             emits (fun e => isDeepSleep e = false) h ->
             preserves (fun s => deepSleepRequested s = false) h ->
             guarded seen (traceOf (h s)) = true
             /\ (deepSleepRequested (stateOf (h s)) = true ->
                 seen || existsb isDeepSleepAnswer (traceOf (h s)) = true)).
  { intros h Q F. split; [apply guarded_quiet, Q|].
    intros H. destruct (deepSleepRequested s) eqn:D.
    - now rewrite (Hseen eq_refl).
    - rewrite (F s D) in H. discriminate H. }
  destruct e as [fails o | env m | n | | | fails | | fails userName];
    cbn [handle].
  - apply Hother; [apply start_no_sleep | apply start_flag].
  - now apply onmessage_guard.
  - apply Hother; judge. intros [] H; exact H.
  - apply Hother; judge; reflexivity.
  - apply Hother; judge; try reflexivity. intros [] H; exact H.
  - apply Hother; unfold onerror.
    + apply emits_bind; [now apply emits_emit | intros _].
      apply emits_detached, stop_no_sleep.
    + apply preserves_bind; [apply preserves_emit | intros _].
      apply preserves_detached, stop_flag.
  - apply Hother; judge; reflexivity.
  - apply Hother; [apply stop_no_sleep | apply stop_flag].
Qed.

Lemma runEvents_guarded es :
  forall s seen,
    (deepSleepRequested s = true -> seen = true) ->
    guarded seen (snd (runEvents es s)) = true.
Proof.
  induction es as [|e es IH]; intros s seen Hseen; [reflexivity|].
  cbn [runEvents]. destruct (handle_guard e s seen Hseen) as [G F].
  unfold stateOf, traceOf in G, F.
  destruct (handle e s) as [[r1 s1] t1]. cbn [fst snd] in G, F.
  specialize (IH s1 _ F). destruct (runEvents es s1) as [s2 t2].
  cbn [snd] in *. now apply guarded_app.
Qed.

End GuardFacts.

(** X18.  Deep sleep is announced only on request.  The answers to
    function calls are handed to [sessionPromise.then] and so are sent
    when the handler next awaits or ends; in the trace of any run from the
    initial state, every announcement of [ENTERING_DEEP_SLEEP] is preceded
    by an answer to a call of the deep-sleep tool, or is directly followed
    by the answers of its own message, with one to such a call among them. *)
Theorem deep_sleep_only_on_request (cm : JS.CaseMapping)
  (es : list Live.Event) (t1 t2 : list Live.Effect) (status : option string) :
  snd (Live.runEvents es Live.init)
  = t1 ++ Live.StateChange Live.ENTERING_DEEP_SLEEP status :: t2 ->
  (exists id result,
      In (Live.SendToolResponse id "enter_deep_sleep" result) t1)
  \/ (exists answers rest id result,
        t2 = answers ++ rest
        /\ Forall (fun e => LiveView.isResponse e = true) answers
        /\ In (Live.SendToolResponse id "enter_deep_sleep" result) answers).
Proof.
  intros E.
  pose proof (runEvents_guarded es Live.init false) as G.
  rewrite E in G. specialize (G ltac:(discriminate)).
  apply guarded_at in G; [|reflexivity]. cbn [orb] in G.
  apply orb_true_iff in G as [G|G].
  - left. apply existsb_exists in G as (x & Hx & A).
    destruct x; try discriminate A. cbn in A. apply String.eqb_eq in A. subst.
    eauto.
  - right. now apply answersFirst_split.
Qed.

Lemma deep_sleep_only_on_request_witness :
  let t1 := [Live.StateChange Live.LOADING (Some "Đang khởi động...");
             Live.StateChange Live.LISTENING None] in
  let t2 := [Live.SendToolResponse "call-1" "enter_deep_sleep"
               "Đã hiểu, đang vào chế độ ngủ sâu."] in
  snd (@Live.runEvents JS.vietnamese
         [Live.Start Examples.noFail (Live.Started 1%nat 2%nat 3%nat 4%nat 5%nat);
          Live.Message Examples.env0 Examples.deepSleepThenTurnComplete]
         Live.init)
  = t1 ++ Live.StateChange Live.ENTERING_DEEP_SLEEP None :: t2
  /\ ((exists id result,
          In (Live.SendToolResponse id "enter_deep_sleep" result) t1)
      \/ (exists answers rest id result,
            t2 = answers ++ rest
            /\ Forall (fun e => LiveView.isResponse e = true) answers
            /\ In (Live.SendToolResponse id "enter_deep_sleep" result) answers)).
Proof.
  intros t1 t2. split; [reflexivity|].
  apply (deep_sleep_only_on_request JS.vietnamese
           [Live.Start Examples.noFail (Live.Started 1%nat 2%nat 3%nat 4%nat 5%nat);
            Live.Message Examples.env0 Examples.deepSleepThenTurnComplete]
           t1 t2 None).
  reflexivity.
Defined.

Section AudioFailureFacts.
Import JS Live LiveView.
Context {cm : CaseMapping}.

Lemma tools_state (s : State) (b : bool) :
  let s1 := if b then set_deepSleepRequested true s else s in
  outputAudioContext s1 = outputAudioContext s
  /\ isSuspended s1 = isSuspended s /\ isSpeaking s1 = isSpeaking s
  /\ audioSources s1 = audioSources s /\ nextStartTime s1 = nextStartTime s
  /\ currentInputTranscription s1 = currentInputTranscription s
  /\ currentOutputTranscription s1 = currentOutputTranscription s
  /\ conversationHistory s1 = conversationHistory s.
Proof. destruct b, s; cbn; repeat split. Qed.

(** The state after the tool-call block, for the audio block. *)
Lemma handleToolCall_state env m s :
  let s1 := stateOf (handleToolCall env m s) in
  outputAudioContext s1 = outputAudioContext s
  /\ isSuspended s1 = isSuspended s /\ isSpeaking s1 = isSpeaking s
  /\ audioSources s1 = audioSources s /\ nextStartTime s1 = nextStartTime s
  /\ currentInputTranscription s1 = currentInputTranscription s
  /\ currentOutputTranscription s1 = currentOutputTranscription s
  /\ conversationHistory s1 = conversationHistory s.
Proof.
  cbv zeta. destruct (handleToolCall_run env m s) as (-> & _).
  apply tools_state.
Qed.

(** The one throw of the read of the audio. *)
Lemma audioData_throws m e : audioData m = Throw e -> e = cannotRead "0".
Proof.
  unfold audioData. destruct (modelTurn m) as [content|]; [|discriminate].
  destruct (parts content) as [[|part l]|]; try discriminate.
  - destruct (inlineData part); discriminate.
  - intros H. now injection H as <-.
Qed.

(** [onmessage] up to the throw of an audio chunk that cannot be decoded. *)
Lemma onmessage_undecodable env m s pending s1 t1 data e :
  handleToolCall env m s = (Ok pending, s1, t1) ->
  audioData m = Ok data ->
  optTruthy data = true ->
  outputAudioContext s <> None ->
  isSuspended s = false ->
  (Codec.decode (orEmpty data) = Throw e
   \/ exists bytes,
       Codec.decode (orEmpty data) = Ok bytes
       /\ Codec.decodeAudioData bytes 24000 1 = Throw e) ->
  onmessage env m s
  = (Throw e,
     (if isSpeaking s then s1 else set_isSpeaking true s1),
     t1 ++ (if isSpeaking s then []
            else [TranscriptionUpdate None; StateChange SPEAKING None])
        ++ pending).
Proof.
  intros Htools Haudio Ha Hctx Hsus Hbad.
  destruct (handleToolCall_state env m s) as (C1 & C2 & C3 & _).
  cbv zeta in *. unfold stateOf in C1, C2, C3.
  rewrite Htools in C1, C2, C3. cbn [fst snd] in C1, C2, C3.
  rewrite onmessage_run, deltas_run, Htools, handleAudio_run. cbv zeta.
  rewrite Haudio, Ha, C1, C2, C3, Hsus.
  destruct (outputAudioContext s) as [ctx|]; [|congruence].
  cbn [isSome negb andb].
  destruct Hbad as [D|(bytes & D & B)]; rewrite D; [|rewrite B];
    now rewrite app_assoc.
Qed.

End AudioFailureFacts.

(** X19.  An audio chunk that cannot be decoded (bad base64, an odd number
    of bytes, no bytes), in a message whose tool-call block returns: the
    handler throws after the speaking flag has been set and announced.
    The answers that the tool-call block left pending are sent all the
    same; nothing is scheduled or started, the cursor, the two accumulators
    and the history are as before the message, the rest of the message (its
    transcriptions, its turn-complete event) is not handled, and the capture
    stays closed. *)
Theorem onmessage_undecodable_audio (cm : JS.CaseMapping)
  (env : Live.Env) (m : Live.LiveServerMessage) (s s1 : Live.State)
  (pending t1 : list Live.Effect) (data : option string) (e : JSError) :
  Live.handleToolCall env m s = (Ok pending, s1, t1) ->
  Live.audioData m = Ok data ->
  Live.optTruthy data = true ->
  Live.outputAudioContext s <> None ->
  Live.isSuspended s = false ->
  (Codec.decode (Live.orEmpty data) = Throw e
   \/ exists bytes,
       Codec.decode (Live.orEmpty data) = Ok bytes
       /\ Codec.decodeAudioData bytes 24000 1 = Throw e) ->
  let r := Live.onmessage env m s in
  Live.resultOf r = Throw e
  /\ Live.traceOf r
     = t1 ++ (if Live.isSpeaking s then []
              else [Live.TranscriptionUpdate None;
                    Live.StateChange Live.SPEAKING None])
          ++ pending
  /\ Forall (fun e => LiveView.isResponse e = true) pending
  /\ Live.isSpeaking (Live.stateOf r) = true
  /\ Live.audioSources (Live.stateOf r) = Live.audioSources s
  /\ Live.nextStartTime (Live.stateOf r) = Live.nextStartTime s
  /\ Live.currentInputTranscription (Live.stateOf r)
     = Live.currentInputTranscription s
  /\ Live.currentOutputTranscription (Live.stateOf r)
     = Live.currentOutputTranscription s
  /\ Live.conversationHistory (Live.stateOf r) = Live.conversationHistory s
  /\ (forall n t, ~ In (Live.SourceStart n t) (Live.traceOf r))
  /\ forall inputData,
      Capture.onaudioprocess (Live.stateOf r) inputData = None.
Proof.
  intros Htools Haudio Ha Hctx Hsus Hbad. cbv zeta.
  rewrite (onmessage_undecodable env m s pending s1 t1 data e
             Htools Haudio Ha Hctx Hsus Hbad).
  destruct (handleToolCall_state env m s) as (_ & _ & C3 & C4 & C5 & C6 & C7 & C8).
  pose proof (handleToolCall_tools env m s) as [Ht Hp].
  pose proof (handleToolCall_answers env m s) as Hanswers.
  cbv zeta in *.
  unfold Live.pendingOf, Live.resultOf, Live.stateOf, Live.traceOf in *.
  rewrite Htools in *. cbn [fst snd] in *.
  unfold Capture.onaudioprocess.
  assert (Hstate : forall s2,
             s2 = (if Live.isSpeaking s then s1 else Live.set_isSpeaking true s1) ->
             Live.isSpeaking s2 = true
             /\ Live.audioSources s2 = Live.audioSources s
             /\ Live.nextStartTime s2 = Live.nextStartTime s
             /\ Live.currentInputTranscription s2 = Live.currentInputTranscription s
             /\ Live.currentOutputTranscription s2
                = Live.currentOutputTranscription s
             /\ Live.conversationHistory s2 = Live.conversationHistory s).
  { intros s2 ->. rewrite <- C3, <- C4, <- C5, <- C6, <- C7, <- C8.
    destruct (Live.isSpeaking s1) eqn:Sp; [now repeat split|].
    destruct s1; cbn in *; now repeat split. }
  destruct (Hstate _ eq_refl) as (S1 & S2 & S3 & S4 & S5 & S6).
  split; [reflexivity|]. split; [reflexivity|]. split; [exact Hanswers|].
  repeat (split; [assumption|]).
  split.
  - intros n t C. apply in_app_or in C as [C|C].
    + unfold Live.tools in Ht. rewrite Forall_forall in Ht.
      specialize (Ht _ C). discriminate Ht.
    + apply in_app_or in C as [C|C].
      * destruct (Live.isSpeaking s); cbn in C; intuition discriminate.
      * rewrite Forall_forall in Hanswers. specialize (Hanswers _ C).
        discriminate Hanswers.
  - intros inputData. now rewrite S1.
Qed.

Lemma onmessage_undecodable_audio_witness :
  let m := {| Live.toolCall :=
                Some {| Live.functionCalls := Some [Examples.deepSleep "call-1"] |};
              Live.modelTurn := Some (Examples.chunk "AAEC");
              Live.inputTranscription := None;
              Live.outputTranscription := None;
              Live.interrupted := false; Live.turnComplete := true |} in
  let r := @Live.onmessage JS.vietnamese Examples.env0 m Examples.started in
  Live.resultOf r
  = Throw (mkError RangeError "byte length of Int16Array should be a multiple of 2")
  /\ Live.traceOf r
     = [Live.TranscriptionUpdate None; Live.StateChange Live.SPEAKING None;
        Live.SendToolResponse "call-1" "enter_deep_sleep"
          "Đã hiểu, đang vào chế độ ngủ sâu."]
  /\ Live.isSpeaking (Live.stateOf r) = true
  /\ Live.audioSources (Live.stateOf r) = [].
Proof.
  intros m r.
  destruct (onmessage_undecodable_audio JS.vietnamese Examples.env0 m
              Examples.started
              (Live.set_deepSleepRequested true Examples.started)
              [Live.SendToolResponse "call-1" "enter_deep_sleep"
                 "Đã hiểu, đang vào chế độ ngủ sâu."]
              [] (Some "AAEC")
              (mkError RangeError "byte length of Int16Array should be a multiple of 2")
              eq_refl eq_refl eq_refl ltac:(discriminate) eq_refl
              (or_intror (ex_intro _ [x00; x01; x02] (conj eq_refl eq_refl))))
    as (R & T & _ & Sp & Src & _).
  repeat split; assumption.
Defined.

(** X20.  Where [onmessage] throws.  If the handler of a message throws,
    then the tool-call block threw that error (the function calls are
    missing, a search or a reminder has no arguments, the time of a
    reminder is out of range), or the parts of the model turn are missing,
    or the message carries audio, the output context is there, the session
    is not resting, and the error is that of [decode] or of
    [decodeAudioData]. *)
Theorem onmessage_throw_sites (cm : JS.CaseMapping)
  (env : Live.Env) (m : Live.LiveServerMessage) (s : Live.State) (e : JSError) :
  Live.resultOf (Live.onmessage env m s) = Throw e ->
  (LiveView.toolsThrow env m = true
   /\ Live.resultOf (Live.handleToolCall env m s) = Throw e
   /\ In e LiveView.toolErrors)
  \/ (LiveView.toolsThrow env m = false
      /\ Live.audioData m = Throw e
      /\ e = Live.cannotRead "0")
  \/ (LiveView.toolsThrow env m = false
      /\ exists data,
          Live.audioData m = Ok data
          /\ Live.optTruthy data = true
          /\ Live.outputAudioContext s <> None
          /\ Live.isSuspended s = false
          /\ (Codec.decode (Live.orEmpty data) = Throw e
              \/ exists bytes,
                  Codec.decode (Live.orEmpty data) = Ok bytes
                  /\ Codec.decodeAudioData bytes 24000 1 = Throw e)).
Proof.
  rewrite onmessage_run, deltas_run.
  destruct (handleToolCall_run env m s) as (_ & _ & O & E).
  destruct (handleToolCall_state env m s) as (C1 & C2 & _).
  cbv zeta in *. unfold Live.resultOf, Live.stateOf in O, E, C1, C2 |- *.
  destruct (Live.handleToolCall env m s) as [[[p1|e1] s1] t1];
    cbn [fst snd isOk] in O, E, C1, C2 |- *.
  2:{ intros H. injection H as <-. left.
      split; [now destruct (LiveView.toolsThrow env m) | split; [reflexivity|]].
      now apply E. }
  assert (T : LiveView.toolsThrow env m = false)
    by (destruct (LiveView.toolsThrow env m); [discriminate O | reflexivity]).
  rewrite handleAudio_run. cbv zeta. rewrite C1, C2.
  destruct (Live.audioData m) as [data|e0] eqn:Ha.
  2:{ cbn [fst snd]. intros H. injection H as <-. right. left.
      split; [exact T | split; [reflexivity|]].
      now apply audioData_throws in Ha. }
  assert (Hok : forall (p : list Live.Effect) (s4 : Live.State) (t4 : list Live.Effect),
             fst (fst (if Live.isSuspended s4 then (Ok tt, s4, t4 ++ p)
                       else (Ok tt, Live.stateOf (Live.boundaries m s4),
                             t4 ++ Live.traceOf (Live.boundaries m s4) ++ p)))
             = Throw e -> False)
    by (intros p s4 t4; destruct (Live.isSuspended s4); discriminate).
  destruct (Live.optTruthy data) eqn:Hd; cbn [andb];
    [|intros H; now apply Hok in H].
  destruct (Live.outputAudioContext s) as [ctx|] eqn:Hctx; cbn [Live.isSome andb];
    [|intros H; now apply Hok in H].
  destruct (Live.isSuspended s) eqn:Hsus; cbn [negb];
    [intros H; now apply Hok in H|].
  intros H. right. right. split; [exact T|]. exists data.
  repeat (split; [first [reflexivity | discriminate | assumption]|]).
  destruct (Codec.decode (Live.orEmpty data)) as [bytes|e1] eqn:D.
  - destruct (Codec.decodeAudioData bytes 24000 1) as [buffer|e2] eqn:B.
    + now apply Hok in H.
    + cbn [fst snd] in H. injection H as <-. right. now exists bytes.
  - cbn [fst snd] in H. injection H as <-. left. reflexivity.
Qed.

Lemma onmessage_throw_sites_witness :
  let m := Examples.calling [Examples.searchWithoutArgs "call-1"] in
  Live.resultOf (@Live.onmessage JS.vietnamese Examples.env0 m Examples.started)
  = Throw (Live.cannotRead "query")
  /\ LiveView.toolsThrow Examples.env0 m = true.
Proof.
  intros m.
  assert (E : Live.resultOf (@Live.onmessage JS.vietnamese Examples.env0 m
                               Examples.started)
              = Throw (Live.cannotRead "query"))
    by reflexivity.
  split; [exact E|].
  destruct (onmessage_throw_sites JS.vietnamese _ _ _ _ E)
    as [(T & _) | [(T & _) | (T & _)]]; [exact T | |].
  - discriminate T.
  - discriminate T.
Defined.

Section FailureFacts.
Import JS Live LiveView.
Context {cm : CaseMapping}.

(** The state in which the [catch] block of [startLiveSession] calls the
    teardown: after the resets, with what had been acquired. *)
Lemma start_failed_run fails o s :
  session s = None ->
  let reset :=
    set_currentOutputTranscription EmptyString
      (set_currentInputTranscription EmptyString
         (set_deepSleepRequested false
            (set_isSuspended false (set_conversationHistory [] s)))) in
  let loading := StateChange LOADING (Some "Đang khởi động...") in
  let failed msg :=
    StateChange ERROR (Some ("Không thể bắt đầu phiên: " ++ msg)%string) in
  match o with
  | AcquireFailed msg =>
      startLiveSession fails o s
      = (Ok tt, stateOf (stopLiveSession fails None reset),
         loading :: failed msg :: traceOf (stopLiveSession fails None reset))
  | ConnectFailed mic inCtx outCtx msg =>
      let acquired :=
        set_audioSources []
          (set_nextStartTime 0%Q
             (set_outputAudioContext (Some outCtx)
                (set_inputAudioContext (Some inCtx)
                   (set_microphoneStream (Some mic) reset)))) in
      startLiveSession fails o s
      = (Ok tt, stateOf (stopLiveSession fails None acquired),
         loading :: failed msg :: traceOf (stopLiveSession fails None acquired))
  | _ => True
  end.
Proof.
  intros S. cbv zeta. unfold startLiveSession.
  generalize (stopLiveSession fails None). intros stop.
  destruct o as [| | msg | mic inCtx outCtx msg |]; try exact I;
    rewrite bind_run; unfold get at 1; cbv beta iota; rewrite S;
    unfold_monad; cbn;
    match goal with |- context [stop ?s0] => destruct (stop s0) as [[r1 s1] t1] end;
    reflexivity.
Qed.

Lemma stop_clean_stopped fails userName s :
  (forall r, fails r = None) ->
  resultOf (stopLiveSession fails userName s) = Ok tt
  /\ stopped (stateOf (stopLiveSession fails userName s)).
Proof.
  intros H. rewrite (stop_run_clean fails userName s H). project.
  split; [reflexivity|]. destruct s; repeat split.
Qed.

End FailureFacts.

(** X21.  Every failure path ends in the teardown.  [onerror] and the
    [catch] block of [startLiveSession] announce the error and then run
    [stopLiveSession] without awaiting it, so what it throws is lost and
    they return normally; when no release throws, the state they leave is
    the stopped state, what follows the error announcement are releases and
    stops only, then the three closing notifications, the last of which
    shows the idle state; and after a failed connection the microphone
    stream and the two audio contexts are released once each. *)
Theorem failure_ends_in_teardown (cm : JS.CaseMapping)
  (fails : Live.Release -> option JSError) (s : Live.State)
  (mic inCtx outCtx : Live.Handle) (msg : string) :
  let closing :=
    [Live.TranscriptionUpdate None; Live.HistoryUpdate [];
     Live.StateChange Live.IDLE (Some "Phiên đã kết thúc.")] in
  let tornDown (first : list Live.Effect)
               (r : Result unit * Live.State * list Live.Effect) :=
    Live.resultOf r = Ok tt
    /\ ((forall x, fails x = None) ->
        Live.stopped (Live.stateOf r)
        /\ exists releases,
            Live.traceOf r = first ++ releases ++ closing
            /\ Forall (fun e => match e with
                                | Live.Released _ | Live.SourceStop _ => True
                                | _ => False
                                end) releases) in
  tornDown [Live.StateChange Live.ERROR (Some "Đã xảy ra lỗi kết nối.")]
    (Live.onerror fails s)
  /\ (Live.session s = None ->
      tornDown [Live.StateChange Live.LOADING (Some "Đang khởi động...");
                Live.StateChange Live.ERROR
                  (Some ("Không thể bắt đầu phiên: " ++ msg)%string)]
        (Live.startLiveSession fails (Live.AcquireFailed msg) s)
      /\ tornDown [Live.StateChange Live.LOADING (Some "Đang khởi động...");
                   Live.StateChange Live.ERROR
                     (Some ("Không thể bắt đầu phiên: " ++ msg)%string)]
           (Live.startLiveSession fails
              (Live.ConnectFailed mic inCtx outCtx msg) s)
      /\ ((forall x, fails x = None) ->
          let t := Live.traceOf (Live.startLiveSession fails
                                   (Live.ConnectFailed mic inCtx outCtx msg) s) in
          Live.released Live.TracksStop t = 1%nat
          /\ Live.released Live.InputContextClose t = 1%nat
          /\ Live.released Live.OutputContextClose t = 1%nat)).
Proof.
  cbv zeta.
  assert (Hstop : forall s0 first,
    (forall x, fails x = None) ->
    Live.stopped (Live.stateOf (Live.stopLiveSession fails None s0))
    /\ exists releases,
        first ++ Live.traceOf (Live.stopLiveSession fails None s0)
        = first ++ releases
            ++ [Live.TranscriptionUpdate None; Live.HistoryUpdate [];
                Live.StateChange Live.IDLE (Some "Phiên đã kết thúc.")]
        /\ Forall (fun e => match e with
                            | Live.Released _ | Live.SourceStop _ => True
                            | _ => False
                            end) releases).
  { intros s0 first Hf.
    split; [apply (stop_clean_stopped fails None s0 Hf)|].
    rewrite (stop_run_clean fails None s0 Hf). project.
    exists ((if Live.isSome (Live.session s0) then [Live.Released Live.SessionClose] else [])
            ++ (if Live.isSome (Live.microphoneStream s0)
                then [Live.Released Live.TracksStop] else [])
            ++ (if Live.isSome (Live.scriptProcessor s0)
                then [Live.Released Live.ProcessorDisconnect] else [])
            ++ (if Live.isSome (Live.inputAudioContext s0)
                then [Live.Released Live.InputContextClose] else [])
            ++ (if Live.isSome (Live.outputAudioContext s0)
                then [Live.Released Live.OutputContextClose] else [])
            ++ map (fun source => Live.SourceStop (Live.node source))
                 (Live.audioSources s0)).
    split.
    - rewrite <- !app_assoc. reflexivity.
    - repeat (apply Forall_app; split);
        try (match goal with |- context [if ?b then _ else _] => destruct b end;
             repeat constructor).
      apply Forall_map, Forall_forall. intros; exact I. }
  split; [|intros S; split; [|split]].
  - unfold Live.onerror. rewrite bind_run. unfold Live.emit.
    cbv beta iota. project. unfold Live.detached.
    destruct (Live.stopLiveSession fails None s) as [[r1 s1] t1] eqn:E. project.
    split; [reflexivity|]. intros Hf.
    specialize (Hstop s [Live.StateChange Live.ERROR (Some "Đã xảy ra lỗi kết nối.")] Hf).
    rewrite E in Hstop. exact Hstop.
  - pose proof (start_failed_run fails (Live.AcquireFailed msg) s S) as R.
    cbv zeta in R. rewrite R. clear R.
    match goal with
    | |- context [Live.traceOf (?a, ?b, ?x :: ?y :: ?c)] =>
        match b with
        | Live.stateOf (Live.stopLiveSession fails None ?s0) =>
            specialize (Hstop s0 [x; y]);
            destruct (Live.stopLiveSession fails None s0) as [[r1 s1] t1]
        end
    end.
    project. split; [reflexivity|]. exact Hstop.
  - pose proof (start_failed_run fails (Live.ConnectFailed mic inCtx outCtx msg) s S)
      as R.
    cbv zeta in R. rewrite R. clear R.
    match goal with
    | |- context [Live.traceOf (?a, ?b, ?x :: ?y :: ?c)] =>
        match b with
        | Live.stateOf (Live.stopLiveSession fails None ?s0) =>
            specialize (Hstop s0 [x; y]);
            destruct (Live.stopLiveSession fails None s0) as [[r1 s1] t1]
        end
    end.
    project. split; [reflexivity|]. exact Hstop.
  - intros Hf.
    pose proof (start_failed_run fails (Live.ConnectFailed mic inCtx outCtx msg) s S)
      as R.
    cbv zeta in R. rewrite R. project.
    rewrite (stop_run_clean fails None _ Hf). project.
    destruct s as [se ic oc mi sp ? ? ? ? ? ? ? ? ?]. cbn in S. subst se.
    unfold Live.released. destruct sp; cbn; repeat split.
Qed.

Lemma failure_ends_in_teardown_witness :
  Live.session Live.init = None
  /\ Live.stopped
       (Live.stateOf
          (@Live.startLiveSession Examples.noFail
             (Live.ConnectFailed 1%nat 2%nat 3%nat "mất kết nối") Live.init))
  /\ Live.released Live.TracksStop
       (Live.traceOf
          (@Live.startLiveSession Examples.noFail
             (Live.ConnectFailed 1%nat 2%nat 3%nat "mất kết nối") Live.init))
     = 1%nat.
Proof.
  assert (Hf : forall x, Examples.noFail x = None) by reflexivity.
  destruct (failure_ends_in_teardown JS.vietnamese Examples.noFail Live.init
              1%nat 2%nat 3%nat "mất kết nối") as (_ & Start).
  destruct (Start eq_refl) as (_ & (_ & Conn) & Rel).
  split; [reflexivity|]. split.
  - exact (proj1 (Conn Hf)).
  - exact (proj1 (Rel Hf)).
Defined.

(** X22.  [onclose] releases nothing: it only announces the idle state.  The
    session the module holds stays open, so a start that follows a close
    does nothing, and the capture goes on as before. *)
Theorem onclose_keeps_session (cm : JS.CaseMapping)
  (fails : Live.Release -> option JSError) (o : Live.StartOutcome) (s : Live.State) :
  Live.session s <> None ->
  Live.onclose s = (Ok tt, s, [Live.StateChange Live.IDLE (Some "Phiên đã kết thúc.")])
  /\ Live.runEvents [Live.TransportClose; Live.Start fails o] s
     = (s, [Live.StateChange Live.IDLE (Some "Phiên đã kết thúc.")])
  /\ forall inputData,
       Capture.onaudioprocess (fst (Live.runEvents [Live.TransportClose] s)) inputData
       = Capture.onaudioprocess s inputData.
Proof.
  intros S. split; [reflexivity|]. split; [|reflexivity].
  cbn [Live.runEvents Live.handle]. unfold Live.onclose, Live.emit.
  unfold Live.startLiveSession. rewrite bind_run. unfold Live.get at 1.
  cbv beta iota. destruct (Live.session s); [reflexivity | congruence].
Qed.

Lemma onclose_keeps_session_witness :
  Live.session Examples.started <> None
  /\ fst (@Live.runEvents JS.vietnamese
            [Live.TransportClose;
             Live.Start Examples.noFail (Live.Started 6%nat 7%nat 8%nat 9%nat 10%nat)]
            Examples.started)
     = Examples.started.
Proof.
  assert (S : Live.session Examples.started <> None) by discriminate.
  split; [exact S|].
  destruct (onclose_keeps_session JS.vietnamese Examples.noFail
              (Live.Started 6%nat 7%nat 8%nat 9%nat 10%nat) Examples.started S)
    as (_ & E & _).
  now rewrite E.
Defined.

(** ** Inspirational quotes *)

Section QuotesFacts.
Import JS Quotes.
Variable engine : Engine.

Lemma handler_messages (t : Thrown) :
  handler t = error rateLimited \/ handler t = error cannotLoad.
Proof.
  destruct t as [e|]; cbn [handler]; [|now right].
  destruct (_ || _)%bool; auto.
Qed.

(** An answer is accepted when it is an object whose [quotes] is an
    array that is not empty; the elements are not looked at. *)
Lemma validate_accepts (value : Json) (items : list Json) :
  validate engine value = Ok items
  <-> exists members,
        value = JObject members
        /\ member "quotes" members = Some (JArray items)
        /\ items <> [].
Proof.
  unfold validate, quotesOf. split.
  - destruct value as [|b|n|s|l|members]; try discriminate.
    destruct (member "quotes" members) as [[|b|n|s|l|ms]|] eqn:M; cbn;
      rewrite ?orb_true_r; try discriminate.
    destruct l as [|x l]; cbn; [discriminate|].
    intros E. injection E as <-. exists members. repeat split; [exact M | discriminate].
  - intros (members & -> & M & Hne). rewrite M. cbn.
    destruct items as [|x l]; [congruence | reflexivity].
Qed.

Lemma validate_rejects (value : Json) (e : JSError) :
  validate engine value = Throw e ->
  e = nullProperty engine \/ e = error invalidQuotes.
Proof.
  unfold validate, quotesOf.
  destruct value as [|b|n|s|l|members]; cbn; intros E;
    try (injection E as <-; auto; fail).
  destruct (_ || _ || _)%bool; [injection E as <-; auto | discriminate].
Qed.

Lemma quotes_hit now later remote entry :
  now < expiry entry ->
  getInspirationalQuotes engine now later remote (Some entry)
  = (Ok (data entry), Some entry, []).
Proof.
  intros H. unfold getInspirationalQuotes.
  now replace (now <? expiry entry) with true by (symmetry; now apply Z.ltb_lt).
Qed.

Lemma quotes_hit_or_miss now cache :
  (exists entry, cache = Some entry /\ now < expiry entry) \/ miss now cache.
Proof.
  destruct cache as [entry|]; [|now right].
  destruct (Z.lt_ge_cases now (expiry entry)); [left; eauto | now right].
Qed.

(** The lookup on a cache miss: an accepted list, stored, or a failure
    that went through the [catch] clause. *)
Lemma quotes_miss now later remote cache :
  miss now cache ->
  let r := getInspirationalQuotes engine now later remote cache in
  (exists text value quotes,
      remote = Text text
      /\ parseJSON engine (stripClosing (stripOpening (trim text))) = Ok value
      /\ validate engine value = Ok quotes
      /\ r = (Ok quotes,
              Some {| data := quotes; expiry := later + QUOTES_CACHE_DURATION |},
              [GenerateContent]))
  \/ (exists t requests,
        r = (Throw (handler t), cache,
             requests ++ [ConsoleError "Không thể lấy danh sách câu nói hay:"])
        /\ (requests = [] \/ requests = [GenerateContent])).
Proof.
  intros Hmiss r.
  assert (E : r = match remote with
                  | NoApiKey =>
                      (Throw (handler (AnError (error noApiKey))), cache,
                       [] ++ [ConsoleError "Không thể lấy danh sách câu nói hay:"])
                  | Text text =>
                      match parseJSON engine (stripClosing (stripOpening (trim text))) with
                      | Throw e =>
                          (Throw (handler (AnError e)), cache,
                           [GenerateContent]
                             ++ [ConsoleError "Không thể lấy danh sách câu nói hay:"])
                      | Ok jsonResponse =>
                          match validate engine jsonResponse with
                          | Throw e =>
                              (Throw (handler (AnError e)), cache,
                               [GenerateContent]
                                 ++ [ConsoleError "Không thể lấy danh sách câu nói hay:"])
                          | Ok quotes =>
                              (Ok quotes,
                               Some {| data := quotes;
                                       expiry := later + QUOTES_CACHE_DURATION |},
                               [GenerateContent])
                          end
                      end
                  | Fails e =>
                      (Throw (handler (AnError e)), cache,
                       [GenerateContent]
                         ++ [ConsoleError "Không thể lấy danh sách câu nói hay:"])
                  | FailsOther =>
                      (Throw (handler NotAnError), cache,
                       [GenerateContent]
                         ++ [ConsoleError "Không thể lấy danh sách câu nói hay:"])
                  end).
  { subst r. unfold getInspirationalQuotes.
    destruct cache as [entry|]; [|reflexivity].
    cbn in Hmiss.
    now replace (now <? expiry entry) with false
      by (symmetry; apply Z.ltb_ge; exact Hmiss). }
  rewrite E. clear E r.
  destruct remote as [|text|e|].
  - right. do 2 eexists. split; [reflexivity | now left].
  - destruct (parseJSON engine _) as [value|e] eqn:P.
    + destruct (validate engine value) as [quotes|e] eqn:V.
      * left. exists text, value, quotes. repeat split; assumption.
      * right. do 2 eexists. split; [reflexivity | now right].
    + right. do 2 eexists. split; [reflexivity | now right].
  - right. do 2 eexists. split; [reflexivity | now right].
  - right. do 2 eexists. split; [reflexivity | now right].
Qed.

End QuotesFacts.

(** X23.  A quote lookup that throws, throws one of two messages, the
    rate-limit one or the cannot-load one; it has found nothing to serve in
    the cache, leaves the cache as it was and has logged once, after at most
    one request. *)
Theorem getInspirationalQuotes_failure
  (engine : Quotes.Engine) (now later : Z) (remote : Quotes.Remote)
  (cache cache' : option Quotes.CacheEntry) (e : JSError)
  (log : list Quotes.Effect) :
  Quotes.getInspirationalQuotes engine now later remote cache
  = (Throw e, cache', log) ->
  (e = Quotes.error Quotes.rateLimited \/ e = Quotes.error Quotes.cannotLoad)
  /\ cache' = cache
  /\ Quotes.miss now cache
  /\ (log = [Quotes.ConsoleError "Không thể lấy danh sách câu nói hay:"]
      \/ log = [Quotes.GenerateContent;
                Quotes.ConsoleError "Không thể lấy danh sách câu nói hay:"]).
Proof.
  intros H.
  destruct (quotes_hit_or_miss now cache) as [(entry & -> & Hlt)|Hmiss].
  { rewrite quotes_hit in H by exact Hlt. discriminate H. }
  destruct (quotes_miss engine now later remote cache Hmiss)
    as [(text & value & quotes & _ & _ & _ & E)|(t & requests & E & R)];
    cbv zeta in E; rewrite E in H; [discriminate H|].
  injection H as <- <- <-.
  split; [apply handler_messages|]. split; [reflexivity|]. split; [exact Hmiss|].
  destruct R as [->| ->]; auto.
Qed.

Lemma getInspirationalQuotes_failure_witness :
  let engine := {| Quotes.parseJSON := fun _ => Ok Quotes.JNull;
                   Quotes.nullProperty :=
                     mkError GenericError
                       "Cannot read properties of null (reading 'quotes')" |} in
  fst (fst (Quotes.getInspirationalQuotes engine 1000 1200 (Quotes.Text "null") None))
  = Throw (Quotes.error Quotes.cannotLoad).
Proof.
  intros engine.
  destruct (Quotes.getInspirationalQuotes engine 1000 1200 (Quotes.Text "null") None)
    as [[r c] l] eqn:E.
  destruct r as [q|e]; [vm_compute in E; discriminate E|].
  destruct (getInspirationalQuotes_failure engine _ _ _ _ _ _ _ E) as ([->| ->] & _).
  - vm_compute in E. discriminate E.
  - reflexivity.
Defined.

(** X24.  The quote lookup never hands out an empty list: from a cache that
    is empty or holds a list that is not empty, every list returned is not
    empty and is the one the cache holds after the call. *)
Theorem getInspirationalQuotes_never_empty
  (engine : Quotes.Engine) (now later : Z) (remote : Quotes.Remote)
  (cache : option Quotes.CacheEntry) :
  Quotes.validCache cache ->
  let r := Quotes.getInspirationalQuotes engine now later remote cache in
  Quotes.validCache (snd (fst r))
  /\ (forall quotes, fst (fst r) = Ok quotes -> quotes <> [])
  /\ (forall quotes, fst (fst r) = Ok quotes ->
        exists entry, snd (fst r) = Some entry /\ Quotes.data entry = quotes).
Proof.
  intros Hvalid r. subst r.
  destruct (quotes_hit_or_miss now cache) as [(entry & -> & Hlt)|Hmiss].
  { rewrite quotes_hit by exact Hlt. cbn [fst snd]. split; [exact Hvalid|].
    split; intros quotes E; injection E as <-; [exact Hvalid | eauto]. }
  destruct (quotes_miss engine now later remote cache Hmiss)
    as [(text & value & quotes & _ & _ & V & E)|(t & requests & E & R)];
    cbv zeta in E; rewrite E; cbn [fst snd].
  - apply validate_accepts in V as (members & _ & _ & Hne).
    split; [exact Hne|].
    split; intros quotes' E'; injection E' as <-; [exact Hne | eauto].
  - split; [exact Hvalid|]. split; discriminate.
Qed.

Lemma getInspirationalQuotes_never_empty_witness :
  let engine := {| Quotes.parseJSON :=
                     fun _ => Ok (Quotes.JObject
                                    [("quotes",
                                      Quotes.JArray
                                        [Quotes.JString "Có công mài sắt, có ngày nên kim."])]);
                   Quotes.nullProperty := mkError GenericError "null" |} in
  Quotes.validCache None
  /\ Quotes.validCache
       (snd (fst (Quotes.getInspirationalQuotes engine 1000 1200
                    (Quotes.Text "{}") None))).
Proof.
  intros engine. split; [exact I|].
  exact (proj1 (getInspirationalQuotes_never_empty engine 1000 1200
                  (Quotes.Text "{}") None I)).
Defined.

(** X25.  Which parsed answers are accepted: exactly the objects whose
    [quotes] property is an array that is not empty, and then that array is
    the result; its elements are not looked at.  Any other value is refused,
    with the invalid-data error, which the [catch] clause replaces by the
    cannot-load error, or, for [null], with the error of the property read. *)
Theorem quotes_answer_accepted
  (engine : Quotes.Engine) (value : Quotes.Json) :
  (forall items,
      Quotes.validate engine value = Ok items
      <-> exists members,
            value = Quotes.JObject members
            /\ Quotes.member "quotes" members = Some (Quotes.JArray items)
            /\ items <> [])
  /\ (forall e,
        Quotes.validate engine value = Throw e ->
        (e = Quotes.nullProperty engine /\ value = Quotes.JNull)
        \/ (e = Quotes.error Quotes.invalidQuotes
            /\ Quotes.handler (Quotes.AnError e) = Quotes.error Quotes.cannotLoad)).
Proof.
  split; [intros items; apply validate_accepts|].
  intros e E. destruct value as [|b|n|s|l|members].
  - left. split; [|reflexivity]. unfold Quotes.validate in E. cbn in E. congruence.
  - right. unfold Quotes.validate in E. cbn in E. injection E as <-. now split.
  - right. unfold Quotes.validate in E. cbn in E. injection E as <-. now split.
  - right. unfold Quotes.validate in E. cbn in E. injection E as <-. now split.
  - right. unfold Quotes.validate in E. cbn in E. injection E as <-. now split.
  - right. unfold Quotes.validate, Quotes.quotesOf in E.
    destruct (_ || _ || _)%bool; [|discriminate E].
    injection E as <-. now split.
Qed.

Section FenceFacts.
Import JS Quotes.

Lemma list_ascii_of_string_append (a b : string) :
  list_ascii_of_string (a ++ b)
  = list_ascii_of_string a ++ list_ascii_of_string b.
Proof.
  induction a as [|c a IH]; [reflexivity|].
  change (String c a ++ b)%string with (String c (a ++ b)).
  cbn [list_ascii_of_string app]. now rewrite IH.
Qed.

Lemma dropPrefix_append (p x : string) : dropPrefix p (p ++ x) = Some x.
Proof.
  induction p as [|c p IH]; [reflexivity|].
  change (String c p ++ x)%string with (String c (p ++ x)).
  cbn [dropPrefix]. now rewrite Ascii.eqb_refl.
Qed.

(** A list that starts with a character that opens no white space is
    left alone by the scan from the start, and likewise at the end. *)
Lemma trimStartL_clean (a : ascii) (l : list ascii) :
  ws1 a = false -> (forall b, ws2 a b = false) ->
  (forall b c, ws3 a b c = false) ->
  trimStartL (a :: l) = a :: l.
Proof.
  intros H1 H2 H3. destruct l as [|b [|c l]]; cbn [trimStartL];
    rewrite ?H1, ?H2, ?H3; reflexivity.
Qed.

Lemma trimEndR_clean (c : ascii) (l : list ascii) :
  ws1 c = false -> (forall b, ws2 b c = false) ->
  (forall a b, ws3 a b c = false) ->
  trimEndR (c :: l) = c :: l.
Proof.
  intros H1 H2 H3. destruct l as [|b [|a l]]; cbn [trimEndR];
    rewrite ?H1, ?H2, ?H3; reflexivity.
Qed.

Lemma backtick_opens_nothing :
  ws1 "`" = false /\ (forall b, ws2 "`" b = false)
  /\ (forall b c, ws3 "`" b c = false).
Proof. repeat split. Qed.

Lemma backtick_closes_nothing :
  (forall b, ws2 b "`" = false) /\ (forall a b, ws3 a b "`" = false).
Proof.
  split.
  - intros b. unfold ws2. apply andb_false_r.
  - intros a b. unfold ws3. change (code "`") with 96.
    cbn [Z.eqb Z.leb Z.compare Pos.compare Pos.compare_cont Pos.eqb andb orb].
    now rewrite !andb_false_r.
Qed.

(** A text between two backticks is its own trim. *)
Lemma trim_fenced (text : string) (inner tail : list ascii) :
  list_ascii_of_string text = "`"%char :: inner ->
  rev (list_ascii_of_string text) = "`"%char :: tail ->
  trim text = text.
Proof.
  intros Hstart Hend. unfold trim.
  destruct backtick_opens_nothing as (O1 & O2 & O3).
  destruct backtick_closes_nothing as (C2 & C3).
  rewrite Hstart, (trimStartL_clean _ _ O1 O2 O3), <- Hstart.
  rewrite Hend, (trimEndR_clean _ _ O1 C2 C3), <- Hend.
  now rewrite rev_involutive, string_of_list_ascii_of_string.
Qed.

Lemma stripClosing_fence (body : string) : stripClosing (body ++ "```") = body.
Proof.
  unfold stripClosing.
  rewrite list_ascii_of_string_append, rev_app_distr.
  cbn [list_ascii_of_string rev app].
  change ((code "`" =? 96) && (code "`" =? 96) && (code "`" =? 96))%bool with true.
  cbv iota. now rewrite rev_involutive, string_of_list_ascii_of_string.
Qed.

Lemma trim_fence (inner : string) :
  trim ("```json" ++ inner ++ "```") = ("```json" ++ inner ++ "```")%string.
Proof.
  apply (trim_fenced _
           (list_ascii_of_string ("``json" ++ inner ++ "```"))
           (["`"; "`"]%char ++ rev (list_ascii_of_string ("```json" ++ inner)))).
  - reflexivity.
  - replace ("```json" ++ inner ++ "```")%string
      with (("```json" ++ inner) ++ "```")%string by reflexivity.
    rewrite list_ascii_of_string_append, rev_app_distr. reflexivity.
Qed.

End FenceFacts.

(** X26.  A fenced answer is unwrapped: the text of an answer that is
    wrapped in a json code fence, with a line break after the opening fence
    or, if the body does not start with a line break, without one, is
    reduced to its body before it is parsed. *)
Theorem fenced_answer_unwrapped (body : string) :
  let unwrap text := Quotes.stripClosing (Quotes.stripOpening (JS.trim text)) in
  unwrap ("```json" ++ JS.str1 10 ++ body ++ "```")%string = body
  /\ (match body with
      | String c _ => JS.code c <> 10
      | EmptyString => True
      end ->
      unwrap ("```json" ++ body ++ "```")%string = body).
Proof.
  cbv zeta. split.
  - replace ("```json" ++ JS.str1 10 ++ body ++ "```")%string
      with ("```json" ++ (JS.str1 10 ++ body) ++ "```")%string by reflexivity.
    rewrite trim_fence. unfold Quotes.stripOpening.
    rewrite dropPrefix_append.
    change ((JS.str1 10 ++ body) ++ "```")%string
      with (String (JS.chr 10) (body ++ "```")).
    change (JS.code (JS.chr 10) =? 10) with true. cbv iota.
    apply stripClosing_fence.
  - intros Hc. rewrite trim_fence. unfold Quotes.stripOpening.
    rewrite dropPrefix_append.
    destruct body as [|c body].
    + reflexivity.
    + change (String c body ++ "```")%string with (String c (body ++ "```")).
      cbv iota.
      replace (JS.code c =? 10) with false by (symmetry; now apply Z.eqb_neq).
      change (String c (body ++ "```")) with (String c body ++ "```")%string.
      apply stripClosing_fence.
Qed.

(** ** The spoken alarm *)

(** X27.  [speakAlarm] first announces the speaking state with the reminder,
    and then either starts the playback of the decoded audio, after which
    nothing else has been announced, or announces the idle state, with no
    playback; it never closes the audio context itself, and a context that
    was created without a playback being started was created for audio that
    could not be decoded. *)
Theorem speakAlarm_outcomes (text : string) (reply : AlarmSpeech.Reply) :
  let t := AlarmSpeech.speakAlarm text reply in
  let calm := fun e => AlarmSpeech.isIdle e = false /\ AlarmSpeech.isStart e = false in
  hd_error t
  = Some (AlarmSpeech.StateChange Live.SPEAKING ("Nhắc nhở: " ++ text))
  /\ ~ In AlarmSpeech.ContextClosed t
  /\ ((exists played buffer data bytes,
          t = played ++ [AlarmSpeech.SourceStart buffer]
          /\ Forall calm played
          /\ reply = AlarmSpeech.Audio (Some data)
          /\ Codec.decode data = Ok bytes
          /\ Codec.decodeAudioData bytes 24000 1 = Ok buffer)
      \/ (exists before,
            t = before ++ [AlarmSpeech.StateChange Live.IDLE AlarmSpeech.resting]
            /\ Forall calm before
            /\ (In AlarmSpeech.ContextCreated before ->
                exists data,
                  reply = AlarmSpeech.Audio (Some data)
                  /\ (isOk (Codec.decode data) = false
                      \/ exists bytes,
                          Codec.decode data = Ok bytes
                          /\ isOk (Codec.decodeAudioData bytes 24000 1) = false)))).
Proof.
  cbv zeta. unfold AlarmSpeech.speakAlarm. split; [reflexivity|].
  destruct reply as [|base64Audio|].
  - split; [cbn; intuition discriminate|]. right.
    exists [AlarmSpeech.StateChange Live.SPEAKING ("Nhắc nhở: " ++ text);
            AlarmSpeech.ConsoleError "Không thể phát âm thanh báo thức:"].
    split; [reflexivity|]. split; [repeat constructor|].
    cbn. intuition discriminate.
  - destruct (Live.optTruthy base64Audio) eqn:T.
    + destruct base64Audio as [data|]; [|discriminate T].
      change (Live.orEmpty (Some data)) with data.
      destruct (Codec.decode data) as [bytes|e] eqn:D.
      * destruct (Codec.decodeAudioData bytes 24000 1) as [buffer|e] eqn:B.
        -- split; [cbn; intuition discriminate|]. left.
           exists [AlarmSpeech.StateChange Live.SPEAKING ("Nhắc nhở: " ++ text);
                   AlarmSpeech.GenerateContent ("Đã đến giờ " ++ text);
                   AlarmSpeech.ContextCreated], buffer, data, bytes.
           split; [reflexivity|]. split; [repeat constructor|]. now repeat split.
        -- split; [cbn; intuition discriminate|]. right.
           exists [AlarmSpeech.StateChange Live.SPEAKING ("Nhắc nhở: " ++ text);
                   AlarmSpeech.GenerateContent ("Đã đến giờ " ++ text);
                   AlarmSpeech.ContextCreated;
                   AlarmSpeech.ConsoleError "Không thể phát âm thanh báo thức:"].
           split; [reflexivity|]. split; [repeat constructor|].
           intros _. exists data. split; [reflexivity|]. right.
           exists bytes. rewrite B. now split.
      * split; [cbn; intuition discriminate|]. right.
        exists [AlarmSpeech.StateChange Live.SPEAKING ("Nhắc nhở: " ++ text);
                AlarmSpeech.GenerateContent ("Đã đến giờ " ++ text);
                AlarmSpeech.ContextCreated;
                AlarmSpeech.ConsoleError "Không thể phát âm thanh báo thức:"].
        split; [reflexivity|]. split; [repeat constructor|].
        intros _. exists data. split; [reflexivity|]. left. now rewrite D.
    + split; [cbn; intuition discriminate|]. right.
      exists [AlarmSpeech.StateChange Live.SPEAKING ("Nhắc nhở: " ++ text);
              AlarmSpeech.GenerateContent ("Đã đến giờ " ++ text)].
      split; [reflexivity|]. split; [repeat constructor|].
      cbn. intuition discriminate.
  - split; [cbn; intuition discriminate|]. right.
    exists [AlarmSpeech.StateChange Live.SPEAKING ("Nhắc nhở: " ++ text);
            AlarmSpeech.GenerateContent ("Đã đến giờ " ++ text);
            AlarmSpeech.ConsoleError "Không thể phát âm thanh báo thức:"].
    split; [reflexivity|]. split; [repeat constructor|].
    cbn. intuition discriminate.
Qed.

(** ** The profile form and the quote of the clock *)

Section TrimFacts.
Import JS.

Lemma length_induction {A} (P : list A -> Prop) :
  (forall l, (forall l0, (List.length l0 < List.length l)%nat -> P l0) -> P l) ->
  forall l, P l.
Proof.
  intros H l. remember (List.length l) as n eqn:Hn. revert l Hn.
  induction n as [n IH] using (well_founded_induction lt_wf). intros l ->.
  apply H. intros l0 Hl. exact (IH _ Hl l0 eq_refl).
Qed.

Lemma trimStartL_eq (l : list ascii) :
  trimStartL l
  = match l with
    | a :: l1 =>
        if ws1 a then trimStartL l1
        else match l1 with
             | b :: l2 =>
                 if ws2 a b then trimStartL l2
                 else match l2 with
                      | c :: l3 => if ws3 a b c then trimStartL l3 else l
                      | [] => l
                      end
             | [] => l
             end
    | [] => []
    end.
Proof. now destruct l. Qed.

Lemma trimEndR_eq (l : list ascii) :
  trimEndR l
  = match l with
    | c :: l1 =>
        if ws1 c then trimEndR l1
        else match l1 with
             | b :: l2 =>
                 if ws2 b c then trimEndR l2
                 else match l2 with
                      | a :: l3 => if ws3 a b c then trimEndR l3 else l
                      | [] => l
                      end
             | [] => l
             end
    | [] => []
    end.
Proof. now destruct l. Qed.

(** The scan from the start returns an end of the list: what it drops
    is at the start. *)
Lemma trimStartL_suffix (l : list ascii) :
  exists dropped, l = dropped ++ trimStartL l.
Proof.
  induction l as [l IH] using length_induction.
  rewrite trimStartL_eq. destruct l as [|a l1]; [now exists []|].
  destruct (ws1 a).
  { destruct (IH l1 ltac:(cbn; lia)) as [d Hd]. exists (a :: d). cbn. now rewrite <- Hd. }
  destruct l1 as [|b l2]; [now exists []|].
  destruct (ws2 a b).
  { destruct (IH l2 ltac:(cbn; lia)) as [d Hd]. exists (a :: b :: d). cbn.
    now rewrite <- Hd. }
  destruct l2 as [|c l3]; [now exists []|].
  destruct (ws3 a b c); [|now exists []].
  destruct (IH l3 ltac:(cbn; lia)) as [d Hd]. exists (a :: b :: c :: d). cbn.
  now rewrite <- Hd.
Qed.

Lemma trimEndR_suffix (l : list ascii) :
  exists dropped, l = dropped ++ trimEndR l.
Proof.
  induction l as [l IH] using length_induction.
  rewrite trimEndR_eq. destruct l as [|c l1]; [now exists []|].
  destruct (ws1 c).
  { destruct (IH l1 ltac:(cbn; lia)) as [d Hd]. exists (c :: d). cbn. now rewrite <- Hd. }
  destruct l1 as [|b l2]; [now exists []|].
  destruct (ws2 b c).
  { destruct (IH l2 ltac:(cbn; lia)) as [d Hd]. exists (c :: b :: d). cbn.
    now rewrite <- Hd. }
  destruct l2 as [|a l3]; [now exists []|].
  destruct (ws3 a b c); [|now exists []].
  destruct (IH l3 ltac:(cbn; lia)) as [d Hd]. exists (c :: b :: a :: d). cbn.
  now rewrite <- Hd.
Qed.

Lemma trimStartL_shorter (l : list ascii) :
  (List.length (trimStartL l) <= List.length l)%nat.
Proof.
  destruct (trimStartL_suffix l) as [d Hd]. rewrite Hd at 2.
  rewrite length_app. lia.
Qed.

Lemma trimStartL_idempotent (l : list ascii) :
  trimStartL (trimStartL l) = trimStartL l.
Proof.
  induction l as [l IH] using length_induction.
  rewrite (trimStartL_eq l). destruct l as [|a l1]; [reflexivity|].
  destruct (ws1 a) eqn:W1; [apply IH; cbn; lia|].
  destruct l1 as [|b l2].
  { rewrite trimStartL_eq. now rewrite W1. }
  destruct (ws2 a b) eqn:W2; [apply IH; cbn; lia|].
  destruct l2 as [|c l3].
  { rewrite trimStartL_eq. now rewrite W1, W2. }
  destruct (ws3 a b c) eqn:W3; [apply IH; cbn; lia|].
  rewrite trimStartL_eq. now rewrite W1, W2, W3.
Qed.

Lemma trimEndR_idempotent (l : list ascii) :
  trimEndR (trimEndR l) = trimEndR l.
Proof.
  induction l as [l IH] using length_induction.
  rewrite (trimEndR_eq l). destruct l as [|c l1]; [reflexivity|].
  destruct (ws1 c) eqn:W1; [apply IH; cbn; lia|].
  destruct l1 as [|b l2].
  { rewrite trimEndR_eq. now rewrite W1. }
  destruct (ws2 b c) eqn:W2; [apply IH; cbn; lia|].
  destruct l2 as [|a l3].
  { rewrite trimEndR_eq. now rewrite W1, W2. }
  destruct (ws3 a b c) eqn:W3; [apply IH; cbn; lia|].
  rewrite trimEndR_eq. now rewrite W1, W2, W3.
Qed.

(** A start of a list that has no white space at its start has none
    either. *)
Lemma trimStartL_prefix (p q : list ascii) :
  trimStartL (p ++ q) = p ++ q -> trimStartL p = p.
Proof.
  intros H.
  assert (Hlen : forall x y : list ascii,
             trimStartL x = y -> (List.length y <= List.length x)%nat).
  { intros x y <-. apply trimStartL_shorter. }
  rewrite trimStartL_eq in H. rewrite trimStartL_eq.
  destruct p as [|a p1]; [reflexivity|]. cbn [app] in H.
  destruct (ws1 a) eqn:W1.
  { exfalso. apply Hlen in H. cbn in H. lia. }
  destruct p1 as [|b p2]; [reflexivity|]. cbn [app] in H.
  destruct (ws2 a b) eqn:W2.
  { exfalso. apply Hlen in H. cbn in H. lia. }
  destruct p2 as [|c p3]; [reflexivity|]. cbn [app] in H.
  destruct (ws3 a b c) eqn:W3; [|reflexivity].
  exfalso. apply Hlen in H. cbn in H. lia.
Qed.

Lemma trim_idempotent (s : string) : trim (trim s) = trim s.
Proof.
  unfold trim. rewrite list_ascii_of_string_of_list_ascii.
  set (l := trimStartL (list_ascii_of_string s)).
  assert (Hl : trimStartL l = l) by apply trimStartL_idempotent.
  destruct (trimEndR_suffix (rev l)) as [dropped Hd].
  assert (Hp : l = rev (trimEndR (rev l)) ++ rev dropped).
  { rewrite <- rev_app_distr, <- Hd. now rewrite rev_involutive. }
  rewrite Hp in Hl at 1. rewrite <- Hp in Hl.
  assert (Hclean : trimStartL (rev (trimEndR (rev l))) = rev (trimEndR (rev l))).
  { apply (trimStartL_prefix _ (rev dropped)). rewrite <- Hp. exact Hl. }
  now rewrite Hclean, rev_involutive, trimEndR_idempotent.
Qed.

Lemma truthy_not_empty (s : string) :
  truthy s = negb (String.eqb s EmptyString).
Proof. now destruct s. Qed.

End TrimFacts.

(** X28.  The form submits exactly when the submit button is enabled, and
    the profile it submits carries the trimmed name, which is not empty and
    which trimming leaves as it is, the gender chosen, which is not empty,
    and the location if there is one. *)
Theorem handleSubmit_profile (name gender : string) (location : option (Q * Q)) :
  (Form.isFormValid name gender = true
   <-> exists profile, Form.handleSubmit name gender location = Some profile)
  /\ forall profile,
      Form.handleSubmit name gender location = Some profile ->
      Form.name profile = JS.trim name
      /\ JS.truthy (Form.name profile) = true
      /\ JS.trim (Form.name profile) = Form.name profile
      /\ Form.gender profile = gender
      /\ JS.truthy (Form.gender profile) = true
      /\ Form.location profile = location.
Proof.
  unfold Form.isFormValid, Form.handleSubmit.
  rewrite <- !truthy_not_empty.
  destruct (JS.truthy (JS.trim name)) eqn:N, (JS.truthy gender) eqn:G;
    cbn [andb]; (split; [split; [intros H; try discriminate H; eauto
                                |intros [p H]; try discriminate H; reflexivity]|]);
    intros profile H; try discriminate H.
  injection H as <-. cbn. repeat split; try assumption. apply trim_idempotent.
Qed.

Section RotationFacts.

Lemma iter_rotate (k i : nat) : Nat.iter k Clock.rotate i = (i + k)%nat.
Proof.
  induction k as [|k IH]; [cbn; lia|].
  rewrite Nat.iter_succ, IH. unfold Clock.rotate. lia.
Qed.

End RotationFacts.

(** X29.  The quote that is shown: there is none exactly when the list is
    empty, it is a member of the list, from any index every quote of the
    list comes up within as many rotations as the list is long, and the
    reduction of the index that follows a new list does not change which
    quote is shown. *)
Theorem currentQuote_rotation {A} (quotes : list A) (quoteIndex : nat) :
  (Clock.currentQuote quotes quoteIndex = None <-> quotes = [])
  /\ (forall q, Clock.currentQuote quotes quoteIndex = Some q -> In q quotes)
  /\ (forall j, (j < List.length quotes)%nat ->
        exists k, (k < List.length quotes)%nat
                  /\ Clock.currentQuote quotes (Nat.iter k Clock.rotate quoteIndex)
                     = nth_error quotes j)
  /\ (forall newQuotes : list A,
        Clock.currentQuote newQuotes (Clock.refetched newQuotes quoteIndex)
        = Clock.currentQuote newQuotes quoteIndex).
Proof.
  unfold Clock.currentQuote. split; [|split; [|split]].
  - destruct quotes as [|x l]; [now split|].
    cbn [List.length Nat.ltb Nat.leb]. split; [|discriminate].
    intros H. apply nth_error_None in H.
    pose proof (Nat.mod_upper_bound quoteIndex (List.length (x :: l))
                  ltac:(cbn; lia)). cbn [List.length] in *. lia.
  - intros q. destruct (Nat.ltb 0 (List.length quotes)); [|discriminate].
    apply nth_error_In.
  - intros j Hj.
    set (n := List.length quotes) in *.
    exists ((j + n - quoteIndex mod n) mod n)%nat.
    assert (Hn : n <> 0%nat) by lia.
    split; [now apply Nat.mod_upper_bound|].
    replace (Nat.ltb 0 n) with true by (symmetry; apply Nat.ltb_lt; lia).
    rewrite iter_rotate. f_equal.
    pose proof (Nat.mod_upper_bound quoteIndex n Hn) as Hq.
    rewrite Nat.Div0.add_mod_idemp_r.
    rewrite (Nat.div_mod_eq quoteIndex n) at 1.
    replace (n * (quoteIndex / n) + quoteIndex mod n + (j + n - quoteIndex mod n))%nat
      with (j + (1 + quoteIndex / n) * n)%nat by nia.
    rewrite Nat.Div0.mod_add. now apply Nat.mod_small.
  - intros newQuotes. unfold Clock.refetched.
    destruct newQuotes as [|x l]; [reflexivity|].
    cbn [List.length Nat.eqb]. cbn [Nat.ltb Nat.leb].
    now rewrite Nat.Div0.mod_mod.
Qed.

(** ** The double tap *)

(** X30.  The double tap after a deep sleep on request: the turn-complete
    block that announces deep sleep leaves the session awake; the shell then
    shows Mochi asleep, with power saving on; so a double tap, which goes by
    what is shown, calls [wakeUpMochi], and that call does nothing on a
    session that is not resting: nothing is announced, the shell still shows
    Mochi asleep, and the session is not stopped. *)
Theorem double_tap_after_deep_sleep (cm : JS.CaseMapping)
  (a : App.State) (s : Live.State) :
  App.isSessionActive a = true ->
  Live.deepSleepRequested s = true ->
  Live.isSuspended s = false ->
  let r := Live.handleTurnComplete s in
  let shown :=
    App.deepSleepEffect
      (App.handleStateChange Live.ENTERING_DEEP_SLEEP None a) in
  In (Live.StateChange Live.ENTERING_DEEP_SLEEP None) (Live.traceOf r)
  /\ Live.isSuspended (Live.stateOf r) = false
  /\ App.mochiState shown = Live.SLEEPING
  /\ App.isPowerSaving shown = true
  /\ snd (App.handleMochiDoubleClick shown) = [App.WakeUpMochi]
  /\ App.mochiState (fst (App.handleMochiDoubleClick shown)) = Live.SLEEPING
  /\ App.isSessionActive (fst (App.handleMochiDoubleClick shown)) = true
  /\ App.isPowerSaving (fst (App.handleMochiDoubleClick shown)) = false
  /\ Live.wakeUpMochi (Live.stateOf r) = (Ok tt, Live.stateOf r, []).
Proof.
  intros Hactive Hflag Hawake. cbv zeta.
  assert (Hturn : In (Live.StateChange Live.ENTERING_DEEP_SLEEP None)
                     (Live.traceOf (Live.handleTurnComplete s))
                  /\ Live.isSuspended (Live.stateOf (Live.handleTurnComplete s)) = false).
  { unfold Live.handleTurnComplete. destruct s. cbn in Hflag, Hawake. subst.
    unfold_monad. cbn. repeat (break_if; cbn); split; auto 6. }
  destruct Hturn as [Hin Hs].
  assert (Hwake : Live.wakeUpMochi (Live.stateOf (Live.handleTurnComplete s))
                  = (Ok tt, Live.stateOf (Live.handleTurnComplete s), [])).
  { revert Hs. generalize (Live.stateOf (Live.handleTurnComplete s)).
    intros s' Hs. unfold Live.wakeUpMochi, Live.wakeUp.
    destruct s' as [se ? ? ? ? ? ? ? ? su ? ? ? ?]. cbn in Hs. subst su.
    unfold_monad. cbn. destruct se; reflexivity. }
  split; [exact Hin|]. split; [exact Hs|].
  split; [reflexivity|]. split; [reflexivity|].
  repeat (split; [|]); try exact Hwake;
    unfold App.handleMochiDoubleClick, App.deepSleepEffect, App.handleStateChange;
    cbn; rewrite Hactive; reflexivity.
Qed.

Lemma double_tap_after_deep_sleep_witness :
  let a := {| App.userProfile :=
                Some {| Form.name := "An"; Form.gender := "Nữ";
                        Form.location := None |};
              App.mochiState := Live.LISTENING;
              App.statusText := EmptyString;
              App.isSessionActive := true;
              App.isPowerSaving := false |} in
  let s := Live.set_deepSleepRequested true Examples.started in
  let shown :=
    App.deepSleepEffect
      (App.handleStateChange Live.ENTERING_DEEP_SLEEP None a) in
  snd (App.handleMochiDoubleClick shown) = [App.WakeUpMochi]
  /\ Live.wakeUpMochi (Live.stateOf (@Live.handleTurnComplete JS.vietnamese s))
     = (Ok tt, Live.stateOf (@Live.handleTurnComplete JS.vietnamese s), []).
Proof.
  intros a s shown.
  destruct (double_tap_after_deep_sleep JS.vietnamese a s eq_refl eq_refl eq_refl)
    as (_ & _ & _ & _ & Tap & _ & _ & _ & Wake).
  split; [exact Tap | exact Wake].
Defined.
